(** * METS descriptor generation and reading (eatb.metadata.mets)

    A shallow embedding of [metsgenerator.py] and [ParsedMets.py]:
    Python strings are [string], lxml element objects live in a store of
    nodes addressed by references (they are shared and mutated in place),
    Python exceptions are the [Raise] outcome of a state-and-error monad. *)

From Stdlib Require Import Ascii.
From stdpp Require Import gmap strings list fin_maps pretty.

Set Warnings "-register-all".

(** ** Python string operations used by the sources *)

(** [s.split(sep)] for a one-character separator: empty fields are kept,
    and the result is never empty. *)
Fixpoint split (sep : ascii) (s : string) : list string :=
  match s with
  | EmptyString => [EmptyString]
  | String c s' =>
      if Ascii.eqb c sep then EmptyString :: split sep s'
      else match split sep s' with
           | [] => [String c EmptyString]
           | t :: ts => String c t :: ts
           end
  end.

(** [s.startswith(p)] *)
Fixpoint startswith (s p : string) : bool :=
  match p, s with
  | EmptyString, _ => true
  | String _ _, EmptyString => false
  | String a p', String b s' => Ascii.eqb a b && startswith s' p'
  end.

Fixpoint string_rev_acc (s acc : string) : string :=
  match s with
  | EmptyString => acc
  | String c s' => string_rev_acc s' (String c acc)
  end.

Definition string_rev (s : string) : string := string_rev_acc s EmptyString.

(** [s.endswith(p)] *)
Definition endswith (s p : string) : bool :=
  startswith (string_rev s) (string_rev p).

(** [p in s] for strings; [fnmatch(s, '*p*')] for a literal [p]. *)
Fixpoint contains (s p : string) : bool :=
  startswith s p ||
  match s with
  | EmptyString => false
  | String _ s' => contains s' p
  end.

Definition ascii_lower (c : ascii) : ascii :=
  let n := nat_of_ascii c in
  if (65 <=? n)%nat && (n <=? 90)%nat then ascii_of_nat (n + 32) else c.

(** [s.lower()], on the ASCII letters. *)
Fixpoint lower (s : string) : string :=
  match s with
  | EmptyString => EmptyString
  | String c s' => String (ascii_lower c) (lower s')
  end.

(** [sep.join(l)] *)
Fixpoint join_with (sep : string) (l : list string) : string :=
  match l with
  | [] => ""
  | [x] => x
  | x :: rest => x +:+ sep +:+ join_with sep rest
  end.

(** ** Exceptions and outcomes *)

Inductive exn :=
  | KeyError (key : string)
  | TypeError (msg : string)
  | AttributeError (msg : string)
  | IndexError
  | ValueError (msg : string)
  | XMLSyntaxError
  | OSError (path : string)
  | StopIteration
  | SyntaxError (msg : string)
  | UnicodeEncodeError.

Inductive result (A : Type) :=
  | Ok (a : A)
  | Raise (e : exn).
Arguments Ok {A} a.
Arguments Raise {A} e.

(** Python values where the sources rely on dynamic typing. *)
Inductive pyval :=
  | PyNone
  | PyStr (s : string)
  | PyInt (n : Z).

(** ** Path Classifier: [get_folder_with_USE] *)

Definition folders_with_USE : list string :=
  ["documentation"; "schemas"; "representations"; "data"].

(** The loop [for dir in dirs: if dir in folders_with_USE: return dir]. *)
Fixpoint first_with_USE (dirs : list string) : option string :=
  match dirs with
  | [] => None
  | dir :: rest =>
      if bool_decide (dir ∈ folders_with_USE) then Some dir
      else first_with_USE rest
  end.

Definition get_folder_with_USE (path : string) : string :=
  match first_with_USE (rev (split "/" path)) with
  | Some dir => dir
  | None => "other"
  end.

(** The same function on an arbitrary Python value: [path.split] raises
    on a value that is not a string, the [except Exception] clause logs
    two debug records and control falls through to [return 'other']. *)
Definition py_split (path : pyval) (sep : ascii) : result (list string) :=
  match path with
  | PyStr s => Ok (split sep s)
  | PyNone => Raise (AttributeError "'NoneType' object has no attribute 'split'")
  | PyInt _ => Raise (AttributeError "'int' object has no attribute 'split'")
  end.

Definition exn_message (e : exn) : string :=
  match e with
  | KeyError k => k
  | TypeError m | AttributeError m | ValueError m | SyntaxError m => m
  | IndexError => "list index out of range"
  | XMLSyntaxError => "Document is empty"
  | OSError p => p
  | StopIteration => ""
  | UnicodeEncodeError => "codec can't encode characters"
  end.

Definition get_folder_with_USE_dyn (path : pyval) : string * list string :=
  match py_split path "/" with
  | Ok dirs =>
      match first_with_USE (rev dirs) with
      | Some dir => (dir, [])
      | None => ("other", [])
      end
  | Raise e => ("other", ["Parent directory not used"; exn_message e])
  end.

(** Modelled from the spec: the classifier as section 4.1 words it. The
    role tokens are the four it names; the answer is the deepest segment
    that is one of them, [other] when no segment is. *)
Inductive classifies (path : string) : string -> Prop :=
  | classifies_role pre dir post :
      split "/" path = pre ++ dir :: post ->
      dir ∈ ["documentation"; "schemas"; "representations"; "data"] ->
      Forall (λ d, d ∉ ["documentation"; "schemas"; "representations"; "data"]) post ->
      classifies path dir
  | classifies_other :
      Forall (λ d, d ∉ ["documentation"; "schemas"; "representations"; "data"])
        (split "/" path) ->
      classifies path "other".

(** ** Documents and the element store (lxml)

    A parsed or serialised document is a tree of [element]s.  While a
    document is being built, elements are lxml objects: they are created,
    handed around and appended to later, so they live in a store of [node]s
    and are named by their index in it. *)

Inductive element :=
  | Element (etag : string) (eattrib : list (string * string))
            (etext : string) (echildren : list element).

Definition ref := nat.

Record node := Node {
  tag : string;
  attrib : list (string * string);
  text : string;
  children : list ref }.

(** ** The package on disk

    [disk] is the listing of the directory [root_path]; the order of a
    listing is the order in which the operating system enumerates it. *)

Inductive content :=
  | Xml (doc : element)     (* the text of a well-formed XML document *)
  | Raw (data : string).    (* any other content; [Raw ""] is the empty file *)

Inductive entry :=
  | File (ctime : string) (c : content)
  | Dir (entries : list (string * entry)).

(** ** External collaborators *)

Record environment := Environment {
  uuid4 : nat -> string;                 (* the n-th value of uuid.uuid4() *)
  guess_type : string -> option string;  (* MimeTypes().guess_type(url)[0] *)
  relpath : string -> string -> string;  (* os.path.relpath(path, start) *)
  isfile_outside : string -> bool;       (* os.path.isfile off the package *)
  get_sha256_hash : content -> string;
  getsize : content -> Z;
  current_timestamp : string;
  application_name : string;
  application_version : string;
  encodable : element -> bool            (* the locale's codec can encode the text *) }.

(** ** Program state and the monad of the methods *)

Record state := State {
  heap : list node;
  drawn : nat;                            (* identifiers drawn so far *)
  log : list (string * string);           (* logger records: level, message *)
  disk : list (string * entry);
  elsewhere : list (string * content);    (* files written off the package *)
  mets_data : option (gmap string pyval)  (* MetsGenerator.mets_data *) }.

Definition set_heap (f : list node -> list node) (s : state) : state :=
  State (f (heap s)) (drawn s) (log s) (disk s) (elsewhere s) (mets_data s).
Definition set_drawn (n : nat) (s : state) : state :=
  State (heap s) n (log s) (disk s) (elsewhere s) (mets_data s).
Definition add_log (r : string * string) (s : state) : state :=
  State (heap s) (drawn s) (log s ++ [r]) (disk s) (elsewhere s) (mets_data s).
Definition set_disk (d : list (string * entry)) (s : state) : state :=
  State (heap s) (drawn s) (log s) d (elsewhere s) (mets_data s).
Definition set_elsewhere (w : list (string * content)) (s : state) : state :=
  State (heap s) (drawn s) (log s) (disk s) w (mets_data s).
Definition set_mets_data (d : option (gmap string pyval)) (s : state) : state :=
  State (heap s) (drawn s) (log s) (disk s) (elsewhere s) d.

Definition M (A : Type) : Type := state -> state * result A.

Definition ret {A} (a : A) : M A := λ s, (s, Ok a).
Definition raise {A} (e : exn) : M A := λ s, (s, Raise e).
Definition bind {A B} (m : M A) (k : A -> M B) : M B :=
  λ s, match m s with
       | (s', Ok a) => k a s'
       | (s', Raise e) => (s', Raise e)
       end.
Definition lift {A} (r : result A) : M A := λ s, (s, r).
Definition gets {A} (f : state -> A) : M A := λ s, (s, Ok (f s)).
Definition modify (f : state -> state) : M unit := λ s, (f s, Ok tt).

(** [try: m except E: h]: [handler e] is [None] when the clause does not
    match [e]; the state reached when the exception was raised is kept. *)
Definition try_except {A} (m : M A) (handler : exn -> option (M A)) : M A :=
  λ s, match m s with
       | (s', Ok a) => (s', Ok a)
       | (s', Raise e) =>
           match handler e with
           | Some h => h s'
           | None => (s', Raise e)
           end
       end.

Declare Scope mets_scope.
Delimit Scope mets_scope with mets.
Notation "x <- c1 ;; c2" := (bind c1 (λ x, c2))
  (at level 20, c1 at level 99, c2 at level 200, only parsing) : mets_scope.
Notation "c1 ;; c2" := (bind c1 (λ _, c2))
  (at level 100, c2 at level 200, only parsing, right associativity) : mets_scope.
Open Scope mets_scope.

(** [for x in l: body x] *)
Fixpoint for_each {A} (l : list A) (body : A -> M unit) : M unit :=
  match l with
  | [] => ret tt
  | x :: rest => body x ;; for_each rest body
  end.

(** A loop that also updates a local variable. *)
Fixpoint for_fold {A S} (l : list A) (acc : S) (body : S -> A -> M S) : M S :=
  match l with
  | [] => ret acc
  | x :: rest => acc' <- body acc x;; for_fold rest acc' body
  end.

Definition logger (level msg : string) : M unit := modify (add_log (level, msg)).

(** ** Dynamic values *)

(** ['%s' % v] *)
Definition py_str (v : pyval) : string :=
  match v with
  | PyNone => "None"
  | PyStr s => s
  | PyInt n => pretty n
  end.

(** Truth value of [v] in a condition. *)
Definition truthy (v : pyval) : bool :=
  match v with
  | PyNone => false
  | PyStr s => negb (String.eqb s "")
  | PyInt n => negb (n =? 0)%Z
  end.

(** A value given for an attribute: strings are taken as they are, numbers
    are rendered, [None] is refused. *)
Definition attr_value (v : pyval) : result string :=
  match v with
  | PyStr s => Ok s
  | PyInt n => Ok (pretty n)
  | PyNone => Raise (TypeError "Argument must be bytes or unicode, got 'NoneType'")
  end.

(** A value used as a path by [os.path]. *)
Definition as_path (v : pyval) : result string :=
  match v with
  | PyStr s => Ok s
  | _ => Raise (TypeError "expected str, bytes or os.PathLike object")
  end.

(** [d[k]] on a dictionary. *)
Definition getitem (d : gmap string pyval) (k : string) : result pyval :=
  match d !! k with
  | Some v => Ok v
  | None => Raise (KeyError k)
  end.

(** [o[k]] where [o] is a dictionary or [None]. *)
Definition subscript (o : option (gmap string pyval)) (k : string) : result pyval :=
  match o with
  | Some d => getitem d k
  | None => Raise (TypeError "'NoneType' object is not subscriptable")
  end.

(** ** os.path *)

(** [os.path.join(a, b)] (posixpath) *)
Definition path_join (a b : string) : string :=
  if startswith b "/" then b
  else if String.eqb a "" || endswith a "/" then a +:+ b
  else a +:+ "/" +:+ b.

(** [s.rsplit('/', 1)[1]] *)
Definition rsplit_slash_1 (s : string) : result string :=
  match rev (split "/" s) with
  | last :: _ :: _ => Ok last
  | _ => Raise IndexError
  end.

Fixpoint strip_prefix (p s : string) : option string :=
  match p, s with
  | EmptyString, _ => Some s
  | String _ _, EmptyString => None
  | String a p', String b s' => if Ascii.eqb a b then strip_prefix p' s' else None
  end.

Definition nonempty (s : string) : bool := negb (String.eqb s "").

(** The names leading from the package root to [p], when [p] lies under
    [root_path]. Paths are resolved lexically: the sources build them by
    joining names of directory entries onto [root_path]. *)
Definition under_root (root_path p : string) : option (list string) :=
  match strip_prefix root_path p with
  | Some rest =>
      if String.eqb rest "" || startswith rest "/" || endswith root_path "/"
      then Some (List.filter nonempty (split "/" rest))
      else None
  | None => None
  end.

Fixpoint lookup_name (name : string) (es : list (string * entry)) : option entry :=
  match es with
  | [] => None
  | (n, e) :: rest => if String.eqb n name then Some e else lookup_name name rest
  end.

Fixpoint resolve (segs : list string) (e : entry) : option entry :=
  match segs with
  | [] => Some e
  | name :: rest =>
      match e with
      | Dir es =>
          match lookup_name name es with
          | Some sub => resolve rest sub
          | None => None
          end
      | File _ _ => None
      end
  end.

Definition is_dir (e : entry) : bool :=
  match e with Dir _ => true | File _ _ => false end.

(** What [os.walk] and [os.listdir] report of one directory. *)
Definition dirnames (es : list (string * entry)) : list string :=
  (List.filter (λ ne, is_dir ne.2) es).*1.
Definition filenames_of (es : list (string * entry)) : list string :=
  (List.filter (λ ne, negb (is_dir ne.2)) es).*1.

Fixpoint put_name (name : string) (new : entry) (es : list (string * entry))
  : list (string * entry) :=
  match es with
  | [] => [(name, new)]
  | (n, e) :: rest =>
      if String.eqb n name then (n, new) :: rest
      else (n, e) :: put_name name new rest
  end.

(** Replace or create the regular file at [segs]; [None] when a directory
    is in the way or the parent directory is missing. *)
Fixpoint write_at (segs : list string) (new : entry) (e : entry) : option entry :=
  match segs, e with
  | [], _ => None
  | _ :: _, File _ _ => None
  | [name], Dir es =>
      match lookup_name name es with
      | Some (Dir _) => None
      | _ => Some (Dir (put_name name new es))
      end
  | name :: rest, Dir es =>
      match lookup_name name es with
      | Some sub =>
          match write_at rest new sub with
          | Some sub' => Some (Dir (put_name name sub' es))
          | None => None
          end
      | None => None
      end
  end.

Fixpoint put_key {V} (k : string) (v : V) (l : list (string * V)) : list (string * V) :=
  match l with
  | [] => [(k, v)]
  | (k', v') :: rest =>
      if String.eqb k' k then (k, v) :: rest else (k', v') :: put_key k v rest
  end.

Fixpoint get_key {V} (k : string) (l : list (string * V)) : option V :=
  match l with
  | [] => None
  | (k', v) :: rest => if String.eqb k' k then Some v else get_key k rest
  end.

(** ** Constants of metsgenerator.py *)

Definition METS_NS := "http://www.loc.gov/METS/".
Definition METSEXT_NS := "ExtensionMETS".
Definition XLINK_NS := "http://www.w3.org/1999/xlink".
Definition CSIP_NS := "https://DILCIS.eu/XML/METS/CSIPExtensionMETS".
Definition PROFILE_XML := "https://earkcsip.dilcis.eu/profile/E-ARK-CSIP.xml".

Definition default_mets_schema_location := "schemas/mets.xsd".
Definition default_csip_location := "schemas/DILCISExtensionMETS.xsd".
Definition default_xlink_schema_location := "https://www.w3.org/1999/xlink.xsd".

(** Modelled from the spec: [XSI_NS] of eatb.metadata.XmlHelper, which is
    not among the sources. Section 6 lists a schema-instance namespace among
    the namespaces of the document; it is the one [METS_NSMAP] and
    [ParsedMets.ns] bind to the prefix [xsi]. *)
Definition XSI_NS := "http://www.w3.org/2001/XMLSchema-instance".

(** Modelled from the spec: [q] of eatb.metadata.XmlHelper, which is not
    among the sources. It qualifies a name with a namespace, in the
    [{namespace}name] form lxml uses for tags and attribute names. *)
Definition q (ns v : string) : string := "{" +:+ ns +:+ "}" +:+ v.

(** ** Operations on the element store *)

Definition add_child (c : ref) (n : node) : node :=
  Node (tag n) (attrib n) (text n) (children n ++ [c]).

Definition insert_child (i : nat) (c : ref) (n : node) : node :=
  Node (tag n) (attrib n) (text n) (take i (children n) ++ c :: drop i (children n)).

Definition put_attrib (k v : string) (n : node) : node :=
  Node (tag n) (put_key k v (attrib n)) (text n) (children n).

(** An [ElementMaker] expression [M.t(attributes, text, child, ...)]
    denotes a new tree of elements of the METS namespace. *)
Definition E (t : string) (a : list (string * string)) (x : string)
    (kids : list element) : element :=
  Element (q METS_NS t) a x kids.

Definition alloc (n : node) : M ref :=
  λ s, (set_heap (λ h, h ++ [n]) s, Ok (length (heap s))).

(** [p.append(c)] *)
Definition append (p c : ref) : M unit :=
  modify (set_heap (alter (add_child c) p)).

(** [p.insert(i, c)] *)
Definition insert_at (p : ref) (i : nat) (c : ref) : M unit :=
  modify (set_heap (alter (insert_child i c) p)).

(** [p.attrib[k] = v] *)
Definition set_attrib (p : ref) (k v : string) : M unit :=
  modify (set_heap (alter (put_attrib k v) p)).

(** [len(p)] *)
Definition len (p : ref) : M nat :=
  gets (λ s, match heap s !! p with Some n => length (children n) | None => 0 end).

(** The elements of a tree enter the store in document order; the answer
    is the reference of its root. *)
Fixpoint load_children (load : element -> M ref) (r : ref) (l : list element) : M ref :=
  match l with
  | [] => ret r
  | k :: l' => c <- load k;; append r c;; load_children load r l'
  end.

Fixpoint load (e : element) : M ref :=
  match e with
  | Element t a x kids =>
      r <- alloc (Node t a x []);;
      load_children load r kids
  end.

(** [x = M.t(...)]: a new element the program keeps hold of. *)
Definition create (e : element) : M ref := load e.

(** [x = M.t(...); p.append(x)], and [p.append(M.t(...))]. *)
Definition attach (p : ref) (e : element) : M ref :=
  c <- load e;; append p c;; ret c.

(** [x = M.t(...); p.insert(i, x)] *)
Definition insert_new (p : ref) (i : nat) (e : element) : M ref :=
  c <- load e;; insert_at p i c;; ret c.

(** [p.append(x)] where [p] may be something that is not an element:
    [None] returned by [find], or the empty string [physical_div] starts
    as. *)
Definition attach_to (p : option ref) (e : element) : M unit :=
  match p with
  | Some r => attach r e;; ret tt
  | None => raise (AttributeError "object has no attribute 'append'")
  end.

(** [p.append(M.fptr({'FILEID': id}))] *)
Definition append_fptr (p : option ref) (id : string) : M unit :=
  attach_to p (E "fptr" [("FILEID", id)] "" []).

(** The first child of [p] with tag [t] and LABEL [label]: what the path
    [{ns}t[@LABEL='label']] selects when [label] holds no single quote. *)
Definition find_labelled (h : list node) (p : ref) (t label : string) : option ref :=
  match h !! p with
  | Some n =>
      List.find (λ c, match h !! c with
                      | Some m => String.eqb (tag m) t &&
                                  bool_decide (get_key "LABEL" (attrib m) = Some label)
                      | None => false
                      end) (children n)
  | None => None
  end.

(** [p.find("%s[@LABEL='%s']" % (t, label))]: the label is pasted between
    single quotes. A label that holds a single quote ends the quoted value
    early, and ElementPath refuses what is left between the brackets
    ([SyntaxError: invalid predicate]). A label written so that the rest
    reads as path syntax again is not considered. *)
Definition find (p : ref) (t label : string) : M (option ref) :=
  if contains label "'" then raise (SyntaxError "invalid predicate")
  else gets (λ s, find_labelled (heap s) p t label).

(** The document an element of the store stands for. The store of a
    document under construction is a forest, and [length h] unfoldings
    reach every element of it. *)
Fixpoint reify (fuel : nat) (h : list node) (r : ref) : option element :=
  match fuel with
  | 0 => None
  | S fuel' =>
      match h !! r with
      | Some n =>
          match mapM (reify fuel' h) (children n) with
          | Some kids => Some (Element (tag n) (attrib n) (text n) kids)
          | None => None
          end
      | None => None
      end
  end.

(** What [etree.tostring(root, encoding='UTF-8', ...)] returns is a [bytes]
    object; [.decode('utf-8')] turns it into a [str]. Both are kept as the
    document whose text they hold. *)
Inductive serialized :=
  | Bytes (doc : element)
  | Text (doc : element).

Definition etree_tostring (r : ref) : M serialized :=
  h <- gets heap;;
  match reify (length h) h r with
  | Some doc => ret (Bytes doc)
  | None => raise (ValueError "the element is not the root of a tree")
  end.

(** [b.decode('utf-8')] *)
Definition decode (b : serialized) : result serialized :=
  match b with
  | Bytes doc => Ok (Text doc)
  | Text _ => Raise (AttributeError "'str' object has no attribute 'decode'")
  end.

(** ** A generator instance: [MetsGenerator(root_path)] *)

Section MetsGenerator.

Context (env : environment) (root_path : string).

(** ["ID" + uuid.uuid4().__str__()] *)
Definition fresh_id : M string :=
  λ s, (set_drawn (S (drawn s)) s, Ok ("ID" +:+ uuid4 env (drawn s))).

(** *** The file system as the methods see it *)

(** The entry a path names on disk [d], if any. The empty path names
    nothing. *)
Definition locate_on (d : list (string * entry)) (p : string) : option entry :=
  if String.eqb p "" then None
  else match under_root root_path p with
       | Some segs => resolve segs (Dir d)
       | None => None
       end.

Definition locate (p : string) : M (option entry) :=
  gets (λ s, locate_on (disk s) p).

(** [os.path.exists(p)] *)
Definition path_exists (p : string) : M bool :=
  e <- locate p;;
  ret (match e with Some _ => true | None => false end).

(** [os.path.isfile(p)] *)
Definition isfile_on (d : list (string * entry)) (p : string) : bool :=
  match under_root root_path p with
  | Some _ => match locate_on d p with Some (File _ _) => true | _ => false end
  | None => isfile_outside env p
  end.

Definition isfile (p : string) : M bool :=
  gets (λ s, isfile_on (disk s) p).

(** The content of the regular file at [p], on disk or off the package. *)
Definition file_at (s : state) (p : string) : option content :=
  match under_root root_path p with
  | Some segs =>
      match resolve segs (Dir (disk s)) with
      | Some (File _ c) => Some c
      | _ => None
      end
  | None => get_key p (elsewhere s)
  end.

(** [os.listdir(p)] *)
Definition listdir (p : string) : M (list string) :=
  e <- locate p;;
  match e with
  | Some (Dir es) => ret es.*1
  | _ => raise (OSError p)
  end.

(** Reading a regular file: its creation time and its content. *)
Definition read_file (p : string) : M (string * content) :=
  e <- locate p;;
  match e with
  | Some (File t c) => ret (t, c)
  | _ => raise (OSError p)
  end.

(** [os.walk(top)] driving a loop body: [body dirpath dirnames filenames]
    answers whether it emptied [dirnames] ([del subdirectories[:]]), which
    keeps the walk out of the sub-directories. A path that is not a
    directory yields nothing. *)
Fixpoint walk_children (walk : string -> entry -> M unit) (top : string)
    (l : list (string * entry)) : M unit :=
  match l with
  | [] => ret tt
  | (name, sub) :: l' => walk (path_join top name) sub;; walk_children walk top l'
  end.

Fixpoint walk_entry (body : string -> list string -> list string -> M bool)
    (top : string) (e : entry) : M unit :=
  match e with
  | File _ _ => ret tt
  | Dir es =>
      pruned <- body top (dirnames es) (filenames_of es);;
      if pruned : bool then ret tt
      else walk_children (walk_entry body) top es
  end.

Definition os_walk (top : string)
    (body : string -> list string -> list string -> M bool) : M unit :=
  e <- locate top;;
  match e with
  | Some e => walk_entry body top e
  | None => ret tt
  end.

(** [next(os.walk(top))[1]] *)
Definition first_walk_dirnames (top : string) : M (list string) :=
  e <- locate top;;
  match e with
  | Some (Dir es) => ret (dirnames es)
  | _ => raise StopIteration
  end.

(** [open(p, 'w')]: the file is created, or emptied if it exists. *)
Definition open_w (p : string) : M unit :=
  match under_root root_path p with
  | Some segs =>
      d <- gets disk;;
      match write_at segs (File (current_timestamp env) (Raw "")) (Dir d) with
      | Some (Dir d') => modify (set_disk d')
      | _ => raise (OSError p)
      end
  | None => modify (λ s, set_elsewhere (put_key p (Raw "") (elsewhere s)) s)
  end.

(** [output_file.write(data)] on a file opened in text mode, and the close
    at the end of the [with] block. The text goes through the codec of the
    locale, which raises on a character it cannot encode; the file has been
    emptied by [open] by then. *)
Definition file_write (p : string) (data : serialized) : M unit :=
  match data with
  | Text doc =>
      if encodable env doc then
        match under_root root_path p with
        | Some segs =>
            d <- gets disk;;
            match write_at segs (File (current_timestamp env) (Xml doc)) (Dir d) with
            | Some (Dir d') => modify (set_disk d')
            | _ => raise (OSError p)
            end
        | None => modify (λ s, set_elsewhere (put_key p (Xml doc) (elsewhere s)) s)
        end
      else raise UnicodeEncodeError
  | Bytes _ => raise (TypeError "write() argument must be str, not bytes")
  end.

(** [etree.parse(p, parser).getroot()] *)
Definition etree_parse (p : string) : M ref :=
  f <- read_file p;;
  match f.2 with
  | Xml doc => load doc
  | Raw _ => raise XMLSyntaxError
  end.

(** *** addFile and make_mdref *)

Definition addFile (file_name : string) (mets_filegroup : ref) : M string :=
  let file_url := relpath env file_name root_path in
  let file_mimetype :=
    match guess_type env file_url with
    | Some m => m
    | None => "application/octet-stream"
    end in
  f <- read_file file_name;;
  let file_checksum := get_sha256_hash env f.2 in
  let file_size := getsize env f.2 in
  let file_cdate := f.1 in
  file_id <- fresh_id;;
  mets_file <- attach mets_filegroup
    (E "file"
       [("MIMETYPE", file_mimetype); ("CHECKSUMTYPE", "SHA-256");
        ("CREATED", file_cdate); ("CHECKSUM", file_checksum);
        ("USE", "Datafile"); ("ID", file_id); ("SIZE", pretty file_size)] "" []);;
  attach mets_file
    (E "FLocat"
       [(q XLINK_NS "href", file_url); ("LOCTYPE", "URL");
        (q XLINK_NS "type", "simple")] "" []);;
  ret file_id.

Definition make_mdref (path file id mdtype : string) : M (list (string * string)) :=
  let mimetype :=
    match guess_type env (path_join path file) with
    | Some m => m
    | None => "application/octet-stream"
    end in
  let rel_path := relpath env (path_join path file) root_path in
  f <- read_file (path_join path file);;
  ret [("LOCTYPE", "URL"); ("MIMETYPE", mimetype);
       ("CREATED", current_timestamp env);
       (q XLINK_NS "type", "simple"); (q XLINK_NS "href", rel_path);
       ("CHECKSUMTYPE", "SHA-256"); ("CHECKSUM", get_sha256_hash env f.2);
       ("ID", id); ("SIZE", pretty (getsize env f.2)); ("MDTYPE", mdtype)].

(** *** Relationship Linker *)

(** Lines 157-174: the new pointer division and its place in the parsed
    sibling document. *)
Definition parent_link (T identifier : string) (parent_root : ref) : M unit :=
  id <- fresh_id;;
  let parent :=
    E "div" [("LABEL", "parent " +:+ T)] ""
      [E "mptr"
         [("LOCTYPE", "OTHER"); ("OTHERLOCTYPE", "UUID");
          (q XLINK_NS "title", "Referencing a parent " +:+ T +:+ ".");
          (q XLINK_NS "href", identifier); ("ID", id)] "" []] in
  parent_map <- find parent_root (q METS_NS "structMap") ("parent " +:+ T);;
  match parent_map with
  | Some parent_map =>
      parent_div <- find parent_map (q METS_NS "div")
                      ("parent " +:+ T +:+ " identifiers");;
      attach_to parent_div parent
  | None =>
      n <- len parent_root;;
      insert_new parent_root n
        (E "structMap" [("LABEL", "parent " +:+ T); ("TYPE", "logical")] ""
           [E "div" [("LABEL", "parent " +:+ T +:+ " identifiers")] "" [parent]]);;
      ret tt
  end.

Definition setParentRelation (identifier : string) : M unit :=
  let parentmets := path_join root_path "METS.xml" in
  md <- gets mets_data;;
  packagetype <- lift (subscript md "type");;
  let T := py_str packagetype in
  found <- path_exists parentmets;;
  if found : bool then
    parent_root <- etree_parse parentmets;;
    parent_link T identifier parent_root;;
    str <- etree_tostring parent_root;;
    open_w parentmets;;
    file_write parentmets str
  else
    logger "DEBUG" ("Couldn't find the parent " +:+ T +:+ "s Mets file.").

(** Lines 189-206, the same for a child. *)
Definition child_link (T identifier : string) (parent_root : ref) : M unit :=
  id <- fresh_id;;
  let child :=
    E "div" [("LABEL", "child " +:+ T)] ""
      [E "mptr"
         [("LOCTYPE", "OTHER"); ("OTHERLOCTYPE", "UUID");
          (q XLINK_NS "title", "Referencing a child " +:+ T +:+ ".");
          (q XLINK_NS "href", identifier); ("ID", id)] "" []] in
  children_map <- find parent_root (q METS_NS "structMap") ("child " +:+ T);;
  match children_map with
  | Some children_map =>
      children_div <- find children_map (q METS_NS "div")
                        ("child " +:+ T +:+ " identifiers");;
      attach_to children_div child
  | None =>
      n <- len parent_root;;
      insert_new parent_root n
        (E "structMap" [("LABEL", "child " +:+ T); ("TYPE", "logical")] ""
           [E "div" [("LABEL", "child " +:+ T +:+ " identifiers")] "" [child]]);;
      ret tt
  end.

Definition addChildRelation (identifier : string) : M unit :=
  let parentmets := path_join root_path "METS.xml" in
  md <- gets mets_data;;
  packagetype <- lift (subscript md "type");;
  let T := py_str packagetype in
  found <- path_exists parentmets;;
  if found : bool then
    parent_root <- etree_parse parentmets;;
    child_link T identifier parent_root;;
    str <- etree_tostring parent_root;;
    open_w parentmets;;
    file_write parentmets str
  else
    logger "DEBUG" ("Couldn't find the parent " +:+ T +:+ "s Mets file.").

(** *** createMets *)

Definition createAgent (role type other_type name note notetype : string) : element :=
  if nonempty other_type then
    E "agent" [("ROLE", role); ("TYPE", type); ("OTHERTYPE", other_type)] ""
      [E "name" [] name [];
       E "note" [(q CSIP_NS "NOTETYPE", "SOFTWARE VERSION")] note []]
  else
    E "agent" [("ROLE", role); ("TYPE", type)] ""
      [E "name" [] name [];
       E "note" [] note [];
       E "note" [(q CSIP_NS "NOTETYPE", "SOFTWARE VERSION")] note []].

(** The local variables of [createMets] that the walk uses. *)
Record locals := Locals {
  root : ref;
  mets_amdSec : ref;
  mets_fileSec : ref;
  mets_filegroups : gmap string ref;
  package_div : ref;
  mets_structmap_metadata_div : ref;
  mets_structmap_schema_div : ref;
  mets_structmap_content_div : ref;
  packageid : pyval;
  packagetype : pyval }.

(** [mets_filegroups[k]] *)
Definition filegroup (L : locals) (k : string) : result ref :=
  match mets_filegroups L !! k with
  | Some g => Ok g
  | None => Raise (KeyError k)
  end.

(** Lines 233-247: the value of the schemaLocation attribute. *)
Definition mets_schema_location_of (schemafolder : string) : M string :=
  found <- isfile (path_join schemafolder "mets.xsd");;
  ret (if found : bool then relpath env (path_join schemafolder "mets.xsd") root_path
       else default_mets_schema_location).

Definition xlink_schema_location_of (schemafolder : string) : M string :=
  found <- isfile (path_join schemafolder "xlink.xsd");;
  ret (if found : bool then relpath env (path_join schemafolder "xlink.xsd") root_path
       else default_xlink_schema_location).

Definition schemaLocation (mets_schema_location xlink_schema_location : string) : string :=
  METS_NS +:+ " " +:+ mets_schema_location +:+ " " +:+
  XLINK_NS +:+ " " +:+ xlink_schema_location +:+ " " +:+
  CSIP_NS +:+ " " +:+ default_csip_location.

Definition METS_ATTRIBUTES (objid : string) (packagetype : pyval) : list (string * string) :=
  [("OBJID", objid);
   ("LABEL", "METS file describing the " +:+ py_str packagetype +:+ " matching the OBJID.");
   ("PROFILE", PROFILE_XML); ("TYPE", "Databases");
   (q CSIP_NS "CONTENTINFORMATIONTYPE", "SIARD2")].

(** Lines 226-247: the root element and its schema locations. *)
Definition mets_root (packageid packagetype schemafolder : pyval) : M ref :=
  objid <- lift (attr_value packageid);;
  root <- create (E "mets" (METS_ATTRIBUTES objid packagetype) "" []);;
  schemafolder <- lift (as_path schemafolder);;
  mets_schema_location <- mets_schema_location_of schemafolder;;
  xlink_schema_location <- xlink_schema_location_of schemafolder;;
  set_attrib root (q XSI_NS "schemaLocation")
    (schemaLocation mets_schema_location xlink_schema_location);;
  ret root.

(** Lines 250-260: the header, its agents and the document identifier. *)
Definition mets_header (root : ref) (packagetype : pyval) : M unit :=
  oais <- lift (attr_value packagetype);;
  mets_hdr <- attach root
    (E "metsHdr"
       [("CREATEDATE", current_timestamp env); ("RECORDSTATUS", "NEW");
        (q CSIP_NS "OAISPACKAGETYPE", oais)] "" []);;
  attach mets_hdr
    (createAgent "CREATOR" "OTHER" "SOFTWARE" (application_name env)
       ("VERSION=" +:+ application_version env) "SOFTWARE VERSION");;
  attach mets_hdr
    (E "agent" [("ROLE", "ARCHIVIST"); ("TYPE", "ORGANIZATION")] ""
       [E "name" [] "E-ARK" []]);;
  attach mets_hdr
    (E "agent" [("ROLE", "CREATOR"); ("TYPE", "ORGANIZATION")] ""
       [E "name" [] "E-ARK" []]);;
  attach mets_hdr
    (E "agent" [("ROLE", "PRESERVATION"); ("TYPE", "ORGANIZATION")] ""
       [E "name" [] "E-ARK" []]);;
  attach mets_hdr (E "metsDocumentID" [] "METS.xml" []);;
  ret tt.

(** Lines 276-279: a file group for each top-level sub-directory that is
    a role token, appended to the file section. *)
Fixpoint subdir_groups (mets_fileSec : ref) (subdirs : list string)
    (mets_filegroups : gmap string ref) : M (gmap string ref) :=
  match subdirs with
  | [] => ret mets_filegroups
  | subdir :: rest =>
      if bool_decide (subdir ∈ folders_with_USE) then
        id <- fresh_id;;
        g <- attach mets_fileSec (E "fileGrp" [("ID", id); ("USE", subdir)] "" []);;
        subdir_groups mets_fileSec rest (<[subdir := g]> mets_filegroups)
      else subdir_groups mets_fileSec rest mets_filegroups
  end.

(** Lines 271-279: the table of file groups. The group of the root's own
    role token is created first and is not appended to anything. *)
Definition file_groups (mets_fileSec : ref) : M (gmap string ref) :=
  let folder_with_USE := get_folder_with_USE root_path in
  id <- fresh_id;;
  g <- create (E "fileGrp" [("ID", id); ("USE", folder_with_USE)] "" []);;
  subdirs <- first_walk_dirnames root_path;;
  subdir_groups mets_fileSec subdirs (<[folder_with_USE := g]> ∅).

(** Lines 282-286: the physical structural map; the answer is
    [package_div]. *)
Definition physical_map (root : ref) (packageid : pyval) : M ref :=
  id <- fresh_id;;
  mets_earkstructmap <- attach root
    (E "structMap" [("LABEL", "CSIP"); ("TYPE", "PHYSICAL"); ("ID", id)] "" []);;
  id <- fresh_id;;
  label <- lift (attr_value packageid);;
  attach mets_earkstructmap (E "div" [("LABEL", label); ("ID", id)] "" []).

(** Lines 289-304: the logical structural map; the answer is the
    metadata, schema and content divisions. *)
Definition logical_map (root : ref) (packagetype : pyval) : M (ref * ref * ref) :=
  id <- fresh_id;;
  mets_structmap <- attach root
    (E "structMap"
       [("LABEL", "Simple " +:+ py_str packagetype +:+ " structuring");
        ("TYPE", "logical"); ("ID", id)] "" []);;
  id <- fresh_id;;
  mets_structmap_div <- attach mets_structmap
    (E "div" [("LABEL", "Package structure"); ("ID", id)] "" []);;
  id <- fresh_id;;
  mets_structmap_metadata_div <- attach mets_structmap_div
    (E "div" [("LABEL", "metadata files"); ("ID", id)] "" []);;
  id <- fresh_id;;
  mets_structmap_schema_div <- attach mets_structmap_div
    (E "div" [("LABEL", "schema files"); ("ID", id)] "" []);;
  id <- fresh_id;;
  mets_structmap_content_div <- attach mets_structmap_div
    (E "div" [("LABEL", "content files"); ("ID", id)] "" []);;
  ret (mets_structmap_metadata_div, mets_structmap_schema_div,
       mets_structmap_content_div).

(** Lines 313-324: the map for the parent, when one is given. *)
Definition parent_map (root : ref) (packageid packagetype parent : pyval) : M unit :=
  if truthy parent then
    logger "DEBUG" ("creating link to parent " +:+ py_str packagetype);;
    mets_structmap_relation <- attach root
      (E "structMap" [("TYPE", "logical"); ("LABEL", "parent")] "" []);;
    id <- fresh_id;;
    mets_div_rel <- attach mets_structmap_relation
      (E "div" [("LABEL", py_str packagetype +:+ " parent identifier"); ("ID", id)] "" []);;
    id <- fresh_id;;
    href <- lift (attr_value parent);;
    attach mets_div_rel
      (E "mptr"
         [("LOCTYPE", "OTHER"); ("OTHERLOCTYPE", "UUID");
          (q XLINK_NS "title",
             "Referencing the parent " +:+ py_str packagetype +:+ " of this (" +:+
             py_str packageid +:+ ") " +:+ py_str packagetype +:+ ".");
          (q XLINK_NS "href", href); ("ID", id)] "" []);;
    ret tt
  else ret tt.

(** Lines 215-324: the skeleton of the document. *)
Definition mets_skeleton (mets_data' : gmap string pyval) : M locals :=
  modify (set_mets_data (Some mets_data'));;
  packageid <- lift (getitem mets_data' "packageid");;
  packagetype <- lift (getitem mets_data' "type");;
  schemafolder <- lift (getitem mets_data' "schemas");;
  parent <- lift (getitem mets_data' "parent");;
  root <- mets_root packageid packagetype schemafolder;;
  mets_header root packagetype;;
  id <- fresh_id;;
  mets_amdSec <- attach root (E "amdSec" [("ID", id)] "" []);;
  id <- fresh_id;;
  mets_fileSec <- attach root (E "fileSec" [("ID", id)] "" []);;
  mets_filegroups <- file_groups mets_fileSec;;
  package_div <- physical_map root packageid;;
  divs <- logical_map root packagetype;;
  parent_map root packageid packagetype parent;;
  ret (Locals root mets_amdSec mets_fileSec mets_filegroups
         package_div divs.1.1 divs.1.2 divs.2 packageid packagetype).

(** The statements every metadata branch ends with: the reference, and a
    pointer to it in the metadata division and in the physical division. *)
Definition reference_metadata (L : locals) (section : ref)
    (dir filename mdtype : string) (physical_div : option ref) : M unit :=
  id <- fresh_id;;
  ref <- make_mdref dir filename id mdtype;;
  attach section (E "mdRef" ref "" []);;
  append_fptr (Some (mets_structmap_metadata_div L)) id;;
  append_fptr physical_div id.

Definition new_dmdSec (L : locals) : M ref :=
  id <- fresh_id;;
  insert_new (root L) 1
    (E "dmdSec" [("ID", id); ("CREATED", current_timestamp env); ("STATUS", "CURRENT")] "" []).

Definition new_digiprovMD (L : locals) (a : list (string * string)) : M ref :=
  id <- fresh_id;;
  attach (mets_amdSec L) (E "digiprovMD" (("ID", id) :: a) "" []).

Definition is_premis (filename : string) : bool :=
  startswith filename "premis" || endswith filename "premis.xml".

(** Lines 350-429: the directory [<root>/metadata]. *)
Definition metadata_branch (L : locals) (directory : string)
    (filenames : list string) (physical_div : option ref) : M unit :=
  for_each filenames (λ filename,
    if String.eqb filename "conduit.log" then
      mets_digiprovmd <- new_digiprovMD L [];;
      reference_metadata L mets_digiprovmd directory filename "OTHER" physical_div
    else ret tt);;
  dirlist <- listdir (path_join root_path "metadata");;
  for_each dirlist (λ dirname,
    if contains dirname "_mig-" then
      found <- isfile (path_join root_path ("representations/" +:+ dirname +:+ "/METS.xml"));;
      if found : bool then ret tt
      else
        os_walk (path_join root_path ("metadata/" +:+ dirname)) (λ dir subdir files,
          for_each files (λ filename,
            if endswith dir "descriptive" then
              mets_dmd <- new_dmdSec L;;
              reference_metadata L mets_dmd dir filename "OTHER" physical_div
            else if endswith dir "preservation" then
              mets_digiprovmd <- new_digiprovMD L [];;
              let mdtype := if is_premis filename then "PREMIS" else "OTHER" in
              reference_metadata L mets_digiprovmd dir filename mdtype physical_div
            else if nonempty filename then
              logger "DEBUG" ("Unclassified metadata file " +:+ filename +:+
                              " in " +:+ dir +:+ ".")
            else ret tt);;
          ret false)
    else
      os_walk (path_join root_path ("metadata/" +:+ dirname)) (λ dir subdir files,
        (if (0 <? length files)%nat then
           for_each files (λ filename,
             if String.eqb dirname "descriptive" then
               mets_dmd <- new_dmdSec L;;
               reference_metadata L mets_dmd dir filename "OTHER" physical_div
             else if String.eqb dirname "preservation" || String.eqb dirname "conduit" then
               mets_digiprovmd <- new_digiprovMD L [("STATUS", "CURRENT")];;
               let mdtype := if is_premis filename then "PREMIS"
                             else if nonempty filename then "OTHER" else "" in
               reference_metadata L mets_digiprovmd dir filename mdtype physical_div
             else if nonempty filename then
               logger "DEBUG" ("Unclassified metadata file " +:+ filename +:+
                               " in " +:+ dir +:+ ".")
             else ret tt)
         else ret tt);;
        ret false)).

(** Lines 439-458: a file named [METS.xml] (in any case of letters). *)
Definition nested_mets (L : locals) (directory folder_with_USE : string)
    (physical_div : option ref) (filename : string) : M unit :=
  let rel_path_file := relpath env (path_join directory filename) root_path in
  rep_name <- lift (rsplit_slash_1 directory);;
  id <- fresh_id;;
  attach_to physical_div
    (E "mptr"
       [("LOCTYPE", "URL");
        (q XLINK_NS "title",
           "Mets file describing representation: " +:+ rep_name +:+ " of " +:+
           py_str (packagetype L) +:+ ": urn:uuid:" +:+ py_str (packageid L) +:+ ".");
        (q XLINK_NS "href", rel_path_file); (q XLINK_NS "type", "simple");
        ("ID", id)] "" []);;
  g <- lift (filegroup L folder_with_USE);;
  id <- addFile (path_join directory filename) g;;
  append_fptr physical_div id.

(** Lines 459-463: a file of a directory whose path ends in [schemas]. *)
Definition schema_file (L : locals) (directory folder_with_USE : string)
    (physical_div : option ref) (filename : string) : M unit :=
  g <- lift (filegroup L folder_with_USE);;
  id <- addFile (path_join directory filename) g;;
  append_fptr (Some (mets_structmap_schema_div L)) id;;
  append_fptr physical_div id.

(** Lines 465-471: any other file, inside [try ... except KeyError]. *)
Definition other_file (L : locals) (directory folder_with_USE : string)
    (physical_div : option ref) (filename : string) : M unit :=
  try_except
    (g <- lift (filegroup L folder_with_USE);;
     id <- addFile (path_join directory filename) g;;
     append_fptr (Some (mets_structmap_content_div L)) id;;
     append_fptr physical_div id)
    (λ error,
       match error with
       | KeyError _ =>
           Some (logger "ERROR" ("Error looking up '" +:+ folder_with_USE +:+
                                 "' element for file '" +:+ filename +:+ "'"))
       | _ => None
       end).

(** Lines 432-471: one file of a directory outside [<root>/metadata];
    [emptied] tells whether [subdirectories] has been emptied so far. *)
Definition content_file (L : locals) (directory folder_with_USE : string)
    (physical_div : option ref) (emptied : bool) (filename : string) : M bool :=
  if String.eqb directory root_path then ret emptied
  else if String.eqb (lower filename) "mets.xml" then
    nested_mets L directory folder_with_USE physical_div filename;; ret true
  else if nonempty filename && endswith directory "schemas" then
    schema_file L directory folder_with_USE physical_div filename;; ret emptied
  else if nonempty filename then
    other_file L directory folder_with_USE physical_div filename;; ret emptied
  else ret emptied.

(** Lines 335-339: the division of the directory in the physical map. *)
Definition new_physical_div (L : locals) (path : string) : M (option ref) :=
  if negb (String.eqb path ".") then
    id <- fresh_id;;
    physical_div <- attach (package_div L) (E "div" [("LABEL", path); ("ID", id)] "" []);;
    ret (Some physical_div)
  else ret None.

(** Lines 332-471: the body of the walk over the package. *)
Definition walk_body (L : locals) (directory : string)
    (subdirectories filenames : list string) : M bool :=
  let folder_with_USE := get_folder_with_USE directory in
  let path := relpath env directory root_path in
  if String.eqb path "representations" then ret false
  else
    physical_div <- new_physical_div L path;;
    let emptied := endswith directory "/metadata" in
    let filenames := if emptied then [] else filenames in
    if String.eqb directory (path_join root_path "metadata") then
      metadata_branch L directory filenames physical_div;;
      ret true
    else
      for_fold filenames emptied (content_file L directory folder_with_USE physical_div).

(** Lines 475-476: where the descriptor goes. *)
Definition mets_target (mets_file_path : option string) : string :=
  match mets_file_path with
  | Some p => if nonempty p then p else path_join root_path "METS.xml"
  | None => path_join root_path "METS.xml"
  end.

Definition createMets (mets_data' : gmap string pyval) (mets_file_path : option string)
  : M unit :=
  L <- mets_skeleton mets_data';;
  os_walk root_path (walk_body L);;
  str <- etree_tostring (root L);;
  let mets_file_path := mets_target mets_file_path in
  open_w mets_file_path;;
  text <- lift (decode str);;
  file_write mets_file_path text.

End MetsGenerator.

(** ** Descriptor Reader: [ParsedMets] *)

Record ParsedMets := {
  root_dir : string;
  mets_tree : option element }.

Definition ns_mets := "http://www.loc.gov/METS/".
Definition ns_xlink := "http://www.w3.org/1999/xlink".
Definition ns_xsi := "http://www.w3.org/2001/XMLSchema-instance".

Definition ParsedMets_init (rdir : string) : ParsedMets :=
  {| root_dir := rdir; mets_tree := None |}.

Definition set_parsed_mets (pm : ParsedMets) (pmets : element) : ParsedMets :=
  {| root_dir := root_dir pm; mets_tree := Some pmets |}.

(** [load_mets]: the file is read from the package mounted at [mounted]. *)
Definition load_mets (mounted : string) (pm : ParsedMets) (mets_file_path : string)
  : M ParsedMets :=
  f <- read_file mounted mets_file_path;;
  match f.2 with
  | Xml doc => ret (set_parsed_mets pm doc)
  | Raw _ => raise XMLSyntaxError
  end.

(** XPath steps on a document. *)
Definition etag_of (e : element) : string := match e with Element t _ _ _ => t end.
Definition eattrib_of (e : element) : list (string * string) :=
  match e with Element _ a _ _ => a end.
Definition echildren_of (e : element) : list element :=
  match e with Element _ _ _ c => c end.

(** [@name]: the values of the attributes called [name]. *)
Definition xpath_attribute (name : string) (e : element) : list string :=
  (List.filter (λ kv, String.eqb kv.1 name) (eattrib_of e)).*2.

(** [t]: the children with tag [t]. *)
Definition xpath_child (t : string) (e : element) : list element :=
  List.filter (λ c, String.eqb (etag_of c) t) (echildren_of e).

(** [/t]: the document element, if its tag is [t]. *)
Definition xpath_root (t : string) (e : element) : list element :=
  if String.eqb (etag_of e) t then [e] else [].

Definition join_all (l : list string) : string := join_with "" l.

(** [self.mets_tree.getroot()] *)
Definition getroot (pm : ParsedMets) : result element :=
  match mets_tree pm with
  | Some t => Ok t
  | None => Raise (AttributeError "'NoneType' object has no attribute 'getroot'")
  end.

Definition get_root (pm : ParsedMets) : result element :=
  match mets_tree pm with
  | None => Raise (ValueError "Attribute 'mets_tree' of type ElementTree must be initialized")
  | Some t => Ok t
  end.

Definition get_file_elements (pm : ParsedMets) : result (list element) :=
  match getroot pm with
  | Ok r =>
      Ok (flat_map (xpath_child (q ns_mets "file"))
            (flat_map (xpath_child (q ns_mets "fileGrp"))
               (flat_map (xpath_child (q ns_mets "fileSec"))
                  (xpath_root (q ns_mets "mets") r))))
  | Raise e => Raise e
  end.

Definition get_first_file_element (pm : ParsedMets) : result (option element) :=
  match get_file_elements pm with
  | Ok file_elements => Ok (if (0 <? length file_elements)%nat then head file_elements else None)
  | Raise e => Raise e
  end.

Definition get_file_element_checksum (file_element : element) : string :=
  join_all (xpath_attribute "CHECKSUM" file_element).

Definition get_file_element_checksum_algorithm (file_element : element) : string :=
  join_all (xpath_attribute "CHECKSUMTYPE" file_element).

Definition get_file_element_reference (file_element : element) : string :=
  join_all (flat_map (xpath_attribute (q ns_xlink "href"))
              (xpath_child (q ns_mets "FLocat") file_element)).

Definition get_obj_id (pm : ParsedMets) : result string :=
  match getroot pm with
  | Ok r =>
      let xpath_result := xpath_attribute "OBJID" r in
      if (length xpath_result =? 1)%nat then
        match xpath_result !! 0%nat with
        | Some v => Ok v
        | None => Raise IndexError
        end
      else Ok "urn:uuid:none"
  | Raise e => Raise e
  end.

Definition get_package_type (pm : ParsedMets) : result string :=
  match getroot pm with
  | Ok r =>
      let xpath_result := xpath_attribute "TYPE" r in
      if (length xpath_result =? 1)%nat then
        match xpath_result !! 0%nat with
        | Some v => Ok v
        | None => Raise IndexError
        end
      else Ok "NONE"
  | Raise e => Raise e
  end.

(** [l.index(x)] *)
Fixpoint index_of (x : string) (l : list string) : option nat :=
  match l with
  | [] => None
  | y :: rest => if String.eqb y x then Some 0 else S <$> index_of x rest
  end.

(** The loop of [get_mets_schema_from_schema_location] over the tokens
    still to visit; [locations] is the whole list. *)
Fixpoint schema_file_loop (rdir : string) (locations tokens : list string)
    (schema_file : string) : result string :=
  match tokens with
  | [] => Ok schema_file
  | token :: rest =>
      if String.eqb token "http://www.loc.gov/METS/" then
        match index_of token locations with
        | Some position =>
            match locations !! (position + 1) with
            | Some schema_location =>
                if startswith schema_location ""
                then schema_file_loop rdir locations rest (rdir +:+ schema_location)
                else schema_file_loop rdir locations rest schema_file
            | None => Raise IndexError
            end
        | None => Raise (ValueError "token is not in list")
        end
      else schema_file_loop rdir locations rest schema_file
  end.

Definition get_mets_schema_from_schema_location (pm : ParsedMets) : result string :=
  match get_root pm with
  | Ok r =>
      let locations :=
        flat_map (xpath_attribute (q ns_xsi "schemaLocation"))
          (xpath_root (q ns_mets "mets") r) in
      let locations := join_all locations in
      let locations := split " " locations in
      schema_file_loop (root_dir pm) locations locations ""
  | Raise e => Raise e
  end.

(** ** A concrete environment and sample packages *)

(** [os.path.relpath] on absolute paths without [.] and [..] segments. *)
Fixpoint strip_common (start path : list string) : list string * list string :=
  match start, path with
  | a :: start', b :: path' =>
      if String.eqb a b then strip_common start' path' else (start, path)
  | _, _ => (start, path)
  end.

Definition posix_relpath (path start : string) : string :=
  let (up, down) := strip_common (List.filter nonempty (split "/" start))
                                 (List.filter nonempty (split "/" path)) in
  match (List.map (λ _, "..") up ++ down)%list with
  | [] => "."
  | rel_list => join_with "/" rel_list
  end.

Definition posix_env : environment :=
  {| uuid4 := λ n, pretty n;
     guess_type := λ url, if endswith url ".xml" then Some "application/xml" else None;
     relpath := posix_relpath;
     isfile_outside := λ _, false;
     get_sha256_hash := λ c, match c with Xml _ => "c0ffee" | Raw d => d end;
     getsize := λ c, match c with Xml _ => 1%Z | Raw d => Z.of_nat (String.length d) end;
     current_timestamp := "2020-01-01T00:00:00";
     application_name := "eatb";
     application_version := "0";
     encodable := λ _, true |}.

(** The same with a codec that cannot encode the document. *)
Definition narrow_env : environment :=
  {| uuid4 := uuid4 posix_env;
     guess_type := guess_type posix_env;
     relpath := relpath posix_env;
     isfile_outside := isfile_outside posix_env;
     get_sha256_hash := get_sha256_hash posix_env;
     getsize := getsize posix_env;
     current_timestamp := current_timestamp posix_env;
     application_name := application_name posix_env;
     application_version := application_version posix_env;
     encodable := λ _, false |}.

Definition initial (d : list (string * entry)) : state :=
  State [] 0 [] d [] None.

Definition sample_mets_data : gmap string pyval :=
  <["packageid" := PyStr "urn:uuid:pkg"]>
  (<["type" := PyStr "SIP"]>
  (<["schemas" := PyStr "/pkg/schemas"]>
  (<["parent" := PyNone]> ∅))).

Definition regular (data : string) : entry := File "2019-12-31T00:00:00" (Raw data).

(** A generator on which [createMets] has run, with [d] on disk. *)
Definition generated (d : list (string * entry)) : state :=
  set_mets_data (Some sample_mets_data) (initial d).

(** A package root holding only a sibling descriptor. *)
Definition sibling_doc : element :=
  Element (q METS_NS "mets") [("OBJID", "urn:uuid:parent")] "" [].

Definition pkg_with_sibling : list (string * entry) :=
  [("METS.xml", File "2019-12-31T00:00:00" (Xml sibling_doc))].

(** A representation with its own descriptor, listed after a content file. *)
Definition pkg_nested : list (string * entry) :=
  [("representations",
    Dir [("rep1", Dir [("a.txt", regular "a");
                       ("METS.xml", File "2019-12-31T00:00:00" (Xml sibling_doc))])])].

(** The same representation with the descriptor listed first. *)
Definition pkg_nested_first : list (string * entry) :=
  [("representations",
    Dir [("rep1", Dir [("METS.xml", File "2019-12-31T00:00:00" (Xml sibling_doc));
                       ("a.txt", regular "a")])])].

(** Role directories below the top level: no file group is made for them. *)
Definition pkg_deep_schemas : list (string * entry) :=
  [("foo", Dir [("schemas", Dir [("a.xsd", regular "x")])])].

Definition pkg_deep_mets : list (string * entry) :=
  [("foo", Dir [("data", Dir [("METS.xml", File "2019-12-31T00:00:00" (Xml sibling_doc))])])].

Definition pkg_deep_data : list (string * entry) :=
  [("foo", Dir [("data", Dir [("b.txt", regular "b")])]);
   ("bar", Dir [("c.txt", regular "c")])].

(** A package with its schema folder, as [sample_mets_data] names it. *)
Definition pkg_schemas : list (string * entry) :=
  [("schemas", Dir [("mets.xsd", regular "x")])].

(** The descriptor found at [<root>/METS.xml]. *)
Definition descriptor (s : state) : option element :=
  match lookup_name "METS.xml" (disk s) with
  | Some (File _ (Xml doc)) => Some doc
  | _ => None
  end.

(** The children of the element labelled [label] among [es]. *)
Definition labelled (label : string) (es : list element) : option element :=
  List.find (λ e, bool_decide (get_key "LABEL" (eattrib_of e) = Some label)) es.

(** The tags of the children of the physical division labelled [path]. *)
Definition physical_children_tags (doc : element) (path : string) : option (list string) :=
  match labelled "CSIP" (echildren_of doc) with
  | Some csip =>
      match echildren_of csip with
      | package_div :: _ =>
          match labelled path (echildren_of package_div) with
          | Some d => Some (etag_of <$> echildren_of d)
          | None => None
          end
      | [] => None
      end
  | None => None
  end.

(** ** Which generator state the linker reads

    A computation is [blind] when it neither reads nor writes
    [mets_data]: it does the same on states that differ only there. *)

Definition blind {A} (m : M A) : Prop :=
  forall d s, m (set_mets_data d s) = (set_mets_data d (m s).1, (m s).2).

(** The mptr elements below an element, and the structMap children with a
    given label. *)
Fixpoint pointers_to (href : string) (e : element) : list element :=
  match e with
  | Element t a x kids =>
      (if String.eqb t (q METS_NS "mptr") &&
          bool_decide (get_key (q XLINK_NS "href") a = Some href)
       then [e] else []) ++ flat_map (pointers_to href) kids
  end.

Definition struct_maps_labelled (label : string) (doc : element) : list element :=
  List.filter (λ e, String.eqb (etag_of e) (q METS_NS "structMap") &&
                    bool_decide (get_key "LABEL" (eattrib_of e) = Some label))
    (echildren_of doc).

(** The first field of a string of fields separated by single spaces. *)
Definition first_field (s : string) : string :=
  match split " " s with
  | f :: _ => f
  | [] => ""
  end.

(** ** Shape of the element store

    The store of a document under construction is a forest: every child
    reference is in range and no element has two parents. [hext h h'] says
    that [h'] continues [h]: the elements of [h] are still there with their
    tag, attributes and text, they only gained children, and what was a
    forest, or an element without a parent, still is. *)

Definition wf (h : list node) : Prop :=
  forall p n c, h !! p = Some n -> c ∈ children n -> c < length h.

Definition unique_parent (h : list node) : Prop :=
  forall p1 p2 n1 n2 c,
    h !! p1 = Some n1 -> h !! p2 = Some n2 ->
    c ∈ children n1 -> c ∈ children n2 -> p1 = p2.

Definition forest (h : list node) : Prop := wf h /\ unique_parent h.

Definition parentless (h : list node) (x : ref) : Prop :=
  forall p n, h !! p = Some n -> x ∉ children n.

Record hext (h h' : list node) : Prop := {
  hext_length : length h <= length h';
  hext_node : forall r n, h !! r = Some n ->
    exists n', h' !! r = Some n' /\ tag n' = tag n /\ attrib n' = attrib n /\
               text n' = text n /\ children n ⊆ children n';
  hext_forest : forest h -> forest h';
  hext_parentless : forall x, x < length h -> parentless h x -> parentless h' x }.

(** The elements [load] adds to the store, as a function on stores. *)
Fixpoint layout_children (layout : element -> list node -> list node) (r : ref)
    (l : list element) (h : list node) : list node :=
  match l with
  | [] => h
  | k :: l' => layout_children layout r l' (alter (add_child (length h)) r (layout k h))
  end.

Fixpoint layout (e : element) (h : list node) : list node :=
  match e with
  | Element t a x kids => layout_children layout (length h) kids (h ++ [Node t a x []])
  end.

(** [h'] is [h] followed by newly laid out trees: the edges of the new part
    lead from an element to a later one, and to no element twice. *)
Record grown (h h' : list node) : Prop := {
  grown_prefix : exists new, h' = h ++ new;
  grown_length : length h < length h';
  grown_edge : forall p n c, h' !! p = Some n -> length h <= p -> c ∈ children n ->
    p < c /\ c < length h';
  grown_unique : forall p1 p2 n1 n2 c,
    h' !! p1 = Some n1 -> h' !! p2 = Some n2 -> length h <= p1 -> length h <= p2 ->
    c ∈ children n1 -> c ∈ children n2 -> p1 = p2 }.

(** [always R m]: whatever the outcome, the state [m] ends in is related
    by [R] to the state it starts from. *)
Definition always (R : state -> state -> Prop) {A} (m : M A) : Prop :=
  forall s, R s (m s).1.

(** The store only grows; the files on disk stay as they are. *)
Definition extends (s s' : state) : Prop :=
  hext (heap s) (heap s') /\ disk s' = disk s.

(** The location of the METS schema that [createMets] records, as lines
    233-236 compute it from the schema folder and the files on disk [d]. *)
Definition recorded_mets_location (env : environment) (root_path : string)
    (d : list (string * entry)) (schemafolder : string) : string :=
  if isfile_on env root_path d (path_join schemafolder "mets.xsd")
  then relpath env (path_join schemafolder "mets.xsd") root_path
  else default_mets_schema_location.

Definition recorded_xlink_location (env : environment) (root_path : string)
    (d : list (string * entry)) (schemafolder : string) : string :=
  if isfile_on env root_path d (path_join schemafolder "xlink.xsd")
  then relpath env (path_join schemafolder "xlink.xsd") root_path
  else default_xlink_schema_location.

(** ** The dominant file group *)

Definition file_tag : string := q METS_NS "file".

(** [c] is a child of [p]; [reach h a b]: [b] is [a] or below it. What is
    serialised of an element is what can be reached from it. *)
Definition edge (h : list node) (p c : ref) : Prop :=
  exists n, h !! p = Some n /\ c ∈ children n.

Definition reach (h : list node) : ref -> ref -> Prop := rtc (edge h).

(** The file element [f] is pointed to from the physical map: a division
    below [package_div] holds an fptr whose FILEID is the ID of [f]. *)
Definition covered (package_div : ref) (h : list node) (f : ref) : Prop :=
  exists d p np nf id,
    edge h package_div d /\ edge h d p /\
    h !! p = Some np /\ tag np = q METS_NS "fptr" /\
    get_key "FILEID" (attrib np) = Some id /\
    h !! f = Some nf /\ get_key "ID" (attrib nf) = Some id.

(** A step that adds no file element below anything: every edge of the
    new store is an edge of the old one or leads to an element with another
    tag. *)
Definition quiet (s s' : state) : Prop :=
  extends s s' /\
  forall p c, edge (heap s') p c ->
    edge (heap s) p c \/ exists nc, heap s' !! c = Some nc /\ tag nc <> file_tag.

(** The file elements of group [g], [x] excepted, are pointed to from the
    physical map. *)
Definition cov (package_div g : ref) (x : option ref) (h : list node) : Prop :=
  forall f nf, edge h g f -> h !! f = Some nf -> tag nf = file_tag -> Some f <> x ->
    covered package_div h f.

(** [d] is a division of the physical map. *)
Definition division (package_div : ref) (h : list node) (d : option ref) : Prop :=
  match d with
  | Some d => edge h package_div d /\ d < length h
  | None => True
  end.

(** What the walk keeps true of the store: it is a forest, [package_div]
    is in it, and the file elements of the group [g] are pointed to from
    the physical map. *)
Definition walk_inv (package_div g : ref) (s : state) : Prop :=
  forest (heap s) /\ package_div < length (heap s) /\ cov package_div g None (heap s).

(** [m] raises only exceptions in [P]. *)
Definition raises_only (P : exn -> Prop) {A} (m : M A) : Prop :=
  forall s s' e, m s = (s', Raise e) -> P e.

(** [m], when it returns, has kept [I]. *)
Definition okinv (I : state -> Prop) {A} (m : M A) : Prop :=
  forall s s' a, I s -> m s = (s', Ok a) -> I s'.

Definition not_KeyError (e : exn) : Prop :=
  match e with KeyError _ => False | _ => True end.

(** ** What generation leaves alone *)

(** The files, on the package and off it, are the same. *)
Definition same_files (s s' : state) : Prop :=
  disk s' = disk s /\ elsewhere s' = elsewhere s.

(** [mets_data] holds [md] from now on. *)
Definition holds_mets_data (md : gmap string pyval) (s s' : state) : Prop :=
  mets_data s = Some md -> mets_data s' = Some md.

(** ** metsutil.py *)

(** [s.lstrip('/')] *)
Fixpoint lstrip_slash (s : string) : string :=
  match s with
  | EmptyString => EmptyString
  | String c s' => if Ascii.eqb c "/" then lstrip_slash s' else s
  end.

(** A string cut before its first slash. *)
Fixpoint break_slash (s : string) : string * string :=
  match s with
  | EmptyString => (EmptyString, EmptyString)
  | String c s' =>
      if Ascii.eqb c "/" then (EmptyString, s)
      else (String c (break_slash s').1, (break_slash s').2)
  end.

(** [os.path.split(p)] (posixpath): the path is cut after its last slash;
    the slashes at the end of the head are removed unless the head consists
    of slashes only. *)
Definition os_path_split (p : string) : string * string :=
  let cut := break_slash (string_rev p) in
  let head := lstrip_slash cut.2 in
  (string_rev (if nonempty head then head else cut.2), string_rev cut.1).

(** [get_mets_obj_id(mets_file_path)], on the package mounted at
    [mounted]. *)
Definition get_mets_obj_id (mounted : string) (mets_file_path : string) : M string :=
  let package_path := (os_path_split mets_file_path).1 in
  let pm := ParsedMets_init package_path in
  pm <- load_mets mounted pm mets_file_path;;
  lift (get_obj_id pm).

(** The tokens of the schemaLocation attribute as
    [get_mets_schema_from_schema_location] splits them. *)
Definition schema_location_tokens (r : element) : list string :=
  split " " (join_all (flat_map (xpath_attribute (q ns_xsi "schemaLocation"))
                         (xpath_root (q ns_mets "mets") r))).

(** No child of [g] is a file element. *)
Definition nofiles (h : list node) (g : ref) : Prop :=
  forall f nf, edge h g f -> h !! f = Some nf -> tag nf <> file_tag.

(** ** The linker at an existing sibling descriptor *)




(** ** addFiles *)

(** [os.walk(top)] driving a loop that updates a local variable and
    leaves the list of sub-directories alone. *)
Fixpoint walk_children_acc {S} (walk : S -> string -> entry -> M S) (top : string)
    (l : list (string * entry)) (acc : S) : M S :=
  match l with
  | [] => ret acc
  | (name, sub) :: l' =>
      acc' <- walk acc (path_join top name) sub;;
      walk_children_acc walk top l' acc'
  end.

Fixpoint walk_entry_acc {S} (body : S -> string -> list string -> list string -> M S)
    (acc : S) (top : string) (e : entry) : M S :=
  match e with
  | File _ _ => ret acc
  | Dir es =>
      acc' <- body acc top (dirnames es) (filenames_of es);;
      walk_children_acc (walk_entry_acc body) top es acc'
  end.

Section AddFiles.

Context (env : environment) (root_path : string).

(** Lines 124-131, for a folder of the package: the identifiers are
    collected in the order in which the files are met, and a folder that
    is no directory yields none. The file system off the package is not
    part of the state, so a folder off the package is outside this model
    (it is taken as holding nothing). *)
Definition addFiles (folder : string) (mets_filegroup : ref) : M (list string) :=
  e <- locate root_path folder;;
  match e with
  | Some e =>
      walk_entry_acc (λ ids top dirs files,
        for_fold files ids (λ ids fn,
          let file_name := path_join top fn in
          file_id <- addFile env root_path file_name mets_filegroup;;
          ret (ids ++ [file_id]))) [] folder e
  | None => ret []
  end.

End AddFiles.

(** The number of regular files in and below a directory. *)
Fixpoint count_files (e : entry) : nat :=
  match e with
  | File _ _ => 0
  | Dir es =>
      length (filenames_of es) +
      (fix below (l : list (string * entry)) : nat :=
         match l with
         | [] => 0
         | (_, sub) :: l' => count_files sub + below l'
         end) es
  end.

Definition count_files_at (root_path : string) (d : list (string * entry))
    (folder : string) : nat :=
  match locate_on root_path d folder with
  | Some e => count_files e
  | None => 0
  end.

(** The identifiers drawn from the [n]-th on. *)
Definition fresh_ids (env : environment) (n count : nat) : list string :=
  (λ i, "ID" +:+ uuid4 env i) <$> seq n count.


(** The store of [s'] continues the store of [s]. *)
Definition grows (s s' : state) : Prop := hext (heap s) (heap s').

(** * Properties *)

Lemma first_with_USE_Some dirs dir :
  first_with_USE dirs = Some dir ->
  exists pre post, dirs = pre ++ dir :: post /\ dir ∈ folders_with_USE /\
                   Forall (λ d, d ∉ folders_with_USE) pre.
Proof.
  induction dirs as [|d rest IH]; simpl; [discriminate|].
  case_bool_decide as Hd.
  - intros [= <-]. exists [], rest. repeat split; auto.
  - intros H. destruct (IH H) as (pre & post & -> & Hin & Hpre).
    exists (d :: pre), post. repeat split; auto.
Qed.

Lemma first_with_USE_None dirs :
  first_with_USE dirs = None -> Forall (λ d, d ∉ folders_with_USE) dirs.
Proof.
  induction dirs as [|d rest IH]; simpl; [constructor|].
  case_bool_decide as Hd; [discriminate|]. intros H. constructor; auto.
Qed.

Lemma first_with_USE_app l1 l2 :
  first_with_USE (l1 ++ l2)
  = match first_with_USE l1 with Some d => Some d | None => first_with_USE l2 end.
Proof.
  induction l1 as [|d l1 IH]; simpl; [done|]. by case_bool_decide.
Qed.

Lemma first_with_USE_no_token dirs :
  Forall (λ d, d ∉ folders_with_USE) dirs -> first_with_USE dirs = None.
Proof.
  induction 1 as [|d dirs Hd _ IH]; simpl; [done|]. by case_bool_decide.
Qed.

(** C8: on every path string the classifier returns the last segment (the
    first one met scanning from the deepest) that is one of the four role
    tokens documentation, schemas, representations and data, and [other]
    when no segment is one; that answer is the only one the description
    admits; it is a total function of its argument; and on a Python value
    that is not a string, where splitting faults, it returns [other]
    without raising. *)
Theorem get_folder_with_USE_classifies (path : string) :
  classifies path (get_folder_with_USE path) /\
  (forall dir, classifies path dir -> dir = get_folder_with_USE path) /\
  get_folder_with_USE_dyn (PyStr path) = (get_folder_with_USE path, []) /\
  (forall v : pyval, (forall s, v <> PyStr s) -> (get_folder_with_USE_dyn v).1 = "other").
Proof.
  split_and!.
  - unfold get_folder_with_USE.
    destruct (first_with_USE (rev (split "/" path))) as [dir|] eqn:E.
    + apply first_with_USE_Some in E as (pre & post & Hrev & Hin & Hpre).
      apply (classifies_role path (rev post) dir (rev pre)); auto.
      * rewrite <- (rev_involutive (split "/" path)), Hrev.
        rewrite rev_app_distr. simpl. by rewrite <- app_assoc.
      * apply Forall_forall. intros d Hd. rewrite Forall_forall in Hpre.
        apply Hpre. apply list_elem_of_In. apply in_rev.
        by apply list_elem_of_In.
    + apply first_with_USE_None in E. apply classifies_other.
      rewrite Forall_forall in *. intros d Hd. apply E.
      apply list_elem_of_In. apply -> in_rev. by apply list_elem_of_In.
  - intros dir H. unfold get_folder_with_USE.
    destruct H as [pre dir post Hs Hin Hpost|Hall].
    + rewrite Hs, rev_app_distr. cbn [rev]. rewrite <- app_assoc, first_with_USE_app.
      rewrite first_with_USE_no_token.
      * cbn [app first_with_USE]. by rewrite bool_decide_eq_true_2.
      * rewrite Forall_forall in *. intros d Hd. apply Hpost.
        apply list_elem_of_In. apply in_rev. by apply list_elem_of_In.
    + rewrite first_with_USE_no_token; [done|].
      rewrite Forall_forall in *. intros d Hd. apply Hall.
      apply list_elem_of_In. apply in_rev. by apply list_elem_of_In.
  - unfold get_folder_with_USE_dyn, get_folder_with_USE. simpl.
    by destruct (first_with_USE _).
  - intros v Hv. destruct v as [|s|n]; [done| |done]. by destruct (Hv s).
Qed.

(** ** Descriptor Reader *)

Lemma xpath_attribute_absent name t a x kids :
  name ∉ a.*1 -> xpath_attribute name (Element t a x kids) = [].
Proof.
  unfold xpath_attribute. cbn [eattrib_of].
  induction a as [|[k v] a IH]; intros H; [done|]. cbn [List.filter fst].
  rewrite fmap_cons, not_elem_of_cons in H. destruct H as [Hk H].
  destruct (String.eqb k name) eqn:E; [|by apply IH].
  apply String.eqb_eq in E. by destruct Hk.
Qed.

Lemma xpath_attribute_app name t a b x kids :
  xpath_attribute name (Element t (a ++ b) x kids)
  = xpath_attribute name (Element t a x kids) ++ xpath_attribute name (Element t b x kids).
Proof.
  unfold xpath_attribute. cbn [eattrib_of]. by rewrite List.filter_app, fmap_app.
Qed.

Lemma xpath_attribute_here name v t a x kids :
  xpath_attribute name (Element t ((name, v) :: a) x kids)
  = v :: xpath_attribute name (Element t a x kids).
Proof.
  unfold xpath_attribute. cbn [eattrib_of List.filter fst]. by rewrite String.eqb_refl.
Qed.

(** The attribute [name] of the root: its value where the root carries it
    exactly once, the sentinel where it does not carry it or carries it
    more than once. *)
Lemma root_attribute_cases name sentinel t a x kids :
  let answer := match xpath_attribute name (Element t a x kids) with
                | [v] => v
                | _ => sentinel
                end in
  (forall pre v post,
     a = pre ++ (name, v) :: post -> name ∉ pre.*1 -> name ∉ post.*1 -> answer = v) /\
  (name ∉ a.*1 -> answer = sentinel) /\
  (forall pre v1 mid v2 post,
     a = pre ++ (name, v1) :: mid ++ (name, v2) :: post -> answer = sentinel).
Proof.
  intros answer. unfold answer. split_and!.
  - intros pre v post -> Hpre Hpost.
    rewrite xpath_attribute_app, xpath_attribute_here.
    by rewrite !xpath_attribute_absent.
  - intros H. by rewrite xpath_attribute_absent.
  - intros pre v1 mid v2 post ->.
    rewrite xpath_attribute_app, xpath_attribute_here, xpath_attribute_app,
      xpath_attribute_here.
    destruct (xpath_attribute name (Element t pre x kids)) as [|w [|w' l]]; [|done..].
    simpl. by destruct (xpath_attribute name (Element t mid x kids)).
Qed.

(** C5: on a loaded descriptor whose root carries the attribute OBJID
    exactly once, [get_obj_id] answers its value; where the root does not
    carry it, or carries it more than once, it answers the sentinel
    [urn:uuid:none]; it never raises. [get_package_type] does the same for
    TYPE with the sentinel [NONE]. *)
Theorem get_obj_id_sentinel (pm : ParsedMets) t a x kids :
  mets_tree pm = Some (Element t a x kids) ->
  ((forall pre v post,
      a = pre ++ ("OBJID", v) :: post -> "OBJID" ∉ pre.*1 -> "OBJID" ∉ post.*1 ->
      get_obj_id pm = Ok v) /\
   ("OBJID" ∉ a.*1 -> get_obj_id pm = Ok "urn:uuid:none") /\
   (forall pre v1 mid v2 post,
      a = pre ++ ("OBJID", v1) :: mid ++ ("OBJID", v2) :: post ->
      get_obj_id pm = Ok "urn:uuid:none") /\
   (exists v, get_obj_id pm = Ok v)) /\
  ((forall pre v post,
      a = pre ++ ("TYPE", v) :: post -> "TYPE" ∉ pre.*1 -> "TYPE" ∉ post.*1 ->
      get_package_type pm = Ok v) /\
   ("TYPE" ∉ a.*1 -> get_package_type pm = Ok "NONE") /\
   (forall pre v1 mid v2 post,
      a = pre ++ ("TYPE", v1) :: mid ++ ("TYPE", v2) :: post ->
      get_package_type pm = Ok "NONE") /\
   (exists v, get_package_type pm = Ok v)).
Proof.
  intros Hpm.
  assert (get_obj_id pm = Ok (match xpath_attribute "OBJID" (Element t a x kids) with
                              | [v] => v | _ => "urn:uuid:none" end)) as ->.
  { unfold get_obj_id, getroot. rewrite Hpm.
    by destruct (xpath_attribute "OBJID" _) as [|v [|w l]]. }
  assert (get_package_type pm = Ok (match xpath_attribute "TYPE" (Element t a x kids) with
                                    | [v] => v | _ => "NONE" end)) as ->.
  { unfold get_package_type, getroot. rewrite Hpm.
    by destruct (xpath_attribute "TYPE" _) as [|v [|w l]]. }
  destruct (root_attribute_cases "OBJID" "urn:uuid:none" t a x kids) as (O1 & O2 & O3).
  destruct (root_attribute_cases "TYPE" "NONE" t a x kids) as (T1 & T2 & T3).
  split; split_and!; try by eauto.
  - intros pre v post Ha H1 H2. f_equal. by eapply O1.
  - intros H. f_equal. by apply O2.
  - intros pre v1 mid v2 post Ha. f_equal. by eapply O3.
  - intros pre v post Ha H1 H2. f_equal. by eapply T1.
  - intros H. f_equal. by apply T2.
  - intros pre v1 mid v2 post Ha. f_equal. by eapply T3.
Qed.

Lemma get_obj_id_sentinel_witness :
  let pm := set_parsed_mets (ParsedMets_init "/pkg") sibling_doc in
  let a := [("OBJID", "urn:uuid:parent")] in
  ((forall pre v post,
      a = pre ++ ("OBJID", v) :: post -> "OBJID" ∉ pre.*1 -> "OBJID" ∉ post.*1 ->
      get_obj_id pm = Ok v) /\
   ("OBJID" ∉ a.*1 -> get_obj_id pm = Ok "urn:uuid:none") /\
   (forall pre v1 mid v2 post,
      a = pre ++ ("OBJID", v1) :: mid ++ ("OBJID", v2) :: post ->
      get_obj_id pm = Ok "urn:uuid:none") /\
   (exists v, get_obj_id pm = Ok v)) /\
  ((forall pre v post,
      a = pre ++ ("TYPE", v) :: post -> "TYPE" ∉ pre.*1 -> "TYPE" ∉ post.*1 ->
      get_package_type pm = Ok v) /\
   ("TYPE" ∉ a.*1 -> get_package_type pm = Ok "NONE") /\
   (forall pre v1 mid v2 post,
      a = pre ++ ("TYPE", v1) :: mid ++ ("TYPE", v2) :: post ->
      get_package_type pm = Ok "NONE") /\
   (exists v, get_package_type pm = Ok v)).
Proof.
  intros pm a.
  apply (get_obj_id_sentinel pm (q METS_NS "mets") a "" []).
  reflexivity.
Defined.

Example get_obj_id_absent :
  get_obj_id (set_parsed_mets (ParsedMets_init "/pkg") (Element (q ns_mets "mets") [] "" []))
    = Ok "urn:uuid:none" /\
  get_package_type (set_parsed_mets (ParsedMets_init "/pkg") (Element (q ns_mets "mets") [] "" []))
    = Ok "NONE" /\
  get_obj_id (set_parsed_mets (ParsedMets_init "/pkg") sibling_doc) = Ok "urn:uuid:parent".
Proof. repeat split. Qed.

(** ** Relationship Linker *)

Lemma bind_Ok {A B} (m : M A) (k : A -> M B) s s' b :
  bind m k s = (s', Ok b) ->
  exists a s1, m s = (s1, Ok a) /\ k a s1 = (s', Ok b).
Proof.
  unfold bind. destruct (m s) as [s1 [a|e]]; [eauto|discriminate].
Qed.

Lemma bind_eq {A B} (m : M A) (k : A -> M B) s s1 a :
  m s = (s1, Ok a) -> bind m k s = k a s1.
Proof. unfold bind. by intros ->. Qed.


(** The linker reads the package type from [mets_data] first of all: on
    an instance whose [createMets] has not run it raises there. *)
Lemma linker_needs_mets_data env root_path identifier s :
  mets_data s = None ->
  setParentRelation env root_path identifier s
    = (s, Raise (TypeError "'NoneType' object is not subscriptable")) /\
  addChildRelation env root_path identifier s
    = (s, Raise (TypeError "'NoneType' object is not subscriptable")).
Proof.
  intros H. unfold setParentRelation, addChildRelation, bind, gets, lift.
  rewrite H. by simpl.
Qed.

(** Induction on documents, the children included. *)
Lemma element_ind' (P : element -> Prop) :
  (forall t a x kids, Forall P kids -> P (Element t a x kids)) ->
  forall e, P e.
Proof.
  intros H. fix IH 1. intros [t a x kids]. apply H.
  induction kids as [|k kids IHk]; constructor; [apply IH | apply IHk].
Qed.

Lemma blind_ret {A} (a : A) : blind (ret a).
Proof. by intros d s. Qed.

Lemma blind_raise {A} e : blind (@raise A e).
Proof. by intros d s. Qed.

Lemma blind_lift {A} (r : result A) : blind (lift r).
Proof. by intros d s. Qed.

Lemma blind_bind {A B} (m : M A) (k : A -> M B) :
  blind m -> (forall a, blind (k a)) -> blind (bind m k).
Proof.
  intros Hm Hk d s. unfold bind. rewrite Hm.
  destruct (m s) as [s1 [a|e]]; simpl; [apply Hk | done].
Qed.

Lemma blind_gets {A} (f : state -> A) :
  (forall d s, f (set_mets_data d s) = f s) -> blind (gets f).
Proof. intros H d s. unfold gets. by rewrite H. Qed.

Lemma blind_modify (f : state -> state) :
  (forall d s, f (set_mets_data d s) = set_mets_data d (f s)) -> blind (modify f).
Proof. intros H d s. unfold modify. by rewrite H. Qed.

Lemma blind_alloc n : blind (alloc n).
Proof. by intros d s. Qed.

Lemma blind_append p c : blind (append p c).
Proof. by apply blind_modify. Qed.

Lemma blind_insert_at p i c : blind (insert_at p i c).
Proof. by apply blind_modify. Qed.

Lemma blind_load e : blind (load e).
Proof.
  induction e as [t a x kids IH] using element_ind'. simpl.
  apply blind_bind; [apply blind_alloc|]. intros r.
  induction IH as [|k kids Hk _ IHkids]; simpl; [apply blind_ret|].
  apply blind_bind; [done|]. intros c.
  apply blind_bind; [apply blind_append|]. by intros _.
Qed.

Lemma blind_fresh_id env : blind (fresh_id env).
Proof. by intros d s. Qed.

Lemma blind_logger level msg : blind (logger level msg).
Proof. by apply blind_modify. Qed.

Ltac blind_step :=
  first
    [ apply blind_ret | apply blind_raise | apply blind_lift
    | apply blind_load | apply blind_alloc | apply blind_append
    | apply blind_insert_at | apply blind_fresh_id | apply blind_logger
    | apply blind_gets; done
    | apply blind_modify; done
    | apply blind_bind; [|intros ?]
    | match goal with
      | |- blind (match ?x with _ => _ end) => destruct x
      end ].

Ltac blind_auto := repeat blind_step.

Lemma blind_linker_tail env root_path (link : ref -> M unit) T :
  (forall r, blind (link r)) ->
  blind (found <- path_exists root_path (path_join root_path "METS.xml");;
         if found : bool then
           parent_root <- etree_parse root_path (path_join root_path "METS.xml");;
           link parent_root;;
           str <- etree_tostring parent_root;;
           open_w env root_path (path_join root_path "METS.xml");;
           file_write env root_path (path_join root_path "METS.xml") str
         else
           logger "DEBUG" ("Couldn't find the parent " +:+ T +:+ "s Mets file.")).
Proof.
  intros Hlink.
  unfold path_exists, etree_parse, read_file, locate, etree_tostring,
    open_w, file_write.
  blind_auto; apply Hlink.
Qed.

Lemma blind_parent_link env T identifier r : blind (parent_link env T identifier r).
Proof.
  unfold parent_link, find, len, attach_to, insert_new, attach. blind_auto.
Qed.

Lemma blind_child_link env T identifier r : blind (child_link env T identifier r).
Proof.
  unfold child_link, find, len, attach_to, insert_new, attach. blind_auto.
Qed.

(** C3 fails as stated: on an instance whose [createMets] has not run, both
    linker operations raise, whether or not the sibling descriptor exists. *)
Lemma linker_before_generation_raises :
  mets_data (initial pkg_with_sibling) = None /\
  setParentRelation posix_env "/pkg" "urn:uuid:child-1" (initial pkg_with_sibling)
    = (initial pkg_with_sibling, Raise (TypeError "'NoneType' object is not subscriptable")) /\
  addChildRelation posix_env "/pkg" "urn:uuid:child-1" (initial pkg_with_sibling)
    = (initial pkg_with_sibling, Raise (TypeError "'NoneType' object is not subscriptable")).
Proof. repeat split. Qed.

(** C3, amended: the linker operations need the package type that
    [createMets] stores in [mets_data]. Before any generation run
    ([mets_data] is [None]) they raise [TypeError] and change nothing; once
    [mets_data] holds a dictionary with a [type] entry, that entry is all
    they read of the generator's state: on two instances that differ only in
    the rest of [mets_data] they do the same. *)
Theorem linker_reads_only_package_type env root_path identifier :
  (forall s, mets_data s = None ->
     setParentRelation env root_path identifier s
       = (s, Raise (TypeError "'NoneType' object is not subscriptable")) /\
     addChildRelation env root_path identifier s
       = (s, Raise (TypeError "'NoneType' object is not subscriptable"))) /\
  (forall s d d' v,
     mets_data s = Some d -> d !! "type" = Some v -> d' !! "type" = Some v ->
     let s2 := set_mets_data (Some d') s in
     setParentRelation env root_path identifier s2
       = (set_mets_data (Some d') (setParentRelation env root_path identifier s).1,
          (setParentRelation env root_path identifier s).2) /\
     addChildRelation env root_path identifier s2
       = (set_mets_data (Some d') (addChildRelation env root_path identifier s).1,
          (addChildRelation env root_path identifier s).2)).
Proof.
  split; [apply linker_needs_mets_data|].
  intros s d d' v Hs Hd Hd' s2.
  unfold setParentRelation, addChildRelation.
  split.
  - rewrite (bind_eq _ _ s2 s2 (Some d')) by done.
    rewrite (bind_eq _ _ s s (Some d)) by (unfold gets; by rewrite Hs).
    rewrite (bind_eq _ _ s2 s2 v) by (unfold lift; simpl; unfold getitem; by rewrite Hd').
    rewrite (bind_eq _ _ s s v) by (unfold lift; simpl; unfold getitem; by rewrite Hd).
    apply blind_linker_tail. intros r. apply blind_parent_link.
  - rewrite (bind_eq _ _ s2 s2 (Some d')) by done.
    rewrite (bind_eq _ _ s s (Some d)) by (unfold gets; by rewrite Hs).
    rewrite (bind_eq _ _ s2 s2 v) by (unfold lift; simpl; unfold getitem; by rewrite Hd').
    rewrite (bind_eq _ _ s s v) by (unfold lift; simpl; unfold getitem; by rewrite Hd).
    apply blind_linker_tail. intros r. apply blind_child_link.
Qed.

(** C4 fails as stated: with no sibling descriptor and no generation run
    before, the operation raises instead of returning. *)
Lemma linker_without_sibling_may_raise :
  path_exists "/pkg" (path_join "/pkg" "METS.xml") (initial []) = (initial [], Ok false) /\
  (setParentRelation posix_env "/pkg" "urn:uuid:child-1" (initial [])).2
    = Raise (TypeError "'NoneType' object is not subscriptable") /\
  (addChildRelation posix_env "/pkg" "urn:uuid:child-1" (initial [])).2
    = Raise (TypeError "'NoneType' object is not subscriptable").
Proof. repeat split. Qed.

(** C4, amended: when [mets_data] holds a dictionary with a [type] entry
    and the sibling descriptor does not exist, both operations return
    normally; they add one DEBUG record to the log and change nothing
    else: nothing is written, the file system is as it was. *)
Theorem linker_without_sibling env root_path identifier s d v :
  mets_data s = Some d -> d !! "type" = Some v ->
  path_exists root_path (path_join root_path "METS.xml") s = (s, Ok false) ->
  let s' := add_log ("DEBUG", "Couldn't find the parent " +:+ py_str v +:+ "s Mets file.") s in
  setParentRelation env root_path identifier s = (s', Ok tt) /\
  addChildRelation env root_path identifier s = (s', Ok tt) /\
  disk s' = disk s /\ elsewhere s' = elsewhere s /\ heap s' = heap s.
Proof.
  intros Hs Hd Hex s'.
  unfold setParentRelation, addChildRelation.
  rewrite !(bind_eq _ _ s s (Some d)) by (unfold gets; by rewrite Hs).
  rewrite !(bind_eq _ _ s s v) by (unfold lift; simpl; unfold getitem; by rewrite Hd).
  rewrite !(bind_eq _ _ s s false) by done.
  by repeat split.
Qed.

Lemma linker_without_sibling_witness :
  let s := generated [] in
  let s' := add_log ("DEBUG", "Couldn't find the parent SIPs Mets file.") s in
  setParentRelation posix_env "/pkg" "urn:uuid:child-1" s = (s', Ok tt) /\
  addChildRelation posix_env "/pkg" "urn:uuid:child-1" s = (s', Ok tt) /\
  disk s' = disk s /\ elsewhere s' = elsewhere s /\ heap s' = heap s.
Proof.
  apply (linker_without_sibling posix_env "/pkg" "urn:uuid:child-1"
           (generated []) sample_mets_data (PyStr "SIP")).
  - reflexivity.
  - reflexivity.
  - reflexivity.
Defined.

(** What the linker serialises is a [bytes] object, and it writes it to a
    file opened in text mode: the write raises. Whenever the sibling
    descriptor exists, neither operation returns normally. *)
Lemma linker_never_returns env root_path identifier s s' :
  path_exists root_path (path_join root_path "METS.xml") s = (s, Ok true) ->
  setParentRelation env root_path identifier s <> (s', Ok tt) /\
  addChildRelation env root_path identifier s <> (s', Ok tt).
Proof.
  intros Hex. unfold setParentRelation, addChildRelation.
  split; intros H.
  all: apply bind_Ok in H as (md & s1 & H1 & H); injection H1 as <- <-.
  all: apply bind_Ok in H as (pt & s2 & H2 & H); unfold lift in H2; injection H2 as <- _.
  all: rewrite (bind_eq _ _ s s true) in H by done.
  all: apply bind_Ok in H as (r & s3 & _ & H).
  all: apply bind_Ok in H as (u & s4 & _ & H).
  all: apply bind_Ok in H as (str & s5 & Hstr & H).
  all: apply bind_Ok in H as (u' & s6 & _ & H).
  all: unfold etree_tostring in Hstr.
  all: apply bind_Ok in Hstr as (h & s7 & _ & Hstr).
  all: destruct (reify (length h) h r); [|discriminate].
  all: injection Hstr as _ <-; discriminate.
Qed.

(** C2, at an existing sibling descriptor that parses: each operation
    raises [TypeError] at the write, after [open(..., 'w')] has emptied
    the file; the updated document is not stored. *)
Theorem linker_write_raises :
  let s := generated pkg_with_sibling in
  let emptied := [("METS.xml", File "2020-01-01T00:00:00" (Raw ""))] in
  path_exists "/pkg" (path_join "/pkg" "METS.xml") s = (s, Ok true) /\
  (setParentRelation posix_env "/pkg" "urn:uuid:child-1" s).2
    = Raise (TypeError "write() argument must be str, not bytes") /\
  disk (setParentRelation posix_env "/pkg" "urn:uuid:child-1" s).1 = emptied /\
  (addChildRelation posix_env "/pkg" "urn:uuid:child-1" s).2
    = Raise (TypeError "write() argument must be str, not bytes") /\
  disk (addChildRelation posix_env "/pkg" "urn:uuid:child-1" s).1 = emptied.
Proof. vm_compute. repeat split. Qed.

(** C9, at an existing sibling descriptor: the first call raises at the
    write and leaves the sibling file empty, the second call cannot parse
    it; no pointer node reaches the sibling descriptor. *)
Theorem linking_twice_raises :
  let first := addChildRelation posix_env "/pkg" "urn:uuid:X" (generated pkg_with_sibling) in
  let second := addChildRelation posix_env "/pkg" "urn:uuid:X" first.1 in
  first.2 = Raise (TypeError "write() argument must be str, not bytes") /\
  second.2 = Raise XMLSyntaxError /\
  descriptor second.1 = None.
Proof. vm_compute. repeat split. Qed.

(** In the store, the tree update of [addChildRelation] does what C9
    says: applied twice to the parsed sibling document it leaves one
    structMap labelled [child SIP] and two pointers to the same identifier,
    with different IDs. *)
Example child_link_twice :
  let run := (r <- load sibling_doc;;
              child_link posix_env "SIP" "urn:uuid:X" r;;
              child_link posix_env "SIP" "urn:uuid:X" r;;
              etree_tostring r) (initial []) in
  exists doc, run.2 = Ok (Bytes doc) /\
    length (struct_maps_labelled "child SIP" doc) = 1 /\
    (get_key "ID" ∘ eattrib_of) <$> pointers_to "urn:uuid:X" doc = [Some "ID0"; Some "ID1"].
Proof. eexists. vm_compute. repeat split. Qed.

(** ** Generation on sample packages *)

(** C1, at a representation directory whose listing gives a content file
    before METS.xml: the physical division of the directory starts with the
    file pointer of that content file; the package-reference pointer comes
    second. With METS.xml listed first the pointer is the first child. *)
Theorem mptr_after_earlier_files :
  let late := createMets posix_env "/pkg" sample_mets_data None (initial pkg_nested) in
  let early := createMets posix_env "/pkg" sample_mets_data None (initial pkg_nested_first) in
  late.2 = Ok tt /\
  (doc ← descriptor late.1; physical_children_tags doc "representations/rep1")
    = Some [q METS_NS "fptr"; q METS_NS "mptr"; q METS_NS "fptr"] /\
  early.2 = Ok tt /\
  (doc ← descriptor early.1; physical_children_tags doc "representations/rep1")
    = Some [q METS_NS "mptr"; q METS_NS "fptr"; q METS_NS "fptr"].
Proof. vm_compute. repeat split. Qed.

(** C7, at files whose role has no file group: in the branch for schema
    files and in the branch for METS.xml the failed lookup ends the
    generation with [KeyError] and no descriptor is written; only the
    branch for other files reports the file, skips it and goes on. *)
Theorem unregistered_role_aborts :
  let schemas := createMets posix_env "/pkg" sample_mets_data None (initial pkg_deep_schemas) in
  let nested := createMets posix_env "/pkg" sample_mets_data None (initial pkg_deep_mets) in
  let other := createMets posix_env "/pkg" sample_mets_data None (initial pkg_deep_data) in
  schemas.2 = Raise (KeyError "schemas") /\ descriptor schemas.1 = None /\
  log schemas.1 = [] /\
  nested.2 = Raise (KeyError "data") /\ descriptor nested.1 = None /\
  log nested.1 = [] /\
  other.2 = Ok tt /\ is_Some (descriptor other.1) /\
  log other.1 = [("ERROR", "Error looking up 'data' element for file 'b.txt'")].
Proof. vm_compute. repeat split; eauto. Qed.

(** The branch for other files, in general: a role without a file group
    is reported and the file is skipped, with no other change of state. *)
Lemma other_file_skips env root_path L directory folder_with_USE physical_div filename s :
  mets_filegroups L !! folder_with_USE = None ->
  other_file env root_path L directory folder_with_USE physical_div filename s
    = (add_log ("ERROR", "Error looking up '" +:+ folder_with_USE +:+
                         "' element for file '" +:+ filename +:+ "'") s, Ok tt).
Proof.
  intros H. unfold other_file, try_except, bind, lift, filegroup. by rewrite H.
Qed.

(** The other two branches let the same failure escape. *)
Lemma schema_file_raises env root_path L directory folder_with_USE physical_div filename s :
  mets_filegroups L !! folder_with_USE = None ->
  schema_file env root_path L directory folder_with_USE physical_div filename s
    = (s, Raise (KeyError folder_with_USE)).
Proof.
  intros H. unfold schema_file, bind, lift, filegroup. by rewrite H.
Qed.

(** ** The element store *)

Lemma load_children_layout kids r :
  Forall (λ k, forall s, load k s = (set_heap (layout k) s, Ok (length (heap s)))) kids ->
  forall s, load_children load r kids s = (set_heap (layout_children layout r kids) s, Ok r).
Proof.
  induction 1 as [|k kids Hk _ IHkids]; intros s; simpl.
  - by destruct s.
  - unfold bind at 1. rewrite Hk. unfold bind at 1. unfold append, modify.
    rewrite IHkids. by destruct s.
Qed.

Lemma load_layout e : forall s, load e s = (set_heap (layout e) s, Ok (length (heap s))).
Proof.
  induction e as [t a x kids IH] using element_ind'. intros s. simpl.
  unfold bind, alloc. rewrite (load_children_layout _ _ IH). by destruct s.
Qed.

Lemma hext_refl h : hext h h.
Proof.
  split; auto. intros r n H. exists n. by repeat split.
Qed.

Lemma hext_trans h1 h2 h3 : hext h1 h2 -> hext h2 h3 -> hext h1 h3.
Proof.
  intros [L1 N1 F1 P1] [L2 N2 F2 P2]. split.
  - lia.
  - intros r n H. destruct (N1 r n H) as (n' & H' & Ht & Ha & Hx & Hc).
    destruct (N2 r n' H') as (n'' & H'' & Ht' & Ha' & Hx' & Hc').
    exists n''. repeat split; [done|congruence..|set_solver].
  - auto.
  - intros x Hx Hp. apply P2; [lia|]. by apply P1.
Qed.

Lemma grown_leaf h n : children n = [] -> grown h (h ++ [n]).
Proof.
  intros Hn. split.
  - by exists [n].
  - rewrite length_app. simpl. lia.
  - intros p m c Hp Hle Hc.
    assert (p = length h) as ->.
    { apply lookup_lt_Some in Hp. rewrite length_app in Hp. simpl in Hp. lia. }
    rewrite list_lookup_middle in Hp by done. injection Hp as <-.
    rewrite Hn in Hc. by apply elem_of_nil in Hc.
  - intros p1 p2 n1 n2 c H1 H2 L1 L2 _ _.
    apply lookup_lt_Some in H1, H2. rewrite length_app in H1, H2. simpl in *. lia.
Qed.

(** One more child tree below the root [r] of a tree being laid out. *)
Lemma grown_child h h1 h2 r :
  r = length h -> grown h h1 -> grown h1 h2 ->
  grown h (alter (add_child (length h1)) r h2).
Proof.
  intros -> G1 G2.
  destruct G1 as [[new1 E1] L1 Ed1 U1]. destruct G2 as [[new2 E2] L2 Ed2 U2].
  assert (forall p, p < length h1 -> h2 !! p = h1 !! p) as Hold.
  { intros p Hp. rewrite E2. by apply lookup_app_l. }
  (* the edges of the new heap *)
  assert (forall p n c, alter (add_child (length h1)) (length h) h2 !! p = Some n ->
            c ∈ children n ->
            (exists m, h2 !! p = Some m /\ c ∈ children m) \/
            (p = length h /\ c = length h1)) as Hedge.
  { intros p n c Hp Hc. destruct (decide (p = length h)) as [->|Hne].
    - rewrite list_lookup_alter_eq in Hp.
      destruct (h2 !! length h) as [m|] eqn:Hm; [|done].
      injection Hp as <-. simpl in Hc. apply elem_of_app in Hc as [Hc|Hc].
      + left. eauto.
      + right. apply list_elem_of_singleton in Hc. done.
    - rewrite list_lookup_alter_ne in Hp by done. left. eauto. }
  split.
  - exists (alter (add_child (length h1)) 0 (new1 ++ new2)).
    rewrite E2, E1, <- app_assoc.
    rewrite alter_app_r_alt by lia. by replace (length h - length h) with 0 by lia.
  - rewrite length_alter. lia.
  - intros p n c Hp Hle Hc. rewrite length_alter.
    destruct (Hedge p n c Hp Hc) as [(m & Hm & Hcm)|[-> ->]]; [|lia].
    destruct (decide (p < length h1)) as [Hlt|Hge].
    + rewrite Hold in Hm by done. destruct (Ed1 p m c Hm Hle Hcm). lia.
    + destruct (Ed2 p m c Hm ltac:(lia) Hcm). lia.
  - intros p1 p2 n1 n2 c H1 H2 Le1 Le2 Hc1 Hc2.
    destruct (Hedge p1 n1 c H1 Hc1) as [(m1 & Hm1 & Hcm1)|[Ep1 Ec1]];
    destruct (Hedge p2 n2 c H2 Hc2) as [(m2 & Hm2 & Hcm2)|[Ep2 Ec2]];
      [| subst p2 c | subst p1 c | congruence].
    + destruct (decide (p1 < length h1)) as [Hlt1|Hge1];
      destruct (decide (p2 < length h1)) as [Hlt2|Hge2].
      * rewrite Hold in Hm1, Hm2 by done. eapply U1; eauto.
      * rewrite Hold in Hm1 by done.
        destruct (Ed1 p1 m1 c Hm1 Le1 Hcm1). destruct (Ed2 p2 m2 c Hm2 ltac:(lia) Hcm2). lia.
      * rewrite Hold in Hm2 by done.
        destruct (Ed1 p2 m2 c Hm2 Le2 Hcm2). destruct (Ed2 p1 m1 c Hm1 ltac:(lia) Hcm1). lia.
      * eapply U2; eauto; lia.
    + destruct (decide (p1 < length h1)) as [Hlt1|Hge1].
      * rewrite Hold in Hm1 by done. destruct (Ed1 p1 m1 _ Hm1 Le1 Hcm1). lia.
      * destruct (Ed2 p1 m1 _ Hm1 ltac:(lia) Hcm1). lia.
    + destruct (decide (p2 < length h1)) as [Hlt2|Hge2].
      * rewrite Hold in Hm2 by done. destruct (Ed1 p2 m2 _ Hm2 Le2 Hcm2). lia.
      * destruct (Ed2 p2 m2 _ Hm2 ltac:(lia) Hcm2). lia.
Qed.

Lemma layout_children_grown h r kids :
  r = length h ->
  Forall (λ k, forall h, grown h (layout k h)) kids ->
  forall h1, grown h h1 -> grown h (layout_children layout r kids h1).
Proof.
  intros Hr. induction 1 as [|k kids Hk _ IH]; intros h1 G1; simpl; [done|].
  apply IH. by apply grown_child.
Qed.

Lemma layout_grown e : forall h, grown h (layout e h).
Proof.
  induction e as [t a x kids IH] using element_ind'. intros h. simpl.
  apply layout_children_grown; [done|done|]. by apply grown_leaf.
Qed.

Lemma grown_lookup h h' p : grown h h' -> p < length h -> h' !! p = h !! p.
Proof. intros [[new ->] _ _ _] Hp. by apply lookup_app_l. Qed.

Lemma grown_hext h h' : grown h h' -> hext h h'.
Proof.
  intros G. pose proof (λ p, grown_lookup _ _ p G) as Hold.
  destruct G as [_ L Ed U]. split.
  - lia.
  - intros r n H. exists n. rewrite Hold by (by eapply lookup_lt_Some). done.
  - intros [W UP]. split.
    + intros p n c Hp Hc. destruct (decide (p < length h)) as [Hlt|Hge].
      * rewrite Hold in Hp by done. pose proof (W p n c Hp Hc). lia.
      * destruct (Ed p n c Hp ltac:(lia) Hc). lia.
    + intros p1 p2 n1 n2 c H1 H2 Hc1 Hc2.
      destruct (decide (p1 < length h)) as [Hlt1|Hge1];
      destruct (decide (p2 < length h)) as [Hlt2|Hge2].
      * rewrite Hold in H1, H2 by done. eapply UP; eauto.
      * rewrite Hold in H1 by done. pose proof (W _ _ _ H1 Hc1).
        destruct (Ed _ _ _ H2 ltac:(lia) Hc2). lia.
      * rewrite Hold in H2 by done. pose proof (W _ _ _ H2 Hc2).
        destruct (Ed _ _ _ H1 ltac:(lia) Hc1). lia.
      * eapply U; eauto; lia.
  - intros x Hx Hp p n Hpn Hc. destruct (decide (p < length h)) as [Hlt|Hge].
    + rewrite Hold in Hpn by done. by eapply Hp.
    + destruct (Ed _ _ _ Hpn ltac:(lia) Hc). lia.
Qed.

(** The root of a tree just laid out has no parent. *)
Lemma grown_parentless h h' : grown h h' -> wf h -> parentless h' (length h).
Proof.
  intros G W p n Hp Hc. destruct (decide (p < length h)) as [Hlt|Hge].
  - rewrite (grown_lookup _ _ _ G) in Hp by done. pose proof (W _ _ _ Hp Hc). lia.
  - destruct (grown_edge _ _ G _ _ _ Hp ltac:(lia) Hc). lia.
Qed.

(** Hanging a parentless element allocated since [h] below [p]; [f] is
    [add_child c] or [insert_child i c]. *)
Lemma hext_new_child h h' f c p :
  hext h h' -> length h <= c -> c < length h' ->
  (wf h -> parentless h' c) ->
  (forall n, tag (f n) = tag n /\ attrib (f n) = attrib n /\ text (f n) = text n /\
             forall x, x ∈ children (f n) <-> x ∈ children n \/ x = c) ->
  hext h (alter f p h').
Proof.
  intros [L N F P] Hc Hc' Hpl Hf.
  assert (forall q n x, alter f p h' !! q = Some n -> x ∈ children n ->
            (exists m, h' !! q = Some m /\ x ∈ children m) \/ (q = p /\ x = c)) as Hedge.
  { intros q n x Hq Hx. destruct (decide (q = p)) as [->|Hne].
    - rewrite list_lookup_alter_eq in Hq.
      destruct (h' !! p) as [m|] eqn:Hm; [|done].
      injection Hq as <-. apply Hf in Hx as [Hx| ->]; eauto.
    - rewrite list_lookup_alter_ne in Hq by done. eauto. }
  split.
  - by rewrite length_alter.
  - intros r n H. destruct (N r n H) as (n' & H' & Ht & Ha & Hx & Hsub).
    destruct (decide (r = p)) as [->|Hne].
    + exists (f n'). rewrite list_lookup_alter_eq, H'. simpl.
      destruct (Hf n') as (-> & -> & -> & Hch). repeat split; try done.
      intros x Hxin. apply Hch. left. by apply Hsub.
    + exists n'. by rewrite list_lookup_alter_ne.
  - intros Fo. pose proof (F Fo) as [W' U']. destruct Fo as [W _].
    specialize (Hpl W). split.
    + intros q n x Hq Hx. rewrite length_alter.
      destruct (Hedge q n x Hq Hx) as [(m & Hm & Hxm)|[-> ->]]; [|done].
      by eapply W'.
    + intros p1 p2 n1 n2 x H1 H2 Hx1 Hx2.
      destruct (Hedge p1 n1 x H1 Hx1) as [(m1 & Hm1 & Hxm1)|[E1 E1']];
      destruct (Hedge p2 n2 x H2 Hx2) as [(m2 & Hm2 & Hxm2)|[E2 E2']].
      * eapply U'; eauto.
      * subst x. by destruct (Hpl _ _ Hm1).
      * subst x. by destruct (Hpl _ _ Hm2).
      * congruence.
  - intros x Hx Hp q n Hq Hxn.
    destruct (Hedge q n x Hq Hxn) as [(m & Hm & Hxm)|[-> ->]]; [|lia].
    by eapply (P x Hx Hp).
Qed.

Lemma add_child_spec c n :
  tag (add_child c n) = tag n /\ attrib (add_child c n) = attrib n /\
  text (add_child c n) = text n /\
  forall x, x ∈ children (add_child c n) <-> x ∈ children n \/ x = c.
Proof.
  repeat split; try done; simpl; rewrite elem_of_app, list_elem_of_singleton; tauto.
Qed.

Lemma insert_child_spec i c n :
  tag (insert_child i c n) = tag n /\ attrib (insert_child i c n) = attrib n /\
  text (insert_child i c n) = text n /\
  forall x, x ∈ children (insert_child i c n) <-> x ∈ children n \/ x = c.
Proof.
  repeat split; try done; simpl.
  - rewrite <- (take_drop i (children n)) at 3.
    rewrite !elem_of_app, elem_of_cons. tauto.
  - rewrite <- (take_drop i (children n)) at 1.
    rewrite !elem_of_app, elem_of_cons. tauto.
Qed.

Lemma hext_attach h e p :
  hext h (alter (add_child (length h)) p (layout e h)).
Proof.
  pose proof (layout_grown e h) as G.
  apply (hext_new_child h (layout e h) (add_child (length h)) (length h) p);
    [by apply grown_hext|done|apply G| |apply add_child_spec].
  intros W. by apply grown_parentless.
Qed.

Lemma hext_insert_new h e p i :
  hext h (alter (insert_child i (length h)) p (layout e h)).
Proof.
  pose proof (layout_grown e h) as G.
  apply (hext_new_child h (layout e h) (insert_child i (length h)) (length h) p);
    [by apply grown_hext|done|apply G| |apply insert_child_spec].
  intros W. by apply grown_parentless.
Qed.

(** ** Relations every step of a method preserves *)

Lemma entry_ind' (P : entry -> Prop) :
  (forall t c, P (File t c)) ->
  (forall es, Forall (λ ne, P ne.2) es -> P (Dir es)) ->
  forall e, P e.
Proof.
  intros HF HD. fix IH 1. intros [t c|es]; [apply HF|]. apply HD.
  induction es as [|[n e] es IHes]; constructor; [apply IH | apply IHes].
Qed.

Section Always.

Context (R : state -> state -> Prop).
Context (R_refl : forall s, R s s).
Context (R_trans : forall a b c, R a b -> R b c -> R a c).

Lemma always_ret {A} (a : A) : always R (ret a).
Proof. intros s. apply R_refl. Qed.

Lemma always_raise {A} e : always R (@raise A e).
Proof. intros s. apply R_refl. Qed.

Lemma always_lift {A} (r : result A) : always R (lift r).
Proof. intros s. apply R_refl. Qed.

Lemma always_gets {A} (f : state -> A) : always R (gets f).
Proof. intros s. apply R_refl. Qed.

Lemma always_bind {A B} (m : M A) (k : A -> M B) :
  always R m -> (forall a, always R (k a)) -> always R (bind m k).
Proof.
  intros Hm Hk s. unfold bind. specialize (Hm s).
  destruct (m s) as [s1 [a|e]]; simpl in *; [|done].
  eapply R_trans; [done|apply Hk].
Qed.

Lemma always_try_except {A} (m : M A) handler :
  always R m -> (forall e h, handler e = Some h -> always R h) ->
  always R (try_except m handler).
Proof.
  intros Hm Hh s. unfold try_except. specialize (Hm s).
  destruct (m s) as [s1 [a|e]]; simpl in *; [done|].
  destruct (handler e) as [h|] eqn:He; [|done].
  eapply R_trans; [done|]. by eapply Hh.
Qed.

Lemma always_for_each {A} (l : list A) body :
  (forall x, always R (body x)) -> always R (for_each l body).
Proof.
  intros Hb. induction l as [|x l IH]; simpl; [apply always_ret|].
  apply always_bind; [apply Hb|]. by intros _.
Qed.

Lemma always_for_fold {A S} (l : list A) (acc : S) body :
  (forall a x, always R (body a x)) -> always R (for_fold l acc body).
Proof.
  intros Hb. revert acc. induction l as [|x l IH]; intros acc; simpl; [apply always_ret|].
  apply always_bind; [apply Hb|]. intros a. apply IH.
Qed.

Lemma always_walk_entry body top e :
  (forall t d f, always R (body t d f)) -> always R (walk_entry body top e).
Proof.
  intros Hb. revert top. induction e as [t c|es IH] using entry_ind'; intros top; simpl.
  - apply always_ret.
  - apply always_bind; [apply Hb|]. intros [|]; [apply always_ret|].
    induction IH as [|[n e] es He _ IHes]; simpl; [apply always_ret|].
    apply always_bind; [apply He|]. by intros _.
Qed.

Lemma always_os_walk root_path top body :
  (forall t d f, always R (body t d f)) -> always R (os_walk root_path top body).
Proof.
  intros Hb. unfold os_walk, locate.
  apply always_bind; [apply always_gets|].
  intros [e|]; [by apply always_walk_entry|apply always_ret].
Qed.

End Always.

Lemma extends_refl s : extends s s.
Proof. split; [apply hext_refl|done]. Qed.

Lemma extends_trans a b c : extends a b -> extends b c -> extends a c.
Proof. intros [H1 D1] [H2 D2]. split; [by eapply hext_trans|congruence]. Qed.

Lemma extends_modify (f : state -> state) :
  (forall s, heap (f s) = heap s /\ disk (f s) = disk s) -> always extends (modify f).
Proof.
  intros H s. unfold modify. simpl. destruct (H s) as [Hh Hd].
  split; [rewrite Hh; apply hext_refl|done].
Qed.

Lemma extends_fresh_id env : always extends (fresh_id env).
Proof. intros s. split; [apply hext_refl|done]. Qed.

Lemma extends_logger level msg : always extends (logger level msg).
Proof. by apply extends_modify. Qed.

Lemma extends_load e : always extends (load e).
Proof.
  intros s. rewrite load_layout. split; [|done]. apply grown_hext, layout_grown.
Qed.

Lemma attach_eq p e s :
  attach p e s
  = (set_heap (λ h, alter (add_child (length h)) p (layout e h)) s, Ok (length (heap s))).
Proof. unfold attach, bind. rewrite load_layout. by destruct s. Qed.

Lemma insert_new_eq p i e s :
  insert_new p i e s
  = (set_heap (λ h, alter (insert_child i (length h)) p (layout e h)) s,
     Ok (length (heap s))).
Proof. unfold insert_new, bind. rewrite load_layout. by destruct s. Qed.

Lemma extends_attach p e : always extends (attach p e).
Proof. intros s. rewrite attach_eq. split; [apply hext_attach|done]. Qed.

Lemma extends_insert_new p i e : always extends (insert_new p i e).
Proof. intros s. rewrite insert_new_eq. split; [apply hext_insert_new|done]. Qed.

Ltac always_step R Hr Ht prim :=
  first
    [ apply (always_ret R Hr) | apply (always_raise R Hr)
    | apply (always_lift R Hr) | apply (always_gets R Hr)
    | prim
    | apply (always_os_walk R Hr Ht); intros ? ? ?
    | apply (always_walk_entry R Hr Ht); intros ? ? ?
    | apply (always_bind R Ht); [|intros ?]
    | apply (always_try_except R Ht);
        [|let e := fresh "e" in let h := fresh "h" in let He := fresh "He" in
          intros e h He; destruct e; simplify_eq/=]
    | apply (always_for_each R Hr Ht); intros ?
    | apply (always_for_fold R Hr Ht); intros ? ?
    | match goal with
      | |- always _ (match ?x with _ => _ end) => destruct x
      end
    | progress (cbv beta zeta) ].

Ltac extends_prim :=
  first [ apply extends_fresh_id | apply extends_logger | apply extends_load
        | apply extends_attach | apply extends_insert_new ].

Ltac extends_auto :=
  unfold createAgent, new_physical_div, content_file, nested_mets, schema_file,
    other_file, metadata_branch, reference_metadata, new_dmdSec, new_digiprovMD,
    addFile, make_mdref, append_fptr, attach_to, create,
    read_file, listdir, isfile, locate, first_walk_dirnames;
  repeat (always_step extends extends_refl extends_trans extends_prim).

Lemma extends_walk_body env root_path L directory subdirectories filenames :
  always extends (walk_body env root_path L directory subdirectories filenames).
Proof. unfold walk_body. extends_auto. Qed.

Lemma extends_walk env root_path L :
  always extends (os_walk root_path root_path (walk_body env root_path L)).
Proof.
  apply (always_os_walk _ extends_refl extends_trans). intros. apply extends_walk_body.
Qed.

Lemma extends_mets_header env root packagetype :
  always extends (mets_header env root packagetype).
Proof. unfold mets_header. extends_auto. Qed.

Lemma extends_subdir_groups env fileSec subdirs groups :
  always extends (subdir_groups env fileSec subdirs groups).
Proof.
  revert groups. induction subdirs as [|d l IH]; intros groups; simpl; extends_auto.
  all: apply IH.
Qed.

Lemma extends_file_groups env root_path fileSec :
  always extends (file_groups env root_path fileSec).
Proof.
  unfold file_groups. extends_auto. apply extends_subdir_groups.
Qed.

Lemma extends_physical_map env root packageid :
  always extends (physical_map env root packageid).
Proof. unfold physical_map. extends_auto. Qed.

Lemma extends_logical_map env root packagetype :
  always extends (logical_map env root packagetype).
Proof. unfold logical_map. extends_auto. Qed.

Lemma extends_parent_map env root packageid packagetype parent :
  always extends (parent_map env root packageid packagetype parent).
Proof. unfold parent_map. extends_auto. Qed.

(** ** The schema location, written and read back *)

Lemma split_cons sep s : exists t ts, split sep s = t :: ts.
Proof.
  induction s as [|c s IH]; simpl; [eauto|].
  destruct (Ascii.eqb c sep); [eauto|]. destruct IH as (t & ts & ->). eauto.
Qed.

Lemma split_app_sep sep x y :
  split sep (x +:+ String sep y) = split sep x ++ split sep y.
Proof.
  induction x as [|c x IH]; simpl.
  - by rewrite Ascii.eqb_refl.
  - destruct (Ascii.eqb c sep); [by rewrite IH|].
    rewrite IH. by destruct (split_cons sep x) as (t & ts & ->).
Qed.

Lemma schemaLocation_fields msl xsl :
  exists tail, split " " (schemaLocation msl xsl)
               = "http://www.loc.gov/METS/" :: first_field msl :: tail.
Proof.
  unfold schemaLocation, first_field.
  change (METS_NS +:+ " " +:+ msl +:+ " " +:+ XLINK_NS +:+ " " +:+ xsl +:+ " " +:+
          CSIP_NS +:+ " " +:+ default_csip_location)
    with (METS_NS +:+ String " " (msl +:+ String " " (XLINK_NS +:+ " " +:+ xsl +:+ " " +:+
          CSIP_NS +:+ " " +:+ default_csip_location))).
  rewrite !split_app_sep.
  destruct (split_cons " " msl) as (t & ts & ->). simpl. eauto.
Qed.

Lemma schema_file_loop_fields rdir f tail tokens acc :
  schema_file_loop rdir ("http://www.loc.gov/METS/" :: f :: tail) tokens acc
  = Ok (if existsb (λ token, String.eqb token "http://www.loc.gov/METS/") tokens
        then rdir +:+ f else acc).
Proof.
  revert acc.
  induction tokens as [|token tokens IH]; intros acc; [done|].
  cbn [schema_file_loop existsb].
  destruct (String.eqb token "http://www.loc.gov/METS/") eqn:E.
  - apply String.eqb_eq in E as ->.
    replace (index_of "http://www.loc.gov/METS/" ("http://www.loc.gov/METS/" :: f :: tail))
      with (Some 0) by reflexivity.
    cbn [lookup list_lookup Nat.add].
    replace (startswith f "") with true by (by destruct f).
    rewrite IH. cbn [orb]. by destruct (existsb _ tokens).
  - rewrite IH. done.
Qed.

Lemma reify_top fuel h r doc :
  reify fuel h r = Some doc ->
  exists n, h !! r = Some n /\ etag_of doc = tag n /\ eattrib_of doc = attrib n.
Proof.
  destruct fuel as [|fuel]; simpl; [done|].
  destruct (h !! r) as [n|]; [|done].
  destruct (mapM _ _); [|done]. intros [= <-]. eauto.
Qed.

(** The reader on a document whose root is a mets element carrying the
    schema locations [createMets] writes. *)
Lemma reader_schema_location rdir doc msl xsl :
  etag_of doc = q METS_NS "mets" ->
  xpath_attribute (q ns_xsi "schemaLocation") doc = [schemaLocation msl xsl] ->
  get_mets_schema_from_schema_location {| root_dir := rdir; mets_tree := Some doc |}
  = Ok (rdir +:+ first_field msl).
Proof.
  intros Ht Ha. unfold get_mets_schema_from_schema_location, get_root. simpl.
  unfold xpath_root. rewrite Ht.
  change (String.eqb (q METS_NS "mets") (q ns_mets "mets")) with true.
  cbn [flat_map]. rewrite Ha. cbn [app join_all join_with].
  destruct (schemaLocation_fields msl xsl) as (tail & ->).
  rewrite schema_file_loop_fields. done.
Qed.

Lemma lookup_put_name name new es : lookup_name name (put_name name new es) = Some new.
Proof.
  induction es as [|[n e] es IH]; simpl.
  - by rewrite String.eqb_refl.
  - destruct (String.eqb n name) eqn:E; simpl; rewrite E; [done|apply IH].
Qed.

Lemma write_at_deeper name name' rest new es :
  write_at (name :: name' :: rest) new (Dir es)
  = match lookup_name name es with
    | Some sub =>
        match write_at (name' :: rest) new sub with
        | Some sub' => Some (Dir (put_name name sub' es))
        | None => None
        end
    | None => None
    end.
Proof. done. Qed.

Lemma resolve_write_at segs new : forall e e',
  write_at segs new e = Some e' -> resolve segs e' = Some new.
Proof.
  induction segs as [|name rest IH]; intros e e' H; [done|].
  destruct e as [t c|es]; [by destruct rest|].
  destruct rest as [|name' rest].
  - simpl in H. destruct (lookup_name name es) as [[?|?]|]; simplify_eq/=.
    all: by rewrite lookup_put_name.
  - rewrite write_at_deeper in H.
    destruct (lookup_name name es) as [sub|]; [|done].
    destruct (write_at (name' :: rest) new sub) as [sub'|] eqn:Hs; [|done].
    injection H as <-. cbn [resolve]. rewrite lookup_put_name. by eapply IH.
Qed.

Lemma get_put_key {V} k (v : V) l : get_key k (put_key k v l) = Some v.
Proof.
  induction l as [|[k' v'] l IH]; simpl.
  - by rewrite String.eqb_refl.
  - destruct (String.eqb k' k) eqn:E; simpl; [by rewrite String.eqb_refl|by rewrite E].
Qed.

Lemma file_write_file_at env root_path p doc s s' :
  file_write env root_path p (Text doc) s = (s', Ok tt) ->
  file_at root_path s' p = Some (Xml doc).
Proof.
  unfold file_write, file_at. destruct (encodable env doc); [|done].
  destruct (under_root root_path p) as [segs|].
  - intros H. apply bind_Ok in H as (d & s1 & Hd & H). injection Hd as <- <-.
    destruct (write_at segs _ (Dir (disk s))) as [[|d']|] eqn:Hw; try done.
    injection H as <-. simpl. by rewrite (resolve_write_at _ _ _ _ Hw).
  - intros [= <-]. simpl. by rewrite get_put_key.
Qed.


Lemma lift_Ok {A} (r : result A) s s' a : lift r s = (s', Ok a) -> r = Ok a /\ s' = s.
Proof. unfold lift. by intros [= -> ->]. Qed.

Lemma getitem_Ok d k v : getitem d k = Ok v -> d !! k = Some v.
Proof. unfold getitem. destruct (d !! k); by intros [= ->]. Qed.

(** What [mets_root] leaves in the store: one new element, the root. *)
Lemma mets_root_inv env root_path pid pt sf s s' r :
  mets_root env root_path pid pt sf s = (s', Ok r) ->
  exists objid folder,
    attr_value pid = Ok objid /\ as_path sf = Ok folder /\
    r = length (heap s) /\ disk s' = disk s /\
    heap s' = heap s ++
      [Node (q METS_NS "mets")
         (METS_ATTRIBUTES objid pt ++
          [(q XSI_NS "schemaLocation",
            schemaLocation (recorded_mets_location env root_path (disk s) folder)
                           (recorded_xlink_location env root_path (disk s) folder))])
         "" []].
Proof.
  unfold mets_root, create. intros H.
  apply bind_Ok in H as (objid & s0 & H0 & H). apply lift_Ok in H0 as [Hobj ->].
  rewrite (bind_eq _ _ _ _ _ (load_layout _ _)) in H.
  apply bind_Ok in H as (folder & s1 & H1 & H). apply lift_Ok in H1 as [Hfolder ->].
  exists objid, folder. repeat split; try done.
  all: unfold mets_schema_location_of, xlink_schema_location_of, isfile, set_attrib,
         modify, bind, gets, ret in H; simpl in H; injection H as <- <-; simpl; try done.
  rewrite alter_app_r_alt by done. by rewrite Nat.sub_diag.
Qed.

Lemma mets_skeleton_inv env root_path md s s1 L :
  mets_skeleton env root_path md s = (s1, Ok L) ->
  exists sf par sa sb sc sd se sf' id,
    md !! "packageid" = Some (packageid L) /\ md !! "type" = Some (packagetype L) /\
    md !! "schemas" = Some sf /\ md !! "parent" = Some par /\
    mets_root env root_path (packageid L) (packagetype L) sf (set_mets_data (Some md) s)
      = (sa, Ok (root L)) /\
    extends sa sb /\
    attach (root L) (E "fileSec" [("ID", id)] "" []) sb = (sc, Ok (mets_fileSec L)) /\
    file_groups env root_path (mets_fileSec L) sc = (sd, Ok (mets_filegroups L)) /\
    physical_map env (root L) (packageid L) sd = (se, Ok (package_div L)) /\
    logical_map env (root L) (packagetype L) se
      = (sf', Ok (mets_structmap_metadata_div L, mets_structmap_schema_div L,
                  mets_structmap_content_div L)) /\
    parent_map env (root L) (packageid L) (packagetype L) par sf' = (s1, Ok tt).
Proof.
  unfold mets_skeleton. intros H.
  apply bind_Ok in H as (u & s0 & H0 & H). injection H0 as <- _.
  apply bind_Ok in H as (pid & s' & Hpid & H). apply lift_Ok in Hpid as [Hpid ->].
  apply bind_Ok in H as (pt & s' & Hpt & H). apply lift_Ok in Hpt as [Hpt ->].
  apply bind_Ok in H as (sf & s' & Hsf & H). apply lift_Ok in Hsf as [Hsf ->].
  apply bind_Ok in H as (par & s' & Hpar & H). apply lift_Ok in Hpar as [Hpar ->].
  apply getitem_Ok in Hpid, Hpt, Hsf, Hpar.
  apply bind_Ok in H as (root & sa & Hroot & H).
  apply bind_Ok in H as (u1 & s2 & Hhdr & H).
  apply bind_Ok in H as (id1 & s3 & Hid1 & H).
  apply bind_Ok in H as (amd & s4 & Hamd & H).
  apply bind_Ok in H as (id2 & sb & Hid2 & H).
  apply bind_Ok in H as (fs & sc & Hfs & H).
  apply bind_Ok in H as (groups & sd & Hgroups & H).
  apply bind_Ok in H as (pd & se & Hpd & H).
  apply bind_Ok in H as ([[md_div sch_div] cont_div] & sf' & Hdivs & H).
  apply bind_Ok in H as ([] & sg & Hpar' & H).
  injection H as <- <-. simpl.
  exists sf, par, sa, sb, sc, sd, se, sf', id2.
  do 5 (split; [done|]). split; [|by split_and!].
  pose proof (extends_mets_header env root pt sa) as E1. rewrite Hhdr in E1.
  pose proof (extends_fresh_id env s2) as E2. rewrite Hid1 in E2.
  pose proof (extends_attach root (E "amdSec" [("ID", id1)] "" []) s3) as E3.
  rewrite Hamd in E3.
  pose proof (extends_fresh_id env s4) as E4. rewrite Hid2 in E4.
  simpl in *. eauto using extends_trans.
Qed.

Lemma extends_node s s' r n :
  extends s s' -> heap s !! r = Some n ->
  exists n', heap s' !! r = Some n' /\ tag n' = tag n /\ attrib n' = attrib n.
Proof.
  intros [H _] Hr. destruct (hext_node _ _ H r n Hr) as (n' & ? & ? & ? & _). eauto.
Qed.

Lemma always_run {A} R (m : M A) s s' r : always R m -> m s = (s', r) -> R s s'.
Proof. intros H E. specialize (H s). by rewrite E in H. Qed.

Lemma extends_skeleton_tail env root_path s1 L sa sb sc sd se sf' id par :
  extends sa sb ->
  attach (root L) (E "fileSec" [("ID", id)] "" []) sb = (sc, Ok (mets_fileSec L)) ->
  file_groups env root_path (mets_fileSec L) sc = (sd, Ok (mets_filegroups L)) ->
  physical_map env (root L) (packageid L) sd = (se, Ok (package_div L)) ->
  logical_map env (root L) (packagetype L) se
    = (sf', Ok (mets_structmap_metadata_div L, mets_structmap_schema_div L,
                mets_structmap_content_div L)) ->
  parent_map env (root L) (packageid L) (packagetype L) par sf' = (s1, Ok tt) ->
  extends sa s1.
Proof.
  intros E1 Hfs Hg Hp Hl Hpar.
  apply (always_run _ _ _ _ _ (extends_attach _ _)) in Hfs.
  apply (always_run _ _ _ _ _ (extends_file_groups _ _ _)) in Hg.
  apply (always_run _ _ _ _ _ (extends_physical_map _ _ _)) in Hp.
  apply (always_run _ _ _ _ _ (extends_logical_map _ _ _)) in Hl.
  apply (always_run _ _ _ _ _ (extends_parent_map _ _ _ _ _)) in Hpar.
  eauto 10 using extends_trans.
Qed.

(** C6, amended: applied to a descriptor that [createMets] has written,
    [get_mets_schema_from_schema_location] answers the reader's root
    directory string followed by (the first space-separated field of) the
    location of the METS schema recorded at generation time: the path of
    [<schema folder>/mets.xsd] relative to the package root when that file
    exists, [schemas/mets.xsd] otherwise. *)
Theorem schema_location_round_trip env root_path md mets_file_path s s' rdir :
  createMets env root_path md mets_file_path s = (s', Ok tt) ->
  exists schemafolder doc,
    md !! "schemas" = Some (PyStr schemafolder) /\
    file_at root_path s' (mets_target root_path mets_file_path) = Some (Xml doc) /\
    get_mets_schema_from_schema_location {| root_dir := rdir; mets_tree := Some doc |}
    = Ok (rdir +:+ first_field (recorded_mets_location env root_path (disk s) schemafolder)).
Proof.
  unfold createMets. intros H.
  apply bind_Ok in H as (L & s1 & Hskel & H).
  apply bind_Ok in H as (u & s2 & Hwalk & H).
  apply bind_Ok in H as (str & s3 & Hstr & H).
  apply bind_Ok in H as (u' & s4 & Hopen & H).
  apply bind_Ok in H as (text & s5 & Hdec & H). apply lift_Ok in Hdec as [Hdec ->].
  (* the serialised document *)
  unfold etree_tostring in Hstr.
  apply bind_Ok in Hstr as (h & s6 & Hh & Hstr). injection Hh as <- <-.
  destruct (reify _ (heap s2) (root L)) as [doc|] eqn:Hdoc; [|done].
  injection Hstr as <- <-. simpl in Hdec. injection Hdec as <-.
  apply reify_top in Hdoc as (n2 & Hn2 & Htag & Hattr).
  (* its root element *)
  apply mets_skeleton_inv in Hskel
    as (sf & par & sa & sb & sc & sd & se & sf' & id & _ & _ & Hsf & _ & Hroot & E1 &
        Hfs & Hg & Hp & Hl & Hpar).
  apply mets_root_inv in Hroot as (objid & folder & _ & Hfolder & Hr & _ & Hheap).
  destruct sf as [|folder'|]; try done. injection Hfolder as ->.
  assert (extends sa s2) as Ext.
  { eapply extends_trans; [by eapply extends_skeleton_tail|].
    by eapply always_run; [apply extends_walk|]. }
  assert (heap sa !! root L = Some
            (Node (q METS_NS "mets")
               (METS_ATTRIBUTES objid (packagetype L) ++
                [(q XSI_NS "schemaLocation",
                  schemaLocation (recorded_mets_location env root_path (disk s) folder)
                    (recorded_xlink_location env root_path (disk s) folder))]) "" []))
    as Hnode.
  { rewrite Hheap, Hr. by rewrite list_lookup_middle. }
  destruct (extends_node _ _ _ _ Ext Hnode) as (n' & Hn' & Ht' & Ha').
  assert (Some n' = Some n2) as [= ->] by (rewrite <- Hn'; exact Hn2).
  simpl in Ht', Ha'.
  exists folder, doc. split; [done|]. split; [by eapply file_write_file_at|].
  eapply reader_schema_location with (xsl := recorded_xlink_location env root_path (disk s) folder).
  - congruence.
  - unfold xpath_attribute. rewrite Hattr, Ha'. done.
Qed.

Lemma schema_location_round_trip_witness :
  exists schemafolder doc,
    sample_mets_data !! "schemas" = Some (PyStr schemafolder) /\
    file_at "/pkg" (createMets posix_env "/pkg" sample_mets_data None (initial pkg_schemas)).1
      (mets_target "/pkg" None) = Some (Xml doc) /\
    get_mets_schema_from_schema_location {| root_dir := "/pkg/"; mets_tree := Some doc |}
    = Ok ("/pkg/" +:+ first_field
            (recorded_mets_location posix_env "/pkg" (disk (initial pkg_schemas)) schemafolder)).
Proof.
  apply (schema_location_round_trip posix_env "/pkg" sample_mets_data None
           (initial pkg_schemas)
           (createMets posix_env "/pkg" sample_mets_data None (initial pkg_schemas)).1
           "/pkg/").
  vm_compute. reflexivity.
Defined.

(** C6 fails as stated: for a package generated with the schema folder
    [/pkg/schemas], which holds mets.xsd, the reader answers a path to the
    schema file, glued to the root directory string, not the schema folder. *)
Lemma schema_location_is_not_the_folder :
  let run := createMets posix_env "/pkg" sample_mets_data None (initial pkg_schemas) in
  sample_mets_data !! "schemas" = Some (PyStr "/pkg/schemas") /\
  run.2 = Ok tt /\
  (doc ← descriptor run.1;
   Some (get_mets_schema_from_schema_location {| root_dir := "/pkg"; mets_tree := Some doc |}))
    = Some (Ok "/pkgschemas/mets.xsd") /\
  (doc ← descriptor run.1;
   Some (get_mets_schema_from_schema_location {| root_dir := "/pkg/"; mets_tree := Some doc |}))
    = Some (Ok "/pkg/schemas/mets.xsd").
Proof. vm_compute. repeat split. Qed.

Lemma lookup_unique (h : list node) (r : ref) n n' :
  h !! r = Some n -> h !! r = Some n' -> n = n'.
Proof. congruence. Qed.

Lemma forest_nil : forest [].
Proof. split; intros ? *; by rewrite lookup_nil. Qed.

Lemma edge_valid h p c : wf h -> edge h p c -> c < length h.
Proof. intros W (n & Hn & Hc). by eapply W. Qed.

Lemma hext_edge h h' p c : hext h h' -> edge h p c -> edge h' p c.
Proof.
  intros H (n & Hn & Hc). destruct (hext_node _ _ H p n Hn) as (n' & Hn' & _ & _ & _ & Hs).
  exists n'. split; [done|]. by apply Hs.
Qed.

Lemma covered_mono pd h h' f : hext h h' -> covered pd h f -> covered pd h' f.
Proof.
  intros H (d & p & np & nf & id & E1 & E2 & Hp & Ht & Hid & Hf & Hfid).
  destruct (hext_node _ _ H p np Hp) as (np' & Hp' & Htp & Hap & _).
  destruct (hext_node _ _ H f nf Hf) as (nf' & Hf' & Htf & Haf & _).
  exists d, p, np', nf', id. split_and!; eauto using hext_edge; congruence.
Qed.

Lemma division_mono pd h h' d : hext h h' -> division pd h d -> division pd h' d.
Proof.
  intros H. destruct d as [d|]; [|done]. intros [E L]. split; [by eapply hext_edge|].
  pose proof (hext_length _ _ H). lia.
Qed.

Lemma quiet_refl s : quiet s s.
Proof. split; [apply extends_refl|]. intros; by left. Qed.

Lemma quiet_trans a b c : quiet a b -> quiet b c -> quiet a c.
Proof.
  intros [E1 Q1] [E2 Q2]. split; [by eapply extends_trans|].
  intros p x Hx. destruct (Q2 p x Hx) as [Hb|Hn]; [|by right].
  destruct (Q1 p x Hb) as [Ha|(nc & Hc & Ht)]; [by left|right].
  destruct E2 as [E2 _]. destruct (hext_node _ _ E2 x nc Hc) as (nc' & Hc' & Ht' & _).
  exists nc'. split; [done|congruence].
Qed.

(** A quiet step keeps the file elements of a group covered. *)
Lemma cov_quiet pd g x s s' :
  forest (heap s) -> quiet s s' -> cov pd g x (heap s) -> cov pd g x (heap s').
Proof.
  intros [W _] [[E _] Q] C f nf Hgf Hf Ht Hx.
  destruct (Q g f Hgf) as [Hold|(nc & Hc & Hnt)].
  - pose proof (edge_valid _ _ _ W Hold) as Hv.
    destruct (lookup_lt_is_Some_2 _ _ Hv) as [nf0 Hf0].
    destruct (hext_node _ _ E f nf0 Hf0) as (nf' & Hf' & Htf & _).
    assert (nf' = nf) as -> by (by eapply lookup_unique).
    eapply covered_mono; [done|]. eapply C; eauto. congruence.
  - assert (nc = nf) as -> by (by eapply lookup_unique). done.
Qed.

Lemma quiet_modify (f : state -> state) :
  (forall s, heap (f s) = heap s /\ disk (f s) = disk s) -> always quiet (modify f).
Proof.
  intros H s. unfold modify. simpl. destruct (H s) as [Hh Hd].
  split; [by apply extends_modify|]. intros p c. rewrite Hh. by left.
Qed.

Lemma quiet_fresh_id env : always quiet (fresh_id env).
Proof. intros s. split; [apply extends_fresh_id|]. intros; by left. Qed.

Lemma quiet_logger level msg : always quiet (logger level msg).
Proof. by apply quiet_modify. Qed.

Lemma add_child_children c m y :
  y ∈ children (add_child c m) <-> y ∈ children m \/ y = c.
Proof. apply add_child_spec. Qed.

Lemma insert_child_children i c m y :
  y ∈ children (insert_child i c m) <-> y ∈ children m \/ y = c.
Proof. apply insert_child_spec. Qed.

(** The edges after a leaf has been hung below [p]. *)
Lemma leaf_edges h f c p n q x :
  children n = [] ->
  (forall m y, y ∈ children (f m) <-> y ∈ children m \/ y = c) ->
  c = length h ->
  edge (alter f p (h ++ [n])) q x -> edge h q x \/ x = c.
Proof.
  intros Hn Hf -> (m & Hm & Hx).
  destruct (decide (q = p)) as [->|Hne].
  - rewrite list_lookup_alter_eq in Hm.
    destruct ((h ++ [n]) !! p) as [m0|] eqn:Hm0; [|done]. injection Hm as <-.
    apply Hf in Hx as [Hx|Hx]; [|by right]. left.
    destruct (decide (p < length h)) as [Hlt|Hge].
    + rewrite lookup_app_l in Hm0 by done. by exists m0.
    + assert (p = length h) as ->.
      { apply lookup_lt_Some in Hm0. rewrite length_app in Hm0. simpl in Hm0. lia. }
      rewrite list_lookup_middle in Hm0 by done. injection Hm0 as <-.
      rewrite Hn in Hx. by apply elem_of_nil in Hx.
  - rewrite list_lookup_alter_ne in Hm by done.
    destruct (decide (q < length h)) as [Hlt|Hge].
    + rewrite lookup_app_l in Hm by done. left. by exists m.
    + assert (q = length h) as ->.
      { apply lookup_lt_Some in Hm. rewrite length_app in Hm. simpl in Hm. lia. }
      rewrite list_lookup_middle in Hm by done. injection Hm as <-.
      rewrite Hn in Hx. by apply elem_of_nil in Hx.
Qed.

(** The new leaf itself, after it has been hung below [p]. *)
Lemma leaf_node h f p n :
  (forall m, tag (f m) = tag m /\ attrib (f m) = attrib m) ->
  exists n', alter f p (h ++ [n]) !! length h = Some n' /\
             tag n' = tag n /\ attrib n' = attrib n.
Proof.
  intros Hf. destruct (decide (p = length h)) as [->|Hne].
  - rewrite list_lookup_alter_eq, list_lookup_middle by done. simpl.
    exists (f n). split; [done|apply Hf].
  - rewrite list_lookup_alter_ne, list_lookup_middle by done. eauto.
Qed.

Lemma attach_leaf_node p t a x s s' c :
  attach p (Element t a x []) s = (s', Ok c) ->
  c = length (heap s) /\
  exists n, heap s' !! c = Some n /\ tag n = t /\ attrib n = a.
Proof.
  rewrite attach_eq. intros [= <- <-]. split; [done|]. simpl.
  apply leaf_node. by intros m.
Qed.

Lemma quiet_attach_leaf p t a x :
  t <> file_tag -> always quiet (attach p (Element t a x [])).
Proof.
  intros Ht s. split; [apply extends_attach|].
  rewrite attach_eq. simpl. intros q0 c He.
  destruct (leaf_edges (heap s) _ _ p (Node t a x []) _ _ eq_refl (add_child_children _) eq_refl He)
    as [Hold| ->]; [by left|].
  right. destruct (leaf_node (heap s) (add_child (length (heap s))) p (Node t a x []))
    as (n' & Hn' & Htn & _); [by intros m|]. exists n'. split; [done|]. by rewrite Htn.
Qed.

Lemma quiet_insert_leaf p i t a x :
  t <> file_tag -> always quiet (insert_new p i (Element t a x [])).
Proof.
  intros Ht s. split; [apply extends_insert_new|].
  rewrite insert_new_eq. simpl. intros q0 c He.
  destruct (leaf_edges (heap s) _ _ p (Node t a x []) _ _ eq_refl (insert_child_children i _) eq_refl He)
    as [Hold| ->]; [by left|].
  right. destruct (leaf_node (heap s) (insert_child i (length (heap s))) p (Node t a x []))
    as (n' & Hn' & Htn & _); [by intros m|]. exists n'. split; [done|]. by rewrite Htn.
Qed.

Ltac quiet_prim :=
  first [ apply quiet_fresh_id | apply quiet_logger
        | apply quiet_attach_leaf; cbv; discriminate
        | apply quiet_insert_leaf; cbv; discriminate ].

(** One step of a proof of [always R m], chosen by the shape of [m]. *)
Ltac always_shape R Hr Ht prim :=
  lazymatch goal with
  | |- always _ (ret _) => apply (always_ret R Hr)
  | |- always _ (raise _) => apply (always_raise R Hr)
  | |- always _ (lift _) => apply (always_lift R Hr)
  | |- always _ (gets _) => apply (always_gets R Hr)
  | |- always _ (bind _ _) => apply (always_bind R Ht); [|intros ?]
  | |- always _ (for_each _ _) => apply (always_for_each R Hr Ht); intros ?
  | |- always _ (for_fold _ _ _) => apply (always_for_fold R Hr Ht); intros ? ?
  | |- always _ (os_walk _ _ _) => apply (always_os_walk R Hr Ht); intros ? ? ?
  | |- always _ (walk_entry _ _ _) => apply (always_walk_entry R Hr Ht); intros ? ? ?
  | |- always _ (try_except _ _) =>
      apply (always_try_except R Ht);
      [|let e := fresh "e" in let h := fresh "h" in let He := fresh "He" in
        intros e h He; destruct e; simplify_eq/=]
  | |- always _ (match ?x with _ => _ end) => destruct x
  | |- always _ _ => first [ prim | progress (cbv beta zeta) ]
  end.

Ltac quiet_auto :=
  unfold new_physical_div, metadata_branch, reference_metadata, new_dmdSec,
    new_digiprovMD, make_mdref, append_fptr, attach_to,
    read_file, listdir, isfile, first_walk_dirnames, locate;
  repeat (always_shape quiet quiet_refl quiet_trans quiet_prim).

Lemma quiet_subdir_groups env fileSec subdirs groups :
  always quiet (subdir_groups env fileSec subdirs groups).
Proof.
  revert groups. induction subdirs as [|d l IH]; intros groups; simpl; quiet_auto.
  all: apply IH.
Qed.

Lemma quiet_physical_map env root packageid :
  always quiet (physical_map env root packageid).
Proof. unfold physical_map. quiet_auto. Qed.

Lemma quiet_logical_map env root packagetype :
  always quiet (logical_map env root packagetype).
Proof. unfold logical_map. quiet_auto. Qed.

Lemma quiet_parent_map env root packageid packagetype parent :
  always quiet (parent_map env root packageid packagetype parent).
Proof. unfold parent_map. quiet_auto. Qed.

Lemma quiet_new_physical_div env L path :
  always quiet (new_physical_div env L path).
Proof. quiet_auto. Qed.

Lemma quiet_metadata_branch env root_path L directory filenames physical_div :
  always quiet (metadata_branch env root_path L directory filenames physical_div).
Proof. quiet_auto. Qed.

Lemma quiet_append_fptr p id : always quiet (append_fptr p id).
Proof. quiet_auto. Qed.

Lemma quiet_read_file root_path p : always quiet (read_file root_path p).
Proof. quiet_auto. Qed.

(** Hanging a new leaf below any element: the file elements of [g] other
    than the new leaf stay covered. *)
Lemma cov_attach_leaf pd g p t a x s s' c :
  forest (heap s) -> cov pd g None (heap s) ->
  attach p (Element t a x []) s = (s', Ok c) ->
  cov pd g (Some c) (heap s').
Proof.
  intros [W _] C H.
  pose proof (always_run _ _ _ _ _ (extends_attach _ _) H) as [E _].
  rewrite attach_eq in H. injection H as <- <-. simpl in *.
  intros f nf Hgf Hf Ht Hx.
  destruct (leaf_edges (heap s) _ _ p (Node t a x []) _ _ eq_refl (add_child_children _) eq_refl Hgf)
    as [Hold| ->]; [|done].
  pose proof (edge_valid _ _ _ W Hold) as Hv.
  destruct (lookup_lt_is_Some_2 _ _ Hv) as [nf0 Hf0].
  destruct (hext_node _ _ E f nf0 Hf0) as (nf' & Hf' & Htf & _).
  assert (nf' = nf) as -> by (by eapply lookup_unique).
  eapply covered_mono; [done|]. eapply C; eauto. congruence.
Qed.

(** The pointer appended to the physical division covers the file element
    that was left out. *)
Lemma cover_new pd g c d id s s' nc :
  forest (heap s) -> cov pd g (Some c) (heap s) -> division pd (heap s) (Some d) ->
  heap s !! c = Some nc -> get_key "ID" (attrib nc) = Some id ->
  append_fptr (Some d) id s = (s', Ok tt) ->
  cov pd g None (heap s').
Proof.
  intros F C [Epd Hd] Hc Hid H.
  pose proof (always_run _ _ _ _ _ (quiet_append_fptr _ _) H) as Q.
  pose proof (cov_quiet _ _ _ _ _ F Q C) as C'. destruct Q as [[E _] _].
  unfold append_fptr, attach_to in H.
  apply bind_Ok in H as (p & s1 & Hp & H). injection H as <-.
  intros f nf Hgf Hf Ht _. destruct (decide (f = c)) as [->|Hne].
  - destruct (attach_leaf_node _ _ _ _ _ _ _ Hp) as (-> & np & Hnp & Htp & Hap).
    destruct (hext_node _ _ E c nc Hc) as (nc' & Hc' & _ & Hac & _).
    exists d, (length (heap s)), np, nc', id. split_and!; try done.
    + by eapply hext_edge.
    + rewrite attach_eq in Hp. injection Hp as <-. simpl.
      destruct (lookup_lt_is_Some_2 _ _ Hd) as [nd Hnd].
      exists (add_child (length (heap s)) nd). split.
      * rewrite list_lookup_alter_eq, lookup_app_l, Hnd; done.
      * simpl. apply elem_of_app. right. by apply list_elem_of_singleton.
    + by rewrite Hap.
    + by rewrite Hac.
  - eapply C'; eauto. congruence.
Qed.

(** [addFile]: the new file element is left out for the moment. *)
Lemma addFile_cov env root_path pd g0 file_name g s s' id :
  forest (heap s) -> cov pd g0 None (heap s) ->
  addFile env root_path file_name g s = (s', Ok id) ->
  exists c nc, cov pd g0 (Some c) (heap s') /\
               heap s' !! c = Some nc /\ get_key "ID" (attrib nc) = Some id.
Proof.
  intros F C H. unfold addFile in H.
  apply bind_Ok in H as (f & s1 & H1 & H).
  apply bind_Ok in H as (file_id & s2 & H2 & H).
  apply bind_Ok in H as (c & s3 & H3 & H).
  apply bind_Ok in H as (c2 & s4 & H4 & H). injection H as <- <-.
  apply (always_run _ _ _ _ _ (quiet_read_file _ _)) in H1.
  apply (always_run _ _ _ _ _ (quiet_fresh_id _)) in H2.
  pose proof (quiet_trans _ _ _ H1 H2) as Q12.
  assert (forest (heap s2)) as F2 by (destruct Q12 as [[E _] _]; by eapply hext_forest).
  pose proof (cov_quiet _ _ _ _ _ F Q12 C) as C2.
  pose proof (cov_attach_leaf _ _ _ _ _ _ _ _ _ F2 C2 H3) as C3.
  destruct (attach_leaf_node _ _ _ _ _ _ _ H3) as (_ & nc & Hnc & _ & Ha).
  pose proof (always_run _ _ _ _ _ (extends_attach _ _) H3) as [E3 _].
  assert (quiet s3 s4) as Q4.
  { eapply always_run; [|exact H4]. apply quiet_attach_leaf. cbv. discriminate. }
  pose proof (cov_quiet _ _ _ _ _ (hext_forest _ _ E3 F2) Q4 C3) as C4.
  destruct Q4 as [[E4 _] _].
  destruct (hext_node _ _ E4 c nc Hnc) as (nc' & Hnc' & _ & Ha' & _).
  exists c, nc'. split_and!; [done|done|]. rewrite Ha', Ha. done.
Qed.

Lemma walk_inv_quiet pd g s s' : walk_inv pd g s -> quiet s s' -> walk_inv pd g s'.
Proof.
  intros (F & Hpd & C) Q. pose proof (cov_quiet _ _ _ _ _ F Q C).
  destruct Q as [[E _] _]. split_and!; [by eapply hext_forest| |done].
  pose proof (hext_length _ _ E). lia.
Qed.

Lemma extends_addFile_ env root_path file_name g :
  always extends (addFile env root_path file_name g).
Proof. extends_auto. Qed.

(** The statements every branch that registers a file ends with. *)
Lemma register_file_inv env root_path pd g0 file_name g div physical_div s s' :
  walk_inv pd g0 s -> division pd (heap s) physical_div ->
  (id <- addFile env root_path file_name g;;
   match div with Some r => append_fptr (Some r) id | None => ret tt end;;
   append_fptr physical_div id) s = (s', Ok tt) ->
  walk_inv pd g0 s'.
Proof.
  intros (F & Hpd & C) D H.
  apply bind_Ok in H as (id & s1 & H1 & H).
  apply bind_Ok in H as (u & s2 & H2 & H).
  destruct physical_div as [d|]; [|done].
  pose proof (always_run _ _ _ _ _ (extends_addFile_ _ _ _ _) H1) as [E1 _].
  destruct (addFile_cov _ _ _ _ _ _ _ _ _ F C H1) as (c & nc & C1 & Hc & Hid).
  assert (quiet s1 s2) as Q2.
  { destruct div; [by eapply always_run; [apply quiet_append_fptr|]|].
    injection H2 as <-. apply quiet_refl. }
  pose proof (hext_forest _ _ E1 F) as F1.
  pose proof (cov_quiet _ _ _ _ _ F1 Q2 C1) as C2. destruct Q2 as [[E2 _] _].
  destruct (hext_node _ _ E2 c nc Hc) as (nc' & Hc' & _ & Ha & _).
  pose proof (always_run _ _ _ _ _ (quiet_append_fptr _ _) H) as [[E3 _] _].
  pose proof (hext_trans _ _ _ E1 E2) as E12.
  split_and!.
  - eauto using hext_forest.
  - pose proof (hext_length _ _ E12). pose proof (hext_length _ _ E3). lia.
  - eapply cover_new; [by eapply hext_forest|done|by eapply division_mono|done| |done].
    by rewrite Ha.
Qed.

Lemma bind_Raise {A B} (m : M A) (k : A -> M B) s s' e :
  bind m k s = (s', Raise e) ->
  m s = (s', Raise e) \/ exists a s1, m s = (s1, Ok a) /\ k a s1 = (s', Raise e).
Proof.
  unfold bind. destruct (m s) as [s1 [a|e']]; [eauto|]. intros [= -> ->]. by left.
Qed.

Lemma raises_only_bind P {A B} (m : M A) (k : A -> M B) :
  raises_only P m -> (forall a, raises_only P (k a)) -> raises_only P (bind m k).
Proof.
  intros Hm Hk s s' e H. apply bind_Raise in H as [H|(a & s1 & _ & H)].
  - by eapply Hm.
  - by eapply Hk.
Qed.

Lemma raises_only_attach P p e : raises_only P (attach p e).
Proof. intros s s' e'. by rewrite attach_eq. Qed.

Lemma raises_only_read_file root_path p : raises_only not_KeyError (read_file root_path p).
Proof.
  intros s s' e. unfold read_file, locate, bind, gets.
  destruct (locate_on _ _ _) as [[]|]; by intros [= _ <-].
Qed.

Lemma raises_only_append_fptr p id : raises_only not_KeyError (append_fptr p id).
Proof.
  intros s s' e. unfold append_fptr, attach_to. destruct p as [r|].
  - unfold bind. by rewrite attach_eq.
  - by intros [= _ <-].
Qed.

Lemma raises_only_addFile env root_path file_name g :
  raises_only not_KeyError (addFile env root_path file_name g).
Proof.
  unfold addFile.
  apply raises_only_bind; [apply raises_only_read_file|]. intros f.
  apply raises_only_bind; [by intros s s' e|]. intros id.
  apply raises_only_bind; [apply raises_only_attach|]. intros c.
  apply raises_only_bind; [apply raises_only_attach|]. by intros c2 s s' e.
Qed.

Lemma try_except_Ok {A} (m : M A) handler s s' a :
  try_except m handler s = (s', Ok a) ->
  m s = (s', Ok a) \/
  exists s1 e h, m s = (s1, Raise e) /\ handler e = Some h /\ h s1 = (s', Ok a).
Proof.
  unfold try_except. destruct (m s) as [s1 [a'|e]]; [by left|].
  destruct (handler e) as [h|] eqn:He; [|done]. intros H. right. eauto 10.
Qed.

Lemma schema_file_inv env root_path L g0 directory role physical_div filename s s' :
  walk_inv (package_div L) g0 s -> division (package_div L) (heap s) physical_div ->
  schema_file env root_path L directory role physical_div filename s = (s', Ok tt) ->
  walk_inv (package_div L) g0 s'.
Proof.
  intros I D H. unfold schema_file in H.
  apply bind_Ok in H as (g & s1 & Hg & H). apply lift_Ok in Hg as [_ ->].
  by eapply (register_file_inv _ _ _ _ _ _ (Some (mets_structmap_schema_div L))).
Qed.

Lemma nested_mets_inv env root_path L g0 directory role physical_div filename s s' :
  walk_inv (package_div L) g0 s -> division (package_div L) (heap s) physical_div ->
  nested_mets env root_path L directory role physical_div filename s = (s', Ok tt) ->
  walk_inv (package_div L) g0 s'.
Proof.
  intros I D H. unfold nested_mets in H.
  apply bind_Ok in H as (rep & s1 & Hr & H). apply lift_Ok in Hr as [_ ->].
  apply bind_Ok in H as (id & s2 & Hid & H).
  apply bind_Ok in H as (u & s3 & Hm & H).
  apply bind_Ok in H as (g & s4 & Hg & H). apply lift_Ok in Hg as [_ ->].
  apply (always_run _ _ _ _ _ (quiet_fresh_id _)) in Hid.
  assert (quiet s2 s3) as Q3.
  { eapply always_run; [|exact Hm]. unfold attach_to.
    repeat (always_step quiet quiet_refl quiet_trans quiet_prim). }
  pose proof (quiet_trans _ _ _ Hid Q3) as Q.
  eapply (register_file_inv _ _ _ _ _ _ None physical_div s3).
  - by eapply walk_inv_quiet.
  - destruct Q as [[E _] _]. by eapply division_mono.
  - exact H.
Qed.

Lemma other_file_inv env root_path L g0 directory role physical_div filename s s' :
  walk_inv (package_div L) g0 s -> division (package_div L) (heap s) physical_div ->
  other_file env root_path L directory role physical_div filename s = (s', Ok tt) ->
  walk_inv (package_div L) g0 s'.
Proof.
  intros I D H. unfold other_file in H.
  apply try_except_Ok in H as [H|(s1 & e & h & H & He & Hh)].
  - apply bind_Ok in H as (g & s1 & Hg & H). apply lift_Ok in Hg as [_ ->].
    by eapply (register_file_inv _ _ _ _ _ _ (Some (mets_structmap_content_div L))).
  - destruct e; try done. injection He as <-.
    apply bind_Raise in H as [H|(g & s2 & Hg & H)].
    + unfold lift in H. injection H as <- _.
      eapply walk_inv_quiet; [done|]. by eapply always_run; [apply quiet_logger|].
    + exfalso. revert H.
      assert (raises_only not_KeyError
                (id <- addFile env root_path (path_join directory filename) g;;
                 append_fptr (Some (mets_structmap_content_div L)) id;;
                 append_fptr physical_div id)) as R.
      { apply raises_only_bind; [apply raises_only_addFile|]. intros id.
        apply raises_only_bind; [apply raises_only_append_fptr|]. intros _.
        apply raises_only_append_fptr. }
      intros H. by apply R in H.
Qed.

Ltac extends_fast :=
  unfold createAgent, new_physical_div, content_file, nested_mets, schema_file,
    other_file, metadata_branch, reference_metadata, new_dmdSec, new_digiprovMD,
    addFile, make_mdref, append_fptr, attach_to, create,
    read_file, listdir, isfile, first_walk_dirnames, locate;
  repeat (always_shape extends extends_refl extends_trans extends_prim).

Lemma for_fold_okinv {A S} (I : state -> Prop) (l : list A) (acc : S) body :
  (forall a x, okinv I (body a x)) -> okinv I (for_fold l acc body).
Proof.
  intros Hb. revert acc. induction l as [|x l IH]; intros acc s s' b HI H; simpl in H.
  - by injection H as <- _.
  - apply bind_Ok in H as (a & s1 & H1 & H). eapply IH; [|exact H]. by eapply Hb.
Qed.

Lemma walk_entry_okinv (I : state -> Prop) body top e :
  (forall t d f, okinv I (body t d f)) -> okinv I (walk_entry body top e).
Proof.
  intros Hb. revert top. induction e as [t c|es IH] using entry_ind'; intros top s s' u HI H.
  - by injection H as <- _.
  - simpl in H. apply bind_Ok in H as (pruned & s1 & H1 & H).
    pose proof (Hb _ _ _ _ _ _ HI H1) as I1. clear HI H1.
    destruct pruned; [by injection H as <- _|].
    revert s1 I1 H. induction IH as [|[n e] es He _ IHes]; intros s1 I1 H; simpl in H.
    + by injection H as <- _.
    + apply bind_Ok in H as (u1 & s2 & H2 & H). eapply IHes; [|exact H]. by eapply He.
Qed.

Lemma os_walk_okinv (I : state -> Prop) root_path top body :
  (forall t d f, okinv I (body t d f)) -> okinv I (os_walk root_path top body).
Proof.
  intros Hb s s' u HI H. unfold os_walk, locate in H.
  apply bind_Ok in H as (e & s1 & H1 & H). injection H1 as <- <-.
  destruct (locate_on _ _ _) as [e|]; [by eapply walk_entry_okinv|by injection H as <- _].
Qed.

Lemma extends_content_file env root_path L directory role physical_div emptied filename :
  always extends (content_file env root_path L directory role physical_div emptied filename).
Proof. extends_fast. Qed.

Lemma content_file_inv env root_path L g0 directory role physical_div emptied filename :
  okinv (λ s, walk_inv (package_div L) g0 s /\ division (package_div L) (heap s) physical_div)
    (content_file env root_path L directory role physical_div emptied filename).
Proof.
  intros s s' b [I D] H.
  pose proof (always_run _ _ _ _ _ (extends_content_file _ _ _ _ _ _ _ _) H) as [E _].
  split; [|by eapply division_mono]. unfold content_file in H.
  destruct (String.eqb directory root_path); [by injection H as <- _|].
  destruct (String.eqb (lower filename) "mets.xml").
  { apply bind_Ok in H as ([] & s1 & H1 & H). injection H as <- _. by eapply nested_mets_inv. }
  destruct (nonempty filename && endswith directory "schemas").
  { apply bind_Ok in H as ([] & s1 & H1 & H). injection H as <- _. by eapply schema_file_inv. }
  destruct (nonempty filename); [|by injection H as <- _].
  apply bind_Ok in H as ([] & s1 & H1 & H). injection H as <- _. by eapply other_file_inv.
Qed.

Lemma new_physical_div_division env L path s s' d :
  package_div L < length (heap s) ->
  new_physical_div env L path s = (s', Ok d) -> division (package_div L) (heap s') d.
Proof.
  unfold new_physical_div. destruct (negb _); [|by intros _ [= <- <-]].
  intros Hpd H. apply bind_Ok in H as (id & s1 & H1 & H).
  apply bind_Ok in H as (c & s2 & H2 & H). injection H as <- <-.
  injection H1 as <- _. rewrite attach_eq in H2. injection H2 as <- <-. simpl.
  destruct (lookup_lt_is_Some_2 _ _ Hpd) as [n Hn]. split.
  - exists (add_child (length (heap s)) n). split.
    + rewrite list_lookup_alter_eq, lookup_app_l, Hn; done.
    + simpl. apply elem_of_app. right. by apply list_elem_of_singleton.
  - rewrite length_alter, length_app. simpl. lia.
Qed.

Lemma walk_body_inv env root_path L g0 directory subs files :
  okinv (walk_inv (package_div L) g0) (walk_body env root_path L directory subs files).
Proof.
  intros s s' b I H. unfold walk_body in H.
  destruct (String.eqb _ "representations"); [by injection H as <- _|].
  apply bind_Ok in H as (d & s1 & Hd & H).
  pose proof (always_run _ _ _ _ _ (quiet_new_physical_div _ _ _) Hd) as Q.
  pose proof (walk_inv_quiet _ _ _ _ I Q) as I1.
  assert (division (package_div L) (heap s1) d) as D.
  { eapply new_physical_div_division; [|exact Hd]. apply I. }
  destruct (String.eqb directory _).
  - apply bind_Ok in H as (u & s2 & Hm & H). injection H as <- _.
    eapply walk_inv_quiet; [done|]. by eapply always_run; [apply quiet_metadata_branch|].
  - eapply (for_fold_okinv
              (λ s, walk_inv (package_div L) g0 s /\ division (package_div L) (heap s) d)) in H;
      [apply H| |done].
    intros a x. apply content_file_inv.
Qed.

Lemma walk_inv_os_walk env root_path L g0 top :
  okinv (walk_inv (package_div L) g0) (os_walk root_path top (walk_body env root_path L)).
Proof. apply os_walk_okinv. intros. apply walk_body_inv. Qed.

Lemma strip_prefix_refl p : strip_prefix p p = Some "".
Proof. induction p as [|a p IH]; simpl; [done|]. by rewrite Ascii.eqb_refl. Qed.

Lemma under_root_refl root_path : under_root root_path root_path = Some [].
Proof. unfold under_root. by rewrite strip_prefix_refl. Qed.

Lemma locate_on_root root_path d e :
  locate_on root_path d root_path = Some e -> e = Dir d /\ root_path <> "".
Proof.
  unfold locate_on. destruct (String.eqb root_path "") eqn:E; [done|].
  rewrite under_root_refl. simpl. intros [= <-]. split; [done|].
  intros ->. done.
Qed.

Lemma subdir_groups_lookup env fileSec subdirs k : forall groups s s' groups',
  subdir_groups env fileSec subdirs groups s = (s', Ok groups') ->
  k ∉ subdirs -> groups' !! k = groups !! k.
Proof.
  induction subdirs as [|d l IH]; intros groups s s' groups' H Hk; simpl in H.
  - by injection H as _ <-.
  - apply not_elem_of_cons in Hk as [Hkd Hk].
    destruct (bool_decide (d ∈ folders_with_USE)).
    + apply bind_Ok in H as (id & s1 & _ & H). apply bind_Ok in H as (g & s2 & _ & H).
      rewrite (IH _ _ _ _ H Hk). by rewrite lookup_insert_ne.
    + by eapply IH.
Qed.

Lemma attach_fresh p e s s' c :
  attach p e s = (s', Ok c) -> c = length (heap s) /\ c < length (heap s').
Proof.
  rewrite attach_eq. intros [= <- <-]. split; [done|]. simpl.
  rewrite length_alter. apply (grown_length _ _ (layout_grown e (heap s))).
Qed.

Lemma file_groups_inv env root_path fileSec sc sd groups :
  file_groups env root_path fileSec sc = (sd, Ok groups) ->
  exists id sg,
    root_path <> "" /\
    heap sg = heap sc ++
      [Node (q METS_NS "fileGrp") [("ID", id); ("USE", get_folder_with_USE root_path)] "" []] /\
    disk sg = disk sc /\
    subdir_groups env fileSec (dirnames (disk sc))
      (<[get_folder_with_USE root_path := length (heap sc)]> ∅) sg = (sd, Ok groups).
Proof.
  unfold file_groups, create. intros H.
  apply bind_Ok in H as (id & s1 & H1 & H). injection H1 as <- <-.
  rewrite (bind_eq _ _ _ _ _ (load_layout _ _)) in H.
  apply bind_Ok in H as (subdirs & s2 & H2 & H).
  unfold first_walk_dirnames, locate in H2.
  apply bind_Ok in H2 as (e & s3 & H3 & H2). injection H3 as <- <-.
  simpl in H2.
  destruct (locate_on root_path (disk sc) root_path) as [e|] eqn:He; [|done].
  apply locate_on_root in He as [-> Hne]. injection H2 as <- <-.
  eexists _, _. split_and!; [done| | |exact H]; done.
Qed.

Lemma open_w_heap env root_path p s s' r :
  open_w env root_path p s = (s', r) -> heap s' = heap s.
Proof.
  unfold open_w. destruct (under_root root_path p) as [segs|]; [|by intros [= <- _]].
  unfold bind, gets. simpl.
  destruct (write_at _ _ _) as [[|d']|]; by intros [= <- _].
Qed.

Lemma file_write_heap env root_path p data s s' r :
  file_write env root_path p data s = (s', r) -> heap s' = heap s.
Proof.
  unfold file_write. destruct data as [doc|doc]; [by intros [= <- _]|].
  destruct (encodable env doc); [|by intros [= <- _]].
  destruct (under_root root_path p) as [segs|]; [|by intros [= <- _]].
  unfold bind, gets. simpl.
  destruct (write_at _ _ _) as [[|d']|]; by intros [= <- _].
Qed.

(** What a run of [createMets] that returns has done. *)
Lemma createMets_inv env root_path md p s s' :
  createMets env root_path md p s = (s', Ok tt) ->
  exists L s1 s2 doc,
    mets_skeleton env root_path md s = (s1, Ok L) /\
    os_walk root_path root_path (walk_body env root_path L) s1 = (s2, Ok tt) /\
    reify (length (heap s2)) (heap s2) (root L) = Some doc /\
    heap s' = heap s2 /\
    file_at root_path s' (mets_target root_path p) = Some (Xml doc).
Proof.
  unfold createMets. intros H.
  apply bind_Ok in H as (L & s1 & Hskel & H).
  apply bind_Ok in H as ([] & s2 & Hwalk & H).
  apply bind_Ok in H as (str & s3 & Hstr & H).
  apply bind_Ok in H as (u' & s4 & Hopen & H).
  apply bind_Ok in H as (text & s5 & Hdec & H). apply lift_Ok in Hdec as [Hdec ->].
  unfold etree_tostring in Hstr.
  apply bind_Ok in Hstr as (h & s6 & Hh & Hstr). injection Hh as <- <-.
  destruct (reify _ (heap s2) (root L)) as [doc|] eqn:Hdoc; [|done].
  injection Hstr as <- <-. simpl in Hdec. injection Hdec as <-.
  exists L, s1, s2, doc. split_and!; try done.
  - apply open_w_heap in Hopen. apply file_write_heap in H. congruence.
  - by eapply file_write_file_at.
Qed.

Lemma unreachable_below_parentless h r g f :
  unique_parent h -> parentless h g -> edge h g f -> r <> g -> r <> f -> ~ reach h r f.
Proof.
  intros U P Hgf Hg Hf Hr. apply rtc_inv_r in Hr as [->|(p & Hrp & Hpf)]; [done|].
  assert (p = g) as ->.
  { destruct Hpf as (n1 & H1 & Hc1), Hgf as (n2 & H2 & Hc2). by eapply U. }
  apply rtc_inv_r in Hrp as [->|(p' & _ & (n & Hn & Hc))]; [done|]. by eapply P.
Qed.

Lemma physical_map_fresh env root pid s s' pd :
  physical_map env root pid s = (s', Ok pd) -> pd < length (heap s').
Proof.
  unfold physical_map. intros H.
  apply bind_Ok in H as (id & s1 & _ & H). apply bind_Ok in H as (m & s2 & _ & H).
  apply bind_Ok in H as (id2 & s3 & _ & H). apply bind_Ok in H as (label & s4 & _ & H).
  by apply attach_fresh in H as [_ ?].
Qed.

Lemma subdir_groups_lookup_no_token env fileSec subdirs k : forall groups s s' groups',
  subdir_groups env fileSec subdirs groups s = (s', Ok groups') ->
  k ∉ folders_with_USE -> groups' !! k = groups !! k.
Proof.
  induction subdirs as [|d l IH]; intros groups s s' groups' H Hk; simpl in H.
  - by injection H as _ <-.
  - destruct (bool_decide (d ∈ folders_with_USE)) eqn:Hd.
    + apply bind_Ok in H as (id & s1 & _ & H). apply bind_Ok in H as (g & s2 & _ & H).
      rewrite (IH _ _ _ _ H Hk). rewrite lookup_insert_ne; [done|].
      intros ->. by apply bool_decide_eq_true in Hd.
    + by eapply IH.
Qed.

Lemma subdir_groups_keeps env fileSec subdirs k : forall groups s s' groups',
  subdir_groups env fileSec subdirs groups s = (s', Ok groups') ->
  is_Some (groups !! k) -> is_Some (groups' !! k).
Proof.
  induction subdirs as [|d l IH]; intros groups s s' groups' H Hk; simpl in H.
  - by injection H as _ <-.
  - destruct (bool_decide (d ∈ folders_with_USE)).
    + apply bind_Ok in H as (id & s1 & _ & H). apply bind_Ok in H as (g & s2 & _ & H).
      apply (IH _ _ _ _ H). apply lookup_insert_is_Some.
      destruct (decide (d = k)); auto.
    + by eapply IH.
Qed.

(** The store the skeleton leaves: the group of the root's own role is an
    element without a parent and without children, and it is the entry of
    the table unless a group made for a top-level directory took its
    place. *)
Lemma skeleton_dominant_group env root_path md s s1 L :
  forest (heap s) ->
  mets_skeleton env root_path md s = (s1, Ok L) ->
  exists g ng nr,
    heap s1 !! g = Some ng /\ tag ng = q METS_NS "fileGrp" /\
    get_key "USE" (attrib ng) = Some (get_folder_with_USE root_path) /\
    heap s1 !! root L = Some nr /\ tag nr = q METS_NS "mets" /\
    parentless (heap s1) g /\
    walk_inv (package_div L) g s1 /\
    (get_folder_with_USE root_path ∉ dirnames (disk s) \/
     get_folder_with_USE root_path ∉ folders_with_USE ->
     mets_filegroups L !! get_folder_with_USE root_path = Some g) /\
    is_Some (mets_filegroups L !! get_folder_with_USE root_path).
Proof.
  intros F Hskel.
  apply mets_skeleton_inv in Hskel
    as (sf & par & sa & sb & sc & sd & se & sf' & id & _ & _ & _ & _ & Hroot & E1 &
        Hfs & Hg & Hp & Hl & Hpar).
  apply mets_root_inv in Hroot as (objid & folder & _ & _ & Hr & Hdisk & Hheap).
  simpl in Hdisk, Hheap.
  assert (hext (heap s) (heap sa)) as Esa.
  { rewrite Hheap. by apply grown_hext, grown_leaf. }
  pose proof (extends_skeleton_tail _ _ _ _ _ _ _ _ _ _ _ _ E1 Hfs Hg Hp Hl Hpar) as Etail.
  pose proof (always_run _ _ _ _ _ (extends_attach _ _) Hfs) as Esc.
  pose proof (extends_trans _ _ _ E1 Esc) as Eac.
  apply file_groups_inv in Hg as (gid & sg & _ & Hsg & Hdg & Hsub).
  set (g := length (heap sc)) in *.
  assert (forest (heap sc)) as Fc.
  { destruct Eac as [Eac _]. eapply hext_forest; [exact Eac|]. by eapply hext_forest. }
  assert (hext (heap sc) (heap sg)) as Ecg.
  { rewrite Hsg. by apply grown_hext, grown_leaf. }
  pose proof (always_run _ _ _ _ _ (quiet_subdir_groups _ _ _ _) Hsub) as Q1.
  pose proof (always_run _ _ _ _ _ (quiet_physical_map _ _ _) Hp) as Q2.
  pose proof (always_run _ _ _ _ _ (quiet_logical_map _ _ _) Hl) as Q3.
  pose proof (always_run _ _ _ _ _ (quiet_parent_map _ _ _ _ _) Hpar) as Q4.
  assert (quiet sg s1) as Q by eauto using quiet_trans.
  destruct Q as [[Eg1 _] Qe].
  assert (heap sg !! g = Some (Node (q METS_NS "fileGrp")
            [("ID", gid); ("USE", get_folder_with_USE root_path)] "" [])) as Hng.
  { rewrite Hsg. by rewrite list_lookup_middle. }
  destruct (hext_node _ _ Eg1 g _ Hng) as (ng & Hng1 & Htg & Hag & _).
  assert (heap sa !! root L = Some
            (Node (q METS_NS "mets")
               (METS_ATTRIBUTES objid (packagetype L) ++
                [(q XSI_NS "schemaLocation",
                  schemaLocation (recorded_mets_location env root_path (disk s) folder)
                    (recorded_xlink_location env root_path (disk s) folder))]) "" []))
    as Hnode.
  { rewrite Hheap, Hr. by rewrite list_lookup_middle. }
  destruct (extends_node _ _ _ _ Etail Hnode) as (nr & Hnr & Htr & _).
  assert (forest (heap sg)) as Fg by (by eapply hext_forest).
  assert (forest (heap s1)) as F1 by (by eapply hext_forest).
  exists g, ng, nr. split_and!; try done.
  - rewrite Hag. simpl. done.
  - eapply hext_parentless; [exact Eg1| |].
    + rewrite Hsg, length_app. simpl. unfold g. lia.
    + rewrite Hsg. apply grown_parentless; [by apply grown_leaf|apply Fc].
  - split_and!; [done| |].
    + apply physical_map_fresh in Hp.
      destruct Q3 as [[E3 _] _], Q4 as [[E4 _] _].
      pose proof (hext_length _ _ E3). pose proof (hext_length _ _ E4). lia.
    + intros f nf Hgf Hf Ht _. exfalso.
      destruct (Qe g f Hgf) as [(n & Hn & Hc)|(nc & Hc & Hnt)].
      * assert (Some n = Some (Node (q METS_NS "fileGrp")
                  [("ID", gid); ("USE", get_folder_with_USE root_path)] "" [])) as [= ->]
          by (rewrite <- Hn; exact Hng).
        simpl in Hc. by apply elem_of_nil in Hc.
      * assert (Some nc = Some nf) as [= ->] by (rewrite <- Hc; exact Hf). done.
  - intros [Hk|Hk].
    + rewrite (subdir_groups_lookup _ _ _ _ _ _ _ _ Hsub).
      * by rewrite lookup_insert_eq.
      * destruct Eac as [_ Dac]. by rewrite Dac, Hdisk.
    + rewrite (subdir_groups_lookup_no_token _ _ _ _ _ _ _ _ Hsub Hk).
      by rewrite lookup_insert_eq.
  - apply (subdir_groups_keeps _ _ _ _ _ _ _ _ Hsub). by rewrite lookup_insert_eq.
Qed.

(** X1: the file group created for the root's own role token is never
    appended to the file section. When that token names no top-level
    directory the group stays in the table of file groups, and after a run
    of [createMets] that returns: the group has no parent; no file element
    registered in it can be reached from the root of the document that was
    written; yet a file pointer carrying the ID of each such element stands
    in a division of the physical map. *)
Theorem dominant_group_detached env root_path md mets_file_path s s' :
  forest (heap s) ->
  get_folder_with_USE root_path ∉ dirnames (disk s) ->
  createMets env root_path md mets_file_path s = (s', Ok tt) ->
  exists L s1 g doc,
    mets_skeleton env root_path md s = (s1, Ok L) /\
    reify (length (heap s')) (heap s') (root L) = Some doc /\
    file_at root_path s' (mets_target root_path mets_file_path) = Some (Xml doc) /\
    mets_filegroups L !! get_folder_with_USE root_path = Some g /\
    parentless (heap s') g /\
    forall f nf, edge (heap s') g f -> heap s' !! f = Some nf -> tag nf = file_tag ->
      ~ reach (heap s') (root L) f /\ covered (package_div L) (heap s') f.
Proof.
  intros F Hrole H.
  apply createMets_inv in H as (L & s1 & s2 & doc & Hskel & Hwalk & Hdoc & Hheap & Hfile).
  destruct (skeleton_dominant_group _ _ _ _ _ _ F Hskel)
    as (g & ng & nr & Hg & Htg & _ & Hr & Htr & Pg & I & Hdict & _).
  pose proof (walk_inv_os_walk _ _ _ _ _ _ _ _ I Hwalk) as (F2 & _ & C2).
  pose proof (always_run _ _ _ _ _ (extends_walk _ _ _) Hwalk) as E.
  destruct (extends_node _ _ _ _ E Hg) as (ng2 & Hg2 & Htg2 & _).
  destruct (extends_node _ _ _ _ E Hr) as (nr2 & Hr2 & Htr2 & _).
  destruct E as [E _].
  assert (parentless (heap s2) g) as Pg2.
  { eapply hext_parentless; [exact E| |exact Pg]. by eapply lookup_lt_Some. }
  exists L, s1, g, doc. rewrite Hheap. split_and!; try done; [apply Hdict; by left|].
  intros f nf Hgf Hf Ht. split; [|by eapply C2].
  apply (unreachable_below_parentless _ _ g); [apply F2|done|done| |].
  - intros Heq. rewrite Heq in Hr2.
    assert (Some nr2 = Some ng2) as [= ->] by (rewrite <- Hr2; exact Hg2).
    rewrite Htr2, Htr in Htg2. by rewrite Htg in Htg2.
  - intros Heq. rewrite Heq in Hr2.
    assert (Some nr2 = Some nf) as [= ->] by (rewrite <- Hr2; exact Hf).
    rewrite Htr2, Htr in Ht. done.
Qed.

Lemma dominant_group_detached_witness :
  let s' := (createMets posix_env "/pkg" sample_mets_data None (initial pkg_deep_data)).1 in
  exists L s1 g doc,
    mets_skeleton posix_env "/pkg" sample_mets_data (initial pkg_deep_data) = (s1, Ok L) /\
    reify (length (heap s')) (heap s') (root L) = Some doc /\
    file_at "/pkg" s' (mets_target "/pkg" None) = Some (Xml doc) /\
    mets_filegroups L !! get_folder_with_USE "/pkg" = Some g /\
    parentless (heap s') g /\
    forall f nf, edge (heap s') g f -> heap s' !! f = Some nf -> tag nf = file_tag ->
      ~ reach (heap s') (root L) f /\ covered (package_div L) (heap s') f.
Proof.
  apply (dominant_group_detached posix_env "/pkg" sample_mets_data None
           (initial pkg_deep_data)).
  - apply forest_nil.
  - apply (bool_decide_unpack _). vm_compute. reflexivity.
  - vm_compute. reflexivity.
Defined.

(** C10: the group of the root's own role token and the file section.
    After a run of [createMets] that returns, the table of file groups has
    an entry for the role token of the package root. That group is a child
    of the file section only if the token names a top-level directory of
    the package (and is one of the four role tokens). When the token names
    no top-level directory, the group cannot be reached from the root of
    the document that was written, and neither can any file element
    registered in it; yet a file pointer carrying the ID of each such
    element stands in a division of the physical structural map. *)
Theorem dominant_group_file_section env root_path md mets_file_path s s' :
  forest (heap s) ->
  createMets env root_path md mets_file_path s = (s', Ok tt) ->
  exists L s1 g doc,
    mets_skeleton env root_path md s = (s1, Ok L) /\
    reify (length (heap s')) (heap s') (root L) = Some doc /\
    file_at root_path s' (mets_target root_path mets_file_path) = Some (Xml doc) /\
    mets_filegroups L !! get_folder_with_USE root_path = Some g /\
    (edge (heap s') (mets_fileSec L) g ->
     get_folder_with_USE root_path ∈ dirnames (disk s) /\
     get_folder_with_USE root_path ∈ folders_with_USE) /\
    (get_folder_with_USE root_path ∉ dirnames (disk s) ->
     ~ reach (heap s') (root L) g /\
     forall f nf, edge (heap s') g f -> heap s' !! f = Some nf -> tag nf = file_tag ->
       ~ reach (heap s') (root L) f /\ covered (package_div L) (heap s') f).
Proof.
  intros F H.
  apply createMets_inv in H as (L & s1 & s2 & doc & Hskel & Hwalk & Hdoc & Hheap & Hfile).
  destruct (skeleton_dominant_group _ _ _ _ _ _ F Hskel)
    as (g & ng & nr & Hg & Htg & _ & Hr & Htr & Pg & I & Hdict & [gt Hgt]).
  pose proof (walk_inv_os_walk _ _ _ _ _ _ _ _ I Hwalk) as (F2 & _ & C2).
  pose proof (always_run _ _ _ _ _ (extends_walk _ _ _) Hwalk) as E.
  destruct (extends_node _ _ _ _ E Hg) as (ng2 & Hg2 & Htg2 & _).
  destruct (extends_node _ _ _ _ E Hr) as (nr2 & Hr2 & Htr2 & _).
  destruct E as [E _].
  assert (parentless (heap s2) g) as Pg2.
  { eapply hext_parentless; [exact E| |exact Pg]. by eapply lookup_lt_Some. }
  assert (root L <> g) as Hrg.
  { intros Heq. rewrite Heq in Hr2.
    assert (Some nr2 = Some ng2) as [= ->] by (rewrite <- Hr2; exact Hg2).
    rewrite Htr2, Htr in Htg2. by rewrite Htg in Htg2. }
  exists L, s1, gt, doc. rewrite Hheap. split_and!; try done.
  - intros (n & Hn & Hc).
    destruct (decide (get_folder_with_USE root_path ∈ dirnames (disk s))) as [Hin|Hout];
      [destruct (decide (get_folder_with_USE root_path ∈ folders_with_USE)) as [Hin2|Hout2];
        [done|]|].
    all: exfalso; rewrite Hdict in Hgt by tauto; injection Hgt as <-; by eapply Pg2.
  - intros Hout. rewrite Hdict in Hgt by tauto. injection Hgt as <-. split.
    + intros Hreach.
      apply rtc_inv_r in Hreach as [?|(p & _ & (n & Hn & Hc))]; [done|]. by eapply Pg2.
    + intros f nf Hgf Hf Ht. split; [|by eapply C2].
      apply (unreachable_below_parentless _ _ g); [apply F2|done|done|done|].
      intros Heq. rewrite Heq in Hr2.
      assert (Some nr2 = Some nf) as [= ->] by (rewrite <- Hr2; exact Hf).
      rewrite Htr2, Htr in Ht. done.
Qed.

Lemma dominant_group_file_section_witness :
  let s' := (createMets posix_env "/pkg" sample_mets_data None (initial pkg_nested)).1 in
  exists L s1 g doc,
    mets_skeleton posix_env "/pkg" sample_mets_data (initial pkg_nested) = (s1, Ok L) /\
    reify (length (heap s')) (heap s') (root L) = Some doc /\
    file_at "/pkg" s' (mets_target "/pkg" None) = Some (Xml doc) /\
    mets_filegroups L !! get_folder_with_USE "/pkg" = Some g /\
    (edge (heap s') (mets_fileSec L) g ->
     get_folder_with_USE "/pkg" ∈ dirnames (disk (initial pkg_nested)) /\
     get_folder_with_USE "/pkg" ∈ folders_with_USE) /\
    (get_folder_with_USE "/pkg" ∉ dirnames (disk (initial pkg_nested)) ->
     ~ reach (heap s') (root L) g /\
     forall f nf, edge (heap s') g f -> heap s' !! f = Some nf -> tag nf = file_tag ->
       ~ reach (heap s') (root L) f /\ covered (package_div L) (heap s') f).
Proof.
  apply (dominant_group_file_section posix_env "/pkg" sample_mets_data None
           (initial pkg_nested)).
  - apply forest_nil.
  - vm_compute. reflexivity.
Defined.

(** A relation that changes of the store, of the identifiers drawn and of
    the log do not break holds along the building of the document. *)
Section Frame.

Context (R : state -> state -> Prop).
Context (R_refl : forall s, R s s).
Context (R_trans : forall a b c, R a b -> R b c -> R a c).
Context (R_heap : forall f s, R s (set_heap f s)).
Context (R_drawn : forall n s, R s (set_drawn n s)).
Context (R_log : forall r s, R s (add_log r s)).

Lemma frame_fresh_id env : always R (fresh_id env).
Proof. intros s. apply R_drawn. Qed.

Lemma frame_logger level msg : always R (logger level msg).
Proof. intros s. apply R_log. Qed.

Lemma frame_load e : always R (load e).
Proof. intros s. rewrite load_layout. apply R_heap. Qed.

Lemma frame_attach p e : always R (attach p e).
Proof. intros s. rewrite attach_eq. apply R_heap. Qed.

Lemma frame_insert_new p i e : always R (insert_new p i e).
Proof. intros s. rewrite insert_new_eq. apply R_heap. Qed.

Lemma frame_set_attrib p k v : always R (set_attrib p k v).
Proof. intros s. apply R_heap. Qed.

Ltac frame_prim :=
  first [ apply frame_fresh_id | apply frame_logger | apply frame_load
        | apply frame_attach | apply frame_insert_new | apply frame_set_attrib ].

Ltac frame_auto :=
  unfold createAgent, new_physical_div, content_file, nested_mets, schema_file,
    other_file, metadata_branch, reference_metadata, new_dmdSec, new_digiprovMD,
    addFile, make_mdref, append_fptr, attach_to, create,
    mets_root, mets_schema_location_of, xlink_schema_location_of, mets_header,
    physical_map, logical_map, parent_map,
    read_file, listdir, isfile, first_walk_dirnames, locate;
  repeat (always_shape R R_refl R_trans frame_prim).

Lemma frame_walk env root_path L :
  always R (os_walk root_path root_path (walk_body env root_path L)).
Proof. unfold walk_body. frame_auto. Qed.

Lemma frame_subdir_groups env fileSec subdirs groups :
  always R (subdir_groups env fileSec subdirs groups).
Proof.
  revert groups. induction subdirs as [|d l IH]; intros groups; simpl; frame_auto.
  all: apply IH.
Qed.

Lemma frame_skeleton env root_path md :
  (forall s, R s (set_mets_data (Some md) s)) ->
  always R (mets_skeleton env root_path md).
Proof.
  intros R_md. unfold mets_skeleton.
  apply (always_bind R R_trans); [intros s; apply R_md|]. intros _.
  unfold file_groups. frame_auto. apply frame_subdir_groups.
Qed.

Lemma frame_building env root_path md :
  (forall s, R s (set_mets_data (Some md) s)) ->
  always R (L <- mets_skeleton env root_path md;;
            os_walk root_path root_path (walk_body env root_path L);;
            etree_tostring (root L)).
Proof.
  intros R_md. apply (always_bind R R_trans); [by apply frame_skeleton|]. intros L.
  apply (always_bind R R_trans); [apply frame_walk|]. intros _.
  unfold etree_tostring. frame_auto.
Qed.

End Frame.

Lemma same_files_refl s : same_files s s.
Proof. done. Qed.

Lemma same_files_trans a b c : same_files a b -> same_files b c -> same_files a c.
Proof. intros [] []. split; congruence. Qed.

Lemma same_files_building env root_path md :
  always same_files
    (L <- mets_skeleton env root_path md;;
     os_walk root_path root_path (walk_body env root_path L);;
     etree_tostring (root L)).
Proof. apply frame_building; try done. apply same_files_trans. Qed.

Lemma write_at_again new' segs new : forall e e',
  write_at segs (File new.1 new.2) e = Some e' ->
  exists d, write_at segs new' e' = Some (Dir d).
Proof.
  induction segs as [|name rest IH]; intros e e' H; [done|].
  destruct e as [t c|es]; [by destruct rest|].
  destruct rest as [|name' rest].
  - simpl in H. destruct (lookup_name name es) as [[?|?]|]; simplify_eq/=.
    all: rewrite lookup_put_name; eauto.
  - rewrite write_at_deeper in H.
    destruct (lookup_name name es) as [sub|]; [|done].
    destruct (write_at (name' :: rest) _ sub) as [sub'|] eqn:Hs; [|done].
    injection H as <-. rewrite write_at_deeper, lookup_put_name.
    destruct (IH _ _ Hs) as (d & ->). eauto.
Qed.

(** Once [open(p, 'w')] has succeeded, writing text to the file can only
    fail in the codec. *)
Lemma file_write_after_open env root_path p doc s s1 :
  open_w env root_path p s = (s1, Ok tt) ->
  (exists s', file_write env root_path p (Text doc) s1 = (s', Ok tt)) \/
  file_write env root_path p (Text doc) s1 = (s1, Raise UnicodeEncodeError).
Proof.
  unfold open_w, file_write. intros H.
  destruct (encodable env doc); [left|by right].
  destruct (under_root root_path p) as [segs|]; [|by eauto].
  apply bind_Ok in H as (d & s0 & Hd & H). injection Hd as <- <-.
  destruct (write_at segs _ (Dir (disk s))) as [[|d']|] eqn:Hw; try done.
  injection H as <-. unfold bind, gets. simpl.
  destruct (write_at_again (File (current_timestamp env) (Xml doc)) segs
              (current_timestamp env, Raw "") _ _ Hw) as (d2 & ->).
  eauto.
Qed.

Lemma open_w_file_at env root_path p s s1 :
  open_w env root_path p s = (s1, Ok tt) -> file_at root_path s1 p = Some (Raw "").
Proof.
  unfold open_w, file_at. destruct (under_root root_path p) as [segs|].
  - intros H. apply bind_Ok in H as (d & s0 & Hd & H). injection Hd as <- <-.
    destruct (write_at segs _ (Dir (disk s))) as [[|d']|] eqn:Hw; try done.
    injection H as <-. simpl. by rewrite (resolve_write_at _ _ _ _ Hw).
  - intros [= <-]. simpl. by rewrite get_put_key.
Qed.

Lemma open_w_raise env root_path p s s' e :
  open_w env root_path p s = (s', Raise e) -> s' = s.
Proof.
  unfold open_w. destruct (under_root root_path p) as [segs|]; [|done].
  unfold bind, gets. simpl.
  destruct (write_at _ _ _) as [[|d']|]; by intros [= <- _].
Qed.

Lemma etree_tostring_Ok r s s' str :
  etree_tostring r s = (s', Ok str) -> s' = s /\ exists doc, str = Bytes doc.
Proof.
  unfold etree_tostring, bind, gets. destruct (reify _ _ _); [|done].
  intros [= <- <-]. eauto.
Qed.

(** X2: what a run of [createMets] that raises leaves of the files. Unless
    it is the codec that raises at the final write, nothing has been
    written: the files of the package and the files off it are as they
    were, the target being opened only when the document is complete. When
    the final write raises [UnicodeEncodeError], the target has been opened
    and is left empty. *)
Theorem failed_generation_files env root_path md mets_file_path s s' e :
  createMets env root_path md mets_file_path s = (s', Raise e) ->
  (disk s' = disk s /\ elsewhere s' = elsewhere s) \/
  (e = UnicodeEncodeError /\
   file_at root_path s' (mets_target root_path mets_file_path) = Some (Raw "")).
Proof.
  intros H. pose proof (same_files_building env root_path md s) as B.
  unfold createMets in H.
  change (createMets env root_path md mets_file_path s) with
    (L <- mets_skeleton env root_path md;;
     os_walk root_path root_path (walk_body env root_path L);;
     str <- etree_tostring (root L);;
     open_w env root_path (mets_target root_path mets_file_path);;
     text <- lift (decode str);;
     file_write env root_path (mets_target root_path mets_file_path) text) in H.
  apply bind_Raise in H as [H|(L & s1 & H1 & H)].
  { left. unfold bind in B. by rewrite H in B. }
  apply bind_Raise in H as [H|([] & s2 & H2 & H)].
  { left. unfold bind in B. rewrite H1 in B. unfold bind in B. by rewrite H in B. }
  apply bind_Raise in H as [H|(str & s3 & H3 & H)].
  { left. unfold bind in B. rewrite H1 in B. unfold bind in B. rewrite H2 in B.
    by rewrite H in B. }
  assert (same_files s s3) as B3.
  { unfold bind in B. rewrite H1 in B. unfold bind in B. rewrite H2 in B. by rewrite H3 in B. }
  apply etree_tostring_Ok in H3 as [-> (doc & ->)].
  apply bind_Raise in H as [H|([] & s4 & H4 & H)].
  { left. by apply open_w_raise in H as ->. }
  right. simpl in H. unfold bind at 1, lift in H.
  destruct (file_write_after_open _ _ _ doc _ _ H4) as [(s5 & Hw)|Hw];
    rewrite Hw in H; [done|].
  injection H as <- <-. split; [done|]. by eapply open_w_file_at.
Qed.

Lemma failed_generation_files_witness :
  let s := initial pkg_deep_schemas in
  let s' := (createMets posix_env "/pkg" sample_mets_data None s).1 in
  (disk s' = disk s /\ elsewhere s' = elsewhere s) \/
  (KeyError "schemas" = UnicodeEncodeError /\
   file_at "/pkg" s' (mets_target "/pkg" None) = Some (Raw "")).
Proof.
  apply (failed_generation_files posix_env "/pkg" sample_mets_data None
           (initial pkg_deep_schemas) _ (KeyError "schemas")).
  vm_compute. reflexivity.
Defined.

(** With a codec that cannot encode the document, the run ends at the
    write and the target is left empty. *)
Example generation_encoding_failure :
  let run := createMets narrow_env "/pkg" sample_mets_data None (initial pkg_schemas) in
  run.2 = Raise UnicodeEncodeError /\
  file_at "/pkg" run.1 (mets_target "/pkg" None) = Some (Raw "").
Proof. vm_compute. by split. Qed.

Lemma holds_mets_data_refl md s : holds_mets_data md s s.
Proof. by intros ?. Qed.

Lemma holds_mets_data_trans md a b c :
  holds_mets_data md a b -> holds_mets_data md b c -> holds_mets_data md a c.
Proof. unfold holds_mets_data. auto. Qed.

(** X3: [createMets] stores its argument in [mets_data] before anything
    else; it is there afterwards, however the run ends. *)
Theorem generation_records_mets_data env root_path md mets_file_path s :
  mets_data (createMets env root_path md mets_file_path s).1 = Some md.
Proof.
  assert (always (holds_mets_data md) (createMets env root_path md mets_file_path)) as A.
  { unfold createMets.
    apply (always_bind _ (holds_mets_data_trans md));
      [apply (frame_skeleton _ (holds_mets_data_refl md) (holds_mets_data_trans md));
       unfold holds_mets_data; by intros|]. intros L.
    apply (always_bind _ (holds_mets_data_trans md));
      [apply (frame_walk _ (holds_mets_data_refl md) (holds_mets_data_trans md));
       unfold holds_mets_data; by intros|]. intros _.
    unfold etree_tostring, open_w, file_write.
    repeat (always_shape (holds_mets_data md) (holds_mets_data_refl md)
              (holds_mets_data_trans md) ltac:(by intros ? ?)). }
  specialize (A (set_mets_data (Some md) s)). by apply A.
Qed.

Lemma strip_prefix_app r x : strip_prefix r (r +:+ x) = Some x.
Proof. induction r as [|a r IH]; simpl; [done|]. by rewrite Ascii.eqb_refl. Qed.

Lemma skeleton_root_nonempty env root_path md s s1 L :
  mets_skeleton env root_path md s = (s1, Ok L) -> root_path <> "".
Proof.
  intros H. apply mets_skeleton_inv in H
    as (sf & par & sa & sb & sc & sd & se & sf' & id & _ & _ & _ & _ & _ & _ & _ & Hg & _).
  by apply file_groups_inv in Hg as (gid & sg & Hne & _).
Qed.

(** The sibling descriptor [<root>/METS.xml] lies in the package. *)
Lemma sibling_under_root root_path :
  root_path <> "" ->
  String.eqb (path_join root_path "METS.xml") "" = false /\
  under_root root_path (path_join root_path "METS.xml") = Some ["METS.xml"].
Proof.
  intros Hne. unfold path_join. change (startswith "METS.xml" "/") with false.
  cbv iota. destruct (String.eqb root_path "") eqn:E0.
  { by apply String.eqb_eq in E0. }
  unfold under_root. cbn [orb].
  destruct (endswith root_path "/") eqn:E1; rewrite strip_prefix_app.
  - split; [by destruct root_path|done].
  - split; [by destruct root_path|done].
Qed.

Lemma generated_sibling_exists env root_path md s s1 :
  createMets env root_path md None s = (s1, Ok tt) ->
  path_exists root_path (path_join root_path "METS.xml") s1 = (s1, Ok true).
Proof.
  intros H.
  apply createMets_inv in H as (L & s0 & s2 & doc & Hskel & _ & _ & _ & Hfile).
  apply skeleton_root_nonempty in Hskel.
  destruct (sibling_under_root root_path Hskel) as [Hp Hu].
  unfold path_exists, locate, bind, gets, ret, locate_on. rewrite Hp, Hu.
  unfold file_at, mets_target in Hfile. rewrite Hu in Hfile.
  by destruct (resolve _ _) as [[]|].
Qed.

(** X4: after a run of [createMets] that returned and wrote the descriptor
    to its default place [<root>/METS.xml], neither [setParentRelation] nor
    [addChildRelation] returns normally on that generator: the sibling
    descriptor they look for is the file just written. *)
Theorem link_after_generation_fails env root_path md identifier s s1 s2 :
  createMets env root_path md None s = (s1, Ok tt) ->
  setParentRelation env root_path identifier s1 <> (s2, Ok tt) /\
  addChildRelation env root_path identifier s1 <> (s2, Ok tt).
Proof.
  intros H. apply linker_never_returns. by eapply generated_sibling_exists.
Qed.

Lemma link_after_generation_fails_witness :
  let s1 := (createMets posix_env "/pkg" sample_mets_data None (initial pkg_schemas)).1 in
  setParentRelation posix_env "/pkg" "urn:uuid:child-1" s1 <> (s1, Ok tt) /\
  addChildRelation posix_env "/pkg" "urn:uuid:child-1" s1 <> (s1, Ok tt).
Proof.
  apply (link_after_generation_fails posix_env "/pkg" sample_mets_data "urn:uuid:child-1"
           (initial pkg_schemas)).
  vm_compute. reflexivity.
Defined.

Lemma mets_target_nonempty root_path p :
  String.eqb (mets_target root_path p) "" = false.
Proof.
  assert (String.eqb (path_join root_path "METS.xml") "" = false) as H.
  { unfold path_join. change (startswith "METS.xml" "/") with false. cbv iota.
    destruct (_ || _); by destruct root_path. }
  unfold mets_target. destruct p as [p|]; [|done].
  unfold nonempty. by destruct (String.eqb p "") eqn:E.
Qed.

Lemma read_file_file_at root_path s p c segs :
  file_at root_path s p = Some c -> under_root root_path p = Some segs ->
  String.eqb p "" = false ->
  exists t, read_file root_path p s = (s, Ok (t, c)).
Proof.
  unfold file_at, read_file, locate, locate_on, bind, gets. intros H Hu Hp.
  rewrite Hp, Hu. rewrite Hu in H.
  destruct (resolve segs _) as [[t c'|]|]; try done. injection H as ->. eauto.
Qed.

(** The root element of the document a run of [createMets] has written. *)
Lemma generated_root_element env root_path md mets_file_path s s' :
  createMets env root_path md mets_file_path s = (s', Ok tt) ->
  exists doc v objid pt sl,
    file_at root_path s' (mets_target root_path mets_file_path) = Some (Xml doc) /\
    md !! "packageid" = Some v /\ attr_value v = Ok objid /\
    etag_of doc = q METS_NS "mets" /\
    eattrib_of doc = METS_ATTRIBUTES objid pt ++ [(q XSI_NS "schemaLocation", sl)].
Proof.
  intros H.
  apply createMets_inv in H as (L & s1 & s2 & doc & Hskel & Hwalk & Hdoc & _ & Hfile).
  apply reify_top in Hdoc as (n2 & Hn2 & Htag & Hattr).
  apply mets_skeleton_inv in Hskel
    as (sf & par & sa & sb & sc & sd & se & sf' & id & Hpid & _ & _ & _ & Hroot & E1 &
        Hfs & Hg & Hp & Hl & Hpar).
  apply mets_root_inv in Hroot as (objid & folder & Hobj & _ & Hr & _ & Hheap).
  assert (extends sa s2) as Ext.
  { eapply extends_trans; [by eapply extends_skeleton_tail|].
    by eapply always_run; [apply extends_walk|]. }
  assert (heap sa !! root L = Some
            (Node (q METS_NS "mets")
               (METS_ATTRIBUTES objid (packagetype L) ++
                [(q XSI_NS "schemaLocation",
                  schemaLocation (recorded_mets_location env root_path (disk s) folder)
                    (recorded_xlink_location env root_path (disk s) folder))]) "" []))
    as Hnode.
  { rewrite Hheap, Hr. by rewrite list_lookup_middle. }
  destruct (extends_node _ _ _ _ Ext Hnode) as (n' & Hn' & Ht' & Ha').
  assert (Some n' = Some n2) as [= ->] by (rewrite <- Hn'; exact Hn2).
  simpl in Ht', Ha'.
  eexists doc, (packageid L), objid, (packagetype L), _.
  split_and!; [done|done|done|congruence|]. rewrite Hattr. exact Ha'.
Qed.

(** X5: the identifier of the package, written and read back: when
    [createMets] has returned and the descriptor lies in the package,
    [get_mets_obj_id] on the path of the descriptor answers the value given
    under [packageid], as the string written to the OBJID attribute. *)
Theorem generated_obj_id_round_trip env root_path md mets_file_path s s' segs :
  createMets env root_path md mets_file_path s = (s', Ok tt) ->
  under_root root_path (mets_target root_path mets_file_path) = Some segs ->
  exists v objid,
    md !! "packageid" = Some v /\ attr_value v = Ok objid /\
    get_mets_obj_id root_path (mets_target root_path mets_file_path) s' = (s', Ok objid).
Proof.
  intros H Hu.
  apply generated_root_element in H as (doc & v & objid & pt & sl & Hfile & Hv & Hobj & _ & Ha).
  exists v, objid. split_and!; [done|done|].
  destruct (read_file_file_at _ _ _ _ _ Hfile Hu (mets_target_nonempty _ _)) as (t & Hread).
  unfold get_mets_obj_id, load_mets. rewrite (bind_eq _ _ _ _ _ (bind_eq _ _ _ _ _ Hread)).
  destruct doc as [t' a x kids]. simpl in Ha. subst a. reflexivity.
Qed.

Lemma generated_obj_id_round_trip_witness :
  let s' := (createMets posix_env "/pkg" sample_mets_data None (initial pkg_schemas)).1 in
  exists v objid,
    sample_mets_data !! "packageid" = Some v /\ attr_value v = Ok objid /\
    get_mets_obj_id "/pkg" (mets_target "/pkg" None) s' = (s', Ok objid).
Proof.
  apply (generated_obj_id_round_trip posix_env "/pkg" sample_mets_data None
           (initial pkg_schemas) _ ["METS.xml"]).
  - vm_compute. reflexivity.
  - vm_compute. reflexivity.
Defined.

(** X6: the TYPE attribute of a generated descriptor does not come from
    the dictionary: whatever [type] holds, [get_package_type] on the
    document [createMets] has written answers [Databases]. *)
Theorem generated_package_type_is_fixed env root_path md mets_file_path s s' rdir :
  createMets env root_path md mets_file_path s = (s', Ok tt) ->
  exists doc,
    file_at root_path s' (mets_target root_path mets_file_path) = Some (Xml doc) /\
    get_package_type {| root_dir := rdir; mets_tree := Some doc |} = Ok "Databases".
Proof.
  intros H.
  apply generated_root_element in H as (doc & v & objid & pt & sl & Hfile & Hv & Hobj & _ & Ha).
  exists doc. split; [done|].
  destruct doc as [t' a x kids]. simpl in Ha. subst a. reflexivity.
Qed.

Lemma generated_package_type_is_fixed_witness :
  let s' := (createMets posix_env "/pkg" sample_mets_data None (initial pkg_schemas)).1 in
  exists doc,
    file_at "/pkg" s' (mets_target "/pkg" None) = Some (Xml doc) /\
    get_package_type {| root_dir := "/pkg"; mets_tree := Some doc |} = Ok "Databases".
Proof.
  apply (generated_package_type_is_fixed posix_env "/pkg" sample_mets_data None
           (initial pkg_schemas)).
  vm_compute. reflexivity.
Defined.

(** ** The path classifier on joined paths *)

Lemma first_with_USE_not_other l : first_with_USE l <> Some "other".
Proof.
  intros H. apply first_with_USE_Some in H as (pre & post & _ & Hin & _).
  by apply (bool_decide_pack _) in Hin.
Qed.

(** X7: the role of a joined path [a/b]: it is the role of [b] when some
    segment of [b] is a role token, and the role of [a] otherwise. *)
Theorem role_of_joined_path (a b : string) :
  get_folder_with_USE (a +:+ "/" +:+ b)
  = if String.eqb (get_folder_with_USE b) "other"
    then get_folder_with_USE a else get_folder_with_USE b.
Proof.
  unfold get_folder_with_USE.
  change (a +:+ "/" +:+ b) with (a +:+ String "/" b).
  rewrite split_app_sep, rev_app_distr, first_with_USE_app.
  destruct (first_with_USE (rev (split "/" b))) as [d|] eqn:E; [|done].
  destruct (String.eqb d "other") eqn:Ed; [|done].
  apply String.eqb_eq in Ed as ->. by apply first_with_USE_not_other in E.
Qed.

(** ** The reader's schema location *)

Lemma index_of_existsb x l :
  existsb (λ t, String.eqb t x) l = bool_decide (is_Some (index_of x l)).
Proof.
  induction l as [|y l IH]; simpl; [done|].
  destruct (String.eqb y x); simpl; [done|]. rewrite IH.
  destruct (index_of x l); done.
Qed.

Lemma schema_file_loop_spec rdir locations tokens acc :
  schema_file_loop rdir locations tokens acc
  = if existsb (λ t, String.eqb t "http://www.loc.gov/METS/") tokens then
      match index_of "http://www.loc.gov/METS/" locations with
      | Some i =>
          match locations !! (i + 1) with
          | Some loc => Ok (rdir +:+ loc)
          | None => Raise IndexError
          end
      | None => Raise (ValueError "token is not in list")
      end
    else Ok acc.
Proof.
  revert acc. induction tokens as [|token tokens IH]; intros acc; [done|].
  cbn [schema_file_loop existsb].
  destruct (String.eqb token "http://www.loc.gov/METS/") eqn:E; [|by rewrite IH].
  apply String.eqb_eq in E as ->. cbn [orb].
  destruct (index_of _ locations) as [i|]; [|done].
  destruct (locations !! (i + 1)) as [loc|]; [|done].
  replace (startswith loc "") with true by (by destruct loc).
  rewrite IH. by destruct (existsb _ tokens).
Qed.

(** X8: what [get_mets_schema_from_schema_location] answers on a loaded
    descriptor, in full. Without the METS namespace among the tokens of the
    schemaLocation attribute it answers the empty string; otherwise it
    answers the root directory string followed by the token that comes
    after the first occurrence of the namespace, and raises [IndexError]
    when that occurrence is the last token. *)
Theorem reader_schema_location_cases (pm : ParsedMets) (r : element) :
  mets_tree pm = Some r ->
  get_mets_schema_from_schema_location pm
  = match index_of "http://www.loc.gov/METS/" (schema_location_tokens r) with
    | None => Ok ""
    | Some i =>
        match schema_location_tokens r !! (i + 1) with
        | Some loc => Ok (root_dir pm +:+ loc)
        | None => Raise IndexError
        end
    end.
Proof.
  intros H. unfold get_mets_schema_from_schema_location, get_root. rewrite H.
  cbv zeta. fold (schema_location_tokens r).
  rewrite schema_file_loop_spec, index_of_existsb.
  by destruct (index_of _ _).
Qed.

Lemma reader_schema_location_cases_witness :
  let r := Element (q ns_mets "mets")
             [(q ns_xsi "schemaLocation", "a b http://www.loc.gov/METS/")] "" [] in
  let pm := {| root_dir := "/pkg/"; mets_tree := Some r |} in
  get_mets_schema_from_schema_location pm
  = match index_of "http://www.loc.gov/METS/" (schema_location_tokens r) with
    | None => Ok ""
    | Some i =>
        match schema_location_tokens r !! (i + 1) with
        | Some loc => Ok (root_dir pm +:+ loc)
        | None => Raise IndexError
        end
    end.
Proof.
  intros r pm. apply (reader_schema_location_cases pm r). reflexivity.
Defined.

(** ** The table of file groups *)

Lemma subdir_groups_keys env fileSec subdirs k : forall groups s s' groups',
  subdir_groups env fileSec subdirs groups s = (s', Ok groups') ->
  is_Some (groups' !! k) <->
  is_Some (groups !! k) \/ (k ∈ subdirs /\ k ∈ folders_with_USE).
Proof.
  induction subdirs as [|d l IH]; intros groups s s' groups' H; simpl in H.
  - injection H as _ <-. split; [by left|]. intros [?|[Hk _]]; [done|].
    by apply elem_of_nil in Hk.
  - case_bool_decide as Hd.
    + apply bind_Ok in H as (id & s1 & _ & H). apply bind_Ok in H as (g & s2 & _ & H).
      rewrite (IH _ _ _ _ H). rewrite elem_of_cons.
      destruct (decide (k = d)) as [->|Hne].
      * rewrite lookup_insert_eq. split; [|by eauto]. intros _. right. by split; [left|].
      * rewrite lookup_insert_ne by done. tauto.
    + rewrite (IH _ _ _ _ H). rewrite elem_of_cons.
      split; [tauto|]. intros [?|[[->|?] ?]]; tauto.
Qed.

(** X9: the keys of the table of file groups [createMets] builds: the
    role token of the package root, and the names of the top-level
    directories that are role tokens; there is no other key. *)
Theorem file_groups_keys env root_path fileSec s s' groups k :
  file_groups env root_path fileSec s = (s', Ok groups) ->
  is_Some (groups !! k) <->
  k = get_folder_with_USE root_path \/ (k ∈ dirnames (disk s) /\ k ∈ folders_with_USE).
Proof.
  intros H. apply file_groups_inv in H as (id & sg & _ & _ & _ & H).
  rewrite (subdir_groups_keys _ _ _ _ _ _ _ _ H).
  destruct (decide (k = get_folder_with_USE root_path)) as [->|Hne].
  - rewrite lookup_insert_eq. split; intros _; [by left|left; eauto].
  - rewrite lookup_insert_ne, lookup_empty by done. split; intros [H1|H1]; auto.
    + by destruct H1.
    + done.
Qed.

Lemma file_groups_keys_witness :
  let run := file_groups posix_env "/pkg" 0 (initial pkg_schemas) in
  exists groups, run.2 = Ok groups /\
    (is_Some (groups !! "schemas") <->
     "schemas" = get_folder_with_USE "/pkg" \/
     ("schemas" ∈ dirnames (disk (initial pkg_schemas)) /\ "schemas" ∈ folders_with_USE)).
Proof.
  eexists. split; [vm_compute; reflexivity|].
  apply (file_groups_keys posix_env "/pkg" 0 (initial pkg_schemas)
           (file_groups posix_env "/pkg" 0 (initial pkg_schemas)).1).
  vm_compute. reflexivity.
Defined.

(** ** What [createMets] asks of its argument *)

(** X10: [createMets] looks up [packageid], [type], [schemas] and [parent]
    in its argument, in this order: on a dictionary that lacks one of them
    and holds those that come before it, it raises [KeyError] for that
    key, having only stored the dictionary in [mets_data]. *)
Theorem createMets_requires_keys env root_path md mets_file_path s pre k post :
  ["packageid"; "type"; "schemas"; "parent"] = pre ++ k :: post ->
  (forall k', k' ∈ pre -> is_Some (md !! k')) ->
  md !! k = None ->
  createMets env root_path md mets_file_path s
  = (set_mets_data (Some md) s, Raise (KeyError k)).
Proof.
  intros Hkeys Hpre Hnone. unfold createMets, mets_skeleton.
  unfold bind at 1. unfold bind at 1. unfold modify.
  assert (forall k', k' ∈ pre -> exists v, getitem md k' = Ok v) as Hget.
  { intros k' Hk'. destruct (Hpre k' Hk') as [v Hv]. exists v. unfold getitem. by rewrite Hv. }
  assert (getitem md k = Raise (KeyError k)) as Hk by (unfold getitem; by rewrite Hnone).
  destruct pre as [|k1 [|k2 [|k3 [|k4 pre]]]]; simplify_eq/=.
  - unfold bind, lift. by rewrite Hk.
  - destruct (Hget "packageid") as [v1 E1]; [apply (bool_decide_unpack _); vm_compute; exact I|].
    unfold bind, lift. by rewrite E1, Hk.
  - destruct (Hget "packageid") as [v1 E1]; [apply (bool_decide_unpack _); vm_compute; exact I|].
    destruct (Hget "type") as [v2 E2]; [apply (bool_decide_unpack _); vm_compute; exact I|].
    unfold bind, lift. by rewrite E1, E2, Hk.
  - destruct (Hget "packageid") as [v1 E1]; [apply (bool_decide_unpack _); vm_compute; exact I|].
    destruct (Hget "type") as [v2 E2]; [apply (bool_decide_unpack _); vm_compute; exact I|].
    destruct (Hget "schemas") as [v3 E3]; [apply (bool_decide_unpack _); vm_compute; exact I|].
    unfold bind, lift. by rewrite E1, E2, E3, Hk.
  - by destruct pre.
Qed.

Lemma createMets_requires_keys_witness :
  let md : gmap string pyval :=
    <["packageid" := PyStr "urn:uuid:pkg"]>
    (<["type" := PyStr "SIP"]> (<["schemas" := PyStr "/pkg/schemas"]> ∅)) in
  createMets posix_env "/pkg" md None (initial pkg_schemas)
  = (set_mets_data (Some md) (initial pkg_schemas), Raise (KeyError "parent")).
Proof.
  intros md.
  apply (createMets_requires_keys posix_env "/pkg" md None (initial pkg_schemas)
           ["packageid"; "type"; "schemas"] "parent" []).
  - reflexivity.
  - intros k' Hk'.
    repeat (apply elem_of_cons in Hk' as [->|Hk']; [vm_compute; eauto|]).
    by apply elem_of_nil in Hk'.
  - vm_compute. reflexivity.
Defined.

(** ** Files the walk passes over *)

Lemma eqb_app_longer r x : x <> "" -> String.eqb r (r +:+ x) = false.
Proof.
  intros Hx. induction r as [|c r IH]; simpl; [by destruct x|].
  by rewrite Ascii.eqb_refl.
Qed.

Lemma root_is_not_its_metadata root_path :
  String.eqb root_path (path_join root_path "metadata") = false.
Proof.
  unfold path_join. change (startswith "metadata" "/") with false. cbv iota.
  destruct (_ || _); by apply eqb_app_longer.
Qed.

Lemma content_file_at_root env root_path L role physical_div files : forall emptied s,
  for_fold files emptied (content_file env root_path L root_path role physical_div) s
  = (s, Ok emptied).
Proof.
  induction files as [|x l IH]; intros emptied s; [done|].
  cbn [for_fold]. unfold bind, content_file at 1. rewrite String.eqb_refl. apply IH.
Qed.

(** X11: the files that lie in the package root itself leave no trace:
    on the root directory the body of the walk does the same whatever the
    list of file names is. *)
Theorem root_level_files_ignored env root_path L subdirectories filenames s :
  walk_body env root_path L root_path subdirectories filenames s
  = walk_body env root_path L root_path subdirectories [] s.
Proof.
  unfold walk_body. destruct (String.eqb _ "representations"); [done|].
  unfold bind. destruct (new_physical_div _ _ _ s) as [s1 [d|e]]; [|done].
  rewrite root_is_not_its_metadata.
  destruct (endswith root_path "/metadata"); [done|].
  by rewrite content_file_at_root.
Qed.

Lemma content_file_emptied env root_path L directory role physical_div emptied x s s' e' :
  content_file env root_path L directory role physical_div emptied x s = (s', Ok e') ->
  String.eqb directory root_path = false ->
  (e' = emptied \/ e' = true) /\ (lower x = "mets.xml" -> e' = true).
Proof.
  unfold content_file. intros H Hd. rewrite Hd in H.
  destruct (String.eqb (lower x) "mets.xml") eqn:E.
  { apply bind_Ok in H as (u & s1 & _ & H). injection H as _ <-. auto. }
  apply String.eqb_neq in E.
  destruct (nonempty x && endswith directory "schemas").
  { apply bind_Ok in H as (u & s1 & _ & H). injection H as _ <-. auto. }
  destruct (nonempty x).
  { apply bind_Ok in H as (u & s1 & _ & H). injection H as _ <-. auto. }
  injection H as _ <-. auto.
Qed.

Lemma content_fold_prunes env root_path L directory role physical_div files :
  forall emptied s s' b,
  for_fold files emptied (content_file env root_path L directory role physical_div) s
    = (s', Ok b) ->
  String.eqb directory root_path = false ->
  emptied = true \/ (exists f, f ∈ files /\ lower f = "mets.xml") ->
  b = true.
Proof.
  induction files as [|x l IH]; intros emptied s s' b H Hd Hex.
  - injection H as _ <-. destruct Hex as [?|(f & Hf & _)]; [done|].
    by apply elem_of_nil in Hf.
  - cbn [for_fold] in H. apply bind_Ok in H as (e' & s1 & H1 & H).
    apply content_file_emptied in H1 as [He' Hx]; [|done].
    eapply IH; [exact H|done|].
    destruct Hex as [->|(f & Hf & Hlow)]; [left; by destruct He'|].
    apply elem_of_cons in Hf as [->|Hf]; [left; auto|right; eauto].
Qed.

Lemma walk_body_prunes env root_path L directory subdirectories filenames s s' b :
  walk_body env root_path L directory subdirectories filenames s = (s', Ok b) ->
  relpath env directory root_path <> "representations" ->
  directory <> root_path ->
  (exists f, f ∈ filenames /\ lower f = "mets.xml") ->
  b = true.
Proof.
  unfold walk_body. intros H Hrep Hroot Hex.
  apply String.eqb_neq in Hrep, Hroot. rewrite Hrep in H.
  apply bind_Ok in H as (d & s1 & _ & H).
  destruct (String.eqb directory (path_join root_path "metadata")).
  { apply bind_Ok in H as (u & s2 & _ & H). by injection H as _ <-. }
  eapply content_fold_prunes; [exact H|done|].
  destruct (endswith directory "/metadata"); auto.
Qed.

(** X12: below a directory that holds a descriptor of its own (a file
    whose name is [mets.xml] in any case of letters) the walk does not go:
    when the visit of such a directory returns, it has done what the body
    of the walk does on that directory alone, and the body has asked to
    leave the sub-directories out. *)
Theorem nested_descriptor_prunes_walk env root_path L top es s s' :
  walk_entry (walk_body env root_path L) top (Dir es) s = (s', Ok tt) ->
  relpath env top root_path <> "representations" ->
  top <> root_path ->
  (exists f, f ∈ filenames_of es /\ lower f = "mets.xml") ->
  walk_body env root_path L top (dirnames es) (filenames_of es) s = (s', Ok true).
Proof.
  intros H Hrep Hroot Hex. cbn [walk_entry] in H.
  apply bind_Ok in H as (b & s1 & Hb & H).
  pose proof (walk_body_prunes _ _ _ _ _ _ _ _ _ Hb Hrep Hroot Hex) as ->.
  injection H as <-. exact Hb.
Qed.

Lemma nested_descriptor_prunes_walk_witness :
  let L := Locals 0 1 2 (<["representations" := 3]> ∅) 4 5 6 7
             (PyStr "urn:uuid:pkg") (PyStr "SIP") in
  let es := [("METS.xml", File "2019-12-31T00:00:00" (Xml sibling_doc));
             ("data", Dir [("a.txt", regular "a")])] in
  let s := State (replicate 8 (Node "x" [] "" [])) 0 [] pkg_nested [] None in
  let s' := (walk_entry (walk_body posix_env "/pkg" L) "/pkg/representations/rep1"
               (Dir es) s).1 in
  walk_body posix_env "/pkg" L "/pkg/representations/rep1" (dirnames es) (filenames_of es) s
  = (s', Ok true).
Proof.
  intros L es s s'.
  apply (nested_descriptor_prunes_walk posix_env "/pkg" L "/pkg/representations/rep1" es s s').
  - vm_compute. reflexivity.
  - vm_compute. discriminate.
  - vm_compute. discriminate.
  - exists "METS.xml". split; [|reflexivity].
    apply (bool_decide_unpack _). vm_compute. exact I.
Defined.

(** ** A file entry, written and read back *)

Lemma read_file_Ok root_path p s s' f :
  read_file root_path p s = (s', Ok f) -> s' = s.
Proof.
  unfold read_file, locate, bind, gets.
  destruct (locate_on _ _ _) as [[]|]; by intros [= <- _].
Qed.

(** X13: the entry [addFile] makes for a file, as the reader sees it: the
    new file element is a child of the group, it carries the identifier
    returned, and the reader's projections answer the checksum of the
    file, the algorithm [SHA-256] and the path of the file relative to the
    package root. *)
Theorem addFile_readable env root_path file_name g s s' id :
  g < length (heap s) ->
  addFile env root_path file_name g s = (s', Ok id) ->
  exists f e t c,
    read_file root_path file_name s = (s, Ok (t, c)) /\
    edge (heap s') g f /\
    reify (length (heap s')) (heap s') f = Some e /\
    get_key "ID" (eattrib_of e) = Some id /\
    get_file_element_checksum e = get_sha256_hash env c /\
    get_file_element_checksum_algorithm e = "SHA-256" /\
    get_file_element_reference e = relpath env file_name root_path.
Proof.
  intros Hg H. unfold addFile in H.
  apply bind_Ok in H as ([t c] & s0 & Hread & H).
  pose proof (read_file_Ok _ _ _ _ _ Hread) as ->.
  apply bind_Ok in H as (file_id & s1 & Hid & H). injection Hid as <- <-.
  rewrite (bind_eq _ _ _ _ _ (attach_eq _ _ _)) in H.
  rewrite (bind_eq _ _ _ _ _ (attach_eq _ _ _)) in H.
  injection H as Hs' <-.
  destruct (lookup_lt_is_Some_2 _ _ Hg) as [ng Hng].
  set (h := heap s) in *.
  set (Nf := Node (q METS_NS "file") _ "" []) in Hs'.
  set (Nl := Node (q METS_NS "FLocat") _ "" []) in Hs'.
  set (h1 := alter (add_child (length h)) g (h ++ [Nf])).
  assert (length h1 = S (length h)) as Hl1.
  { unfold h1. rewrite length_alter, length_app. simpl. lia. }
  assert (h1 !! length h = Some Nf) as Hf1.
  { unfold h1. rewrite list_lookup_alter_ne by lia. by rewrite list_lookup_middle. }
  assert (h1 !! g = Some (add_child (length h) ng)) as Hg1.
  { unfold h1. by rewrite list_lookup_alter_eq, lookup_app_l, Hng. }
  set (h2 := alter (add_child (length h1)) (length h) (h1 ++ [Nl])).
  assert (h2 !! length h = Some (add_child (length h1) Nf)) as Hf2.
  { unfold h2. rewrite list_lookup_alter_eq, lookup_app_l by lia. by rewrite Hf1. }
  assert (h2 !! length h1 = Some Nl) as Hl2.
  { unfold h2. rewrite list_lookup_alter_ne by lia. by rewrite list_lookup_middle. }
  assert (h2 !! g = Some (add_child (length h) ng)) as Hg2.
  { unfold h2. rewrite list_lookup_alter_ne by lia. rewrite lookup_app_l by lia. done. }
  assert (length h2 = S (S (length h))) as Hlen2.
  { unfold h2. rewrite length_alter, length_app, Hl1. simpl. lia. }
  assert (heap s' = h2) as -> by (by rewrite <- Hs').
  eexists (length h), _, t, c. split_and!.
  - exact Hread.
  - eexists. split; [exact Hg2|]. simpl. apply elem_of_app. right.
    by apply list_elem_of_singleton.
  - rewrite Hlen2. cbn [reify]. unfold ref. rewrite Hf2. cbn [children add_child Nf app mapM].
    rewrite Hl2. cbn [children Nl mapM]. simpl. reflexivity.
  - reflexivity.
  - reflexivity.
  - reflexivity.
  - reflexivity.
Qed.

Lemma addFile_readable_witness :
  let s := State [Node (q METS_NS "fileGrp") [("USE", "other")] "" []] 0 [] pkg_deep_data [] None in
  let s' := (addFile posix_env "/pkg" "/pkg/bar/c.txt" 0 s).1 in
  exists f e t c,
    read_file "/pkg" "/pkg/bar/c.txt" s = (s, Ok (t, c)) /\
    edge (heap s') 0 f /\
    reify (length (heap s')) (heap s') f = Some e /\
    get_key "ID" (eattrib_of e) = Some "ID0" /\
    get_file_element_checksum e = get_sha256_hash posix_env c /\
    get_file_element_checksum_algorithm e = "SHA-256" /\
    get_file_element_reference e = relpath posix_env "/pkg/bar/c.txt" "/pkg".
Proof.
  intros s s'.
  apply (addFile_readable posix_env "/pkg" "/pkg/bar/c.txt" 0 s s' "ID0").
  - simpl. lia.
  - vm_compute. reflexivity.
Defined.

(** ** Every file entry has a pointer *)

Lemma nofiles_quiet g s s' :
  forest (heap s) -> quiet s s' -> nofiles (heap s) g -> nofiles (heap s') g.
Proof.
  intros [W _] [[E _] Q] N f nf Hgf Hf.
  destruct (Q g f Hgf) as [Hold|(nc & Hc & Hnt)].
  - pose proof (edge_valid _ _ _ W Hold) as Hv.
    destruct (lookup_lt_is_Some_2 _ _ Hv) as [nf0 Hf0].
    destruct (hext_node _ _ E f nf0 Hf0) as (nf' & Hf' & Htf & _).
    assert (Some nf' = Some nf) as [= ->] by (rewrite <- Hf'; exact Hf).
    rewrite Htf. by eapply N.
  - assert (Some nc = Some nf) as [= ->] by (rewrite <- Hc; exact Hf). done.
Qed.

Lemma nofiles_cov pd g h : nofiles h g -> cov pd g None h.
Proof. intros N f nf Hgf Hf Ht _. by apply (N f nf Hgf Hf) in Ht. Qed.

(** A leaf that has just been hung below [p] has no file element below
    it, when it is not one itself. *)
Lemma nofiles_attach_leaf p t a x s s' c :
  t <> file_tag ->
  attach p (Element t a x []) s = (s', Ok c) -> nofiles (heap s') c.
Proof.
  intros Ht H. destruct (attach_leaf_node _ _ _ _ _ _ _ H) as (-> & n & Hn & Htn & _).
  rewrite attach_eq in H. injection H as <-. simpl in *.
  intros f nf Hcf Hf.
  destruct (leaf_edges (heap s) _ _ p (Node t a x []) _ _ eq_refl (add_child_children _)
              eq_refl Hcf) as [(m & Hm & _)| ->].
  - apply lookup_lt_Some in Hm. lia.
  - assert (Some n = Some nf) as [= ->] by (rewrite <- Hn; exact Hf). by rewrite Htn.
Qed.

Lemma subdir_groups_nofiles env fileSec subdirs : forall groups s s' groups',
  subdir_groups env fileSec subdirs groups s = (s', Ok groups') ->
  forest (heap s) ->
  (forall k g, groups !! k = Some g -> nofiles (heap s) g) ->
  forall k g, groups' !! k = Some g -> nofiles (heap s') g.
Proof.
  induction subdirs as [|d l IH]; intros groups s s' groups' H F N; simpl in H.
  - by injection H as <- <-.
  - destruct (bool_decide (d ∈ folders_with_USE)); [|by eapply IH].
    apply bind_Ok in H as (id & s1 & H1 & H). apply bind_Ok in H as (g & s2 & H2 & H).
    pose proof (always_run _ _ _ _ _ (quiet_fresh_id _) H1) as Q1.
    assert (quiet s1 s2) as Q2.
    { eapply always_run; [|exact H2]. apply quiet_attach_leaf. cbv. discriminate. }
    pose proof (quiet_trans _ _ _ Q1 Q2) as Q.
    eapply IH; [exact H| |].
    + destruct Q as [[E _] _]. by eapply hext_forest.
    + intros k g' Hk. destruct (decide (k = d)) as [->|Hne].
      * rewrite lookup_insert_eq in Hk. injection Hk as <-.
        eapply nofiles_attach_leaf; [|exact H2]. cbv. discriminate.
      * rewrite lookup_insert_ne in Hk by done. eapply nofiles_quiet; eauto.
Qed.

(** The store the skeleton leaves: no file group of the table has a file
    element yet. *)
Lemma skeleton_groups env root_path md s s1 L :
  forest (heap s) ->
  mets_skeleton env root_path md s = (s1, Ok L) ->
  forall k g, mets_filegroups L !! k = Some g -> walk_inv (package_div L) g s1.
Proof.
  intros F Hskel k g Hk.
  destruct (skeleton_dominant_group _ _ _ _ _ _ F Hskel)
    as (g0 & _ & _ & _ & _ & _ & _ & _ & _ & (F1 & Hpd & _) & _ & _).
  split_and!; [done|done|]. apply nofiles_cov.
  apply mets_skeleton_inv in Hskel
    as (sf & par & sa & sb & sc & sd & se & sf' & id & _ & _ & _ & _ & Hroot & E1 &
        Hfs & Hg & Hp & Hl & Hpar).
  apply mets_root_inv in Hroot as (objid & folder & _ & _ & Hr & Hdisk & Hheap).
  simpl in Hheap.
  assert (hext (heap s) (heap sa)) as Esa.
  { rewrite Hheap. by apply grown_hext, grown_leaf. }
  pose proof (always_run _ _ _ _ _ (extends_attach _ _) Hfs) as Esc.
  pose proof (extends_trans _ _ _ E1 Esc) as [Eac _].
  assert (forest (heap sc)) as Fc.
  { eapply hext_forest; [exact Eac|]. by eapply hext_forest. }
  apply file_groups_inv in Hg as (gid & sg & _ & Hsg & Hdg & Hsub).
  assert (forest (heap sg)) as Fg.
  { eapply hext_forest; [|exact Fc]. rewrite Hsg. by apply grown_hext, grown_leaf. }
  pose proof (always_run _ _ _ _ _ (quiet_subdir_groups _ _ _ _) Hsub) as Q1.
  pose proof (always_run _ _ _ _ _ (quiet_physical_map _ _ _) Hp) as Q2.
  pose proof (always_run _ _ _ _ _ (quiet_logical_map _ _ _) Hl) as Q3.
  pose proof (always_run _ _ _ _ _ (quiet_parent_map _ _ _ _ _) Hpar) as Q4.
  assert (forest (heap sd)) as Fd by (destruct Q1 as [[E _] _]; by eapply hext_forest).
  eapply nofiles_quiet; [exact Fd|eauto using quiet_trans|].
  eapply subdir_groups_nofiles; [exact Hsub|exact Fg| |exact Hk].
  intros k' g' Hk'. destruct (decide (k' = get_folder_with_USE root_path)) as [->|Hne].
  - rewrite lookup_insert_eq in Hk'. injection Hk' as <-.
    intros f nf (n & Hn & Hc) _. rewrite Hsg, list_lookup_middle in Hn by done.
    injection Hn as <-. by apply elem_of_nil in Hc.
  - by rewrite lookup_insert_ne, lookup_empty in Hk'.
Qed.

(** X14: every file entry has a pointer. After a run of [createMets] that
    returns, each file element registered in a file group of the table is
    pointed to from the physical map: a division below the package
    division holds a file pointer whose FILEID is the ID of the element. *)
Theorem every_file_has_a_pointer env root_path md mets_file_path s s' :
  forest (heap s) ->
  createMets env root_path md mets_file_path s = (s', Ok tt) ->
  exists L s1,
    mets_skeleton env root_path md s = (s1, Ok L) /\
    forall k g f nf,
      mets_filegroups L !! k = Some g ->
      edge (heap s') g f -> heap s' !! f = Some nf -> tag nf = file_tag ->
      covered (package_div L) (heap s') f.
Proof.
  intros F H.
  apply createMets_inv in H as (L & s1 & s2 & doc & Hskel & Hwalk & _ & Hheap & _).
  exists L, s1. split; [done|]. rewrite Hheap. intros k g f nf Hk Hgf Hf Ht.
  pose proof (skeleton_groups _ _ _ _ _ _ F Hskel k g Hk) as I.
  pose proof (walk_inv_os_walk _ _ _ _ _ _ _ _ I Hwalk) as (_ & _ & C).
  by eapply C.
Qed.

Lemma every_file_has_a_pointer_witness :
  let s' := (createMets posix_env "/pkg" sample_mets_data None (initial pkg_nested)).1 in
  exists L s1,
    mets_skeleton posix_env "/pkg" sample_mets_data (initial pkg_nested) = (s1, Ok L) /\
    forall k g f nf,
      mets_filegroups L !! k = Some g ->
      edge (heap s') g f -> heap s' !! f = Some nf -> tag nf = file_tag ->
      covered (package_div L) (heap s') f.
Proof.
  apply (every_file_has_a_pointer posix_env "/pkg" sample_mets_data None (initial pkg_nested)).
  - apply forest_nil.
  - vm_compute. reflexivity.
Defined.
























(** With a single quote in the package type the first [find] is given a
    path that does not parse: the operation stops there, with the sibling
    descriptor read but not touched. *)
Example linker_quoted_type :
  let s := set_mets_data (Some (<["type" := PyStr "it's"]> sample_mets_data))
             (generated pkg_with_sibling) in
  let run := setParentRelation posix_env "/pkg" "urn:uuid:child-1" s in
  run.2 = Raise (SyntaxError "invalid predicate") /\ disk run.1 = disk s.
Proof. vm_compute. done. Qed.


(** ** addFiles *)

Lemma addFile_draws env root_path file_name g s s' id :
  addFile env root_path file_name g s = (s', Ok id) ->
  id = "ID" +:+ uuid4 env (drawn s) /\ drawn s' = S (drawn s) /\ disk s' = disk s.
Proof.
  unfold addFile. intros H.
  apply bind_Ok in H as (f & s0 & Hread & H). apply read_file_Ok in Hread as ->.
  apply bind_Ok in H as (file_id & s1 & Hid & H). injection Hid as <- <-.
  rewrite (bind_eq _ _ _ _ _ (attach_eq _ _ _)) in H.
  rewrite (bind_eq _ _ _ _ _ (attach_eq _ _ _)) in H.
  by injection H as <- <-.
Qed.

Lemma fresh_ids_app env n a b :
  fresh_ids env n (a + b) = fresh_ids env n a ++ fresh_ids env (n + a) b.
Proof. unfold fresh_ids. by rewrite seq_app, fmap_app. Qed.

Lemma addFiles_directory env root_path g top files : forall ids s s' ids',
  for_fold files ids (λ ids fn,
    file_id <- addFile env root_path (path_join top fn) g;;
    ret (ids ++ [file_id])) s = (s', Ok ids') ->
  ids' = ids ++ fresh_ids env (drawn s) (length files) /\
  drawn s' = drawn s + length files /\ disk s' = disk s.
Proof.
  induction files as [|fn l IH]; intros ids s s' ids' H.
  - injection H as <- <-. unfold fresh_ids. simpl. by rewrite app_nil_r, Nat.add_0_r.
  - cbn [for_fold] in H. apply bind_Ok in H as (ids1 & s1 & H1 & H).
    apply bind_Ok in H1 as (id & s2 & Hadd & H1). injection H1 as <- <-.
    apply addFile_draws in Hadd as (-> & Hdr & Hd).
    apply IH in H as (-> & Hdr' & Hd'). rewrite Hdr in *.
    split_and!; [|simpl; lia|congruence].
    rewrite <- app_assoc. by f_equal.
Qed.

Lemma addFiles_walk env root_path g e : forall top ids s s' ids',
  walk_entry_acc (λ ids top dirs files,
    for_fold files ids (λ ids fn,
      file_id <- addFile env root_path (path_join top fn) g;;
      ret (ids ++ [file_id]))) ids top e s = (s', Ok ids') ->
  ids' = ids ++ fresh_ids env (drawn s) (count_files e) /\
  drawn s' = drawn s + count_files e /\ disk s' = disk s.
Proof.
  induction e as [t c|es IH] using entry_ind'; intros top ids s s' ids' H.
  - injection H as <- <-. unfold fresh_ids. simpl. by rewrite app_nil_r, Nat.add_0_r.
  - cbn [walk_entry_acc] in H. apply bind_Ok in H as (ids1 & s1 & H1 & H).
    apply addFiles_directory in H1 as (-> & Hdr1 & Hd1).
    cbn [count_files]. rewrite fresh_ids_app, app_assoc, Nat.add_assoc.
    rewrite <- Hdr1, <- Hd1.
    generalize dependent (ids ++ fresh_ids env (drawn s) (length (filenames_of es))).
    clear Hdr1 Hd1 s. revert s1.
    induction IH as [|[n e] es He _ IHes]; intros s1 ids1 H.
    + injection H as <- <-. unfold fresh_ids. simpl. by rewrite app_nil_r, Nat.add_0_r.
    + cbn [walk_children_acc] in H. cbn [snd] in He.
      apply bind_Ok in H as (ids2 & s2 & H2 & H).
      apply He in H2 as (-> & Hdr2 & Hd2).
      apply IHes in H as (-> & Hdr3 & Hd3).
      rewrite fresh_ids_app, app_assoc, Hdr2. split_and!; [done|lia|congruence].
Qed.

(** X16: for a folder inside the package, [addFiles] answers one new
    identifier for each regular file in and below the folder, in the order
    in which they are drawn, and leaves the files on disk as they are. *)
Theorem addFiles_ids env root_path folder segs g s s' ids :
  under_root root_path folder = Some segs ->
  addFiles env root_path folder g s = (s', Ok ids) ->
  ids = fresh_ids env (drawn s) (count_files_at root_path (disk s) folder) /\
  disk s' = disk s.
Proof.
  unfold addFiles, count_files_at, locate. intros _ H.
  apply bind_Ok in H as (e & s0 & He & H). injection He as <- <-.
  destruct (locate_on root_path (disk s) folder) as [e|].
  - by apply addFiles_walk in H as (-> & _ & Hd).
  - by injection H as <- <-.
Qed.

Lemma addFiles_ids_witness :
  let s := State [Node (q METS_NS "fileGrp") [("USE", "other")] "" []] 0 [] pkg_deep_data [] None in
  let run := addFiles posix_env "/pkg" "/pkg" 0 s in
  [ "ID0"; "ID1" ] = fresh_ids posix_env (drawn s) (count_files_at "/pkg" (disk s) "/pkg") /\
  disk run.1 = disk s.
Proof.
  intros s run.
  apply (addFiles_ids posix_env "/pkg" "/pkg" [] 0 s run.1 ["ID0"; "ID1"]).
  - reflexivity.
  - vm_compute. reflexivity.
Defined.

(** ** Linking twice, in the store *)















(** ** Generation only adds to the store *)

Lemma extends_mets_root env root_path pid pt sf :
  always extends (mets_root env root_path pid pt sf).
Proof.
  intros s. unfold mets_root, create, bind at 1, lift at 1.
  destruct (attr_value pid) as [objid|e]; [|apply extends_refl].
  unfold bind at 1. rewrite load_layout. unfold bind at 1, lift at 1.
  destruct (as_path sf) as [folder|e].
  - unfold mets_schema_location_of, xlink_schema_location_of, isfile, set_attrib,
      modify, bind, gets, ret. simpl. split; [|done]. cbn [heap set_heap].
    rewrite alter_app_r_alt by done. rewrite Nat.sub_diag. simpl.
    by apply grown_hext, grown_leaf.
  - simpl. split; [|done]. by apply grown_hext, grown_leaf.
Qed.

Lemma extends_mets_skeleton env root_path md :
  always extends (mets_skeleton env root_path md).
Proof.
  unfold mets_skeleton.
  repeat (always_shape extends extends_refl extends_trans
            ltac:(first [ extends_prim | apply extends_mets_root | apply extends_mets_header
                        | apply extends_file_groups | apply extends_physical_map
                        | apply extends_logical_map | apply extends_parent_map
                        | by apply extends_modify ])).
Qed.

Lemma grows_refl s : grows s s.
Proof. apply hext_refl. Qed.

Lemma grows_trans a b c : grows a b -> grows b c -> grows a c.
Proof. apply hext_trans. Qed.

(** X18: generation only adds to the element store. Whatever the outcome
    of [createMets], the elements that were in the store are still there
    with their tag, attributes and text, they have at most gained
    children, an element without a parent still has none, and if no
    element had two parents none has now: no element is ever appended a
    second time. *)
Theorem generation_only_adds env root_path md mets_file_path s :
  hext (heap s) (heap (createMets env root_path md mets_file_path s).1).
Proof.
  assert (forall A (m : M A), always extends m -> always grows m) as W.
  { intros A m H s0. apply H. }
  assert (always grows (createMets env root_path md mets_file_path)) as H; [|apply H].
  unfold createMets.
  apply (always_bind _ grows_trans); [apply W, extends_mets_skeleton|]. intros L.
  apply (always_bind _ grows_trans); [apply W, extends_walk|]. intros _.
  unfold etree_tostring, open_w, file_write.
  repeat (always_shape grows grows_refl grows_trans ltac:(intros ?; apply hext_refl)).
Qed.
